(** * Debug session protocol engine: a shallow embedding of
      [adapter/debugsession.py] and the properties of its request router,
      source locator, breakpoint registry, stop evaluation and event
      normalizer. *)

From Stdlib Require Import ZArith String Ascii List Bool Lia.
From stdpp Require Import base option gmap strings list fin_maps pretty.

Local Open Scope string_scope.
Local Open Scope list_scope.
Local Open Scope Z_scope.
#[local] Set Warnings "-register-all,-clear-no-such-hyp".

(** ** Python values the engine manipulates *)

Module Py.

(** Exception classes that the engine raises or catches. *)
Inductive ExnClass :=
| KeyError | TypeError | ValueError | AttributeError | UnboundLocalError
| SyntaxError | UserError | OtherException.

Record Exn := mkExn { exn_class : ExnClass; exn_msg : string }.

(** The outcome of a call: a value or a raised exception. *)
Inductive Exc (A : Type) :=
| Ok (a : A)
| Raise (e : Exn).
Arguments Ok {A} a.
Arguments Raise {A} e.

Definition is_syntax_error (e : Exn) : bool :=
  match exn_class e with SyntaxError => true | _ => false end.

(** [s.startswith(p)] *)
Definition startswith (p s : string) : bool := String.prefix p s.

(** [s.endswith(suffix)] *)
Definition endswith (suffix s : string) : bool :=
  let n := String.length s in
  let k := String.length suffix in
  (k <=? n)%nat && String.eqb (substring (n - k) k s) suffix.

(** [s[n:]] *)
Definition slice_from (n : nat) (s : string) : string :=
  substring n (String.length s - n) s.

(** [s[:-k]] for [k > 0] *)
Definition slice_to_minus (k : nat) (s : string) : string :=
  substring 0 (String.length s - k) s.

(** Truth value of a string: non-empty. *)
Definition str_truthy (s : string) : bool :=
  match s with EmptyString => false | _ => true end.

(** Truth value of an optional string ([None] and [''] are falsy). *)
Definition opt_str_truthy (o : option string) : bool :=
  match o with Some s => str_truthy s | None => false end.

(** [s.replace(a, b)] for a one-character [a]. *)
Fixpoint replace_char (a : ascii) (b : string) (s : string) : string :=
  match s with
  | EmptyString => EmptyString
  | String c r =>
      if Ascii.eqb c a then b +:+ replace_char a b r
      else String c (replace_char a b r)
  end.

Definition newline : ascii := Ascii.ascii_of_nat 10.
Definition nl : string := String newline EmptyString.

(** the double quote character, and a text between double quotes *)
Definition dquote : string := String (Ascii.ascii_of_nat 34) EmptyString.
Definition quoted (s : string) : string := dquote +:+ s +:+ dquote.

End Py.
Import Py.

(** ** Objects of the debugger backend

    The backend (LLDB) is an external collaborator: its objects are modelled
    by the attributes the engine reads, and the calls made to it are recorded
    in the session's effect trace. *)

Inductive Format :=
| eFormatDefault | eFormatHex | eFormatOctal | eFormatDecimal | eFormatBinary
| eFormatFloat | eFormatPointer | eFormatUnsigned | eFormatCString
| eFormatBytes | eFormatBytesWithASCII.

Inductive StopReason :=
| eStopReasonInvalid | eStopReasonNone | eStopReasonTrace
| eStopReasonBreakpoint | eStopReasonWatchpoint | eStopReasonSignal
| eStopReasonException | eStopReasonExec | eStopReasonPlanComplete
| eStopReasonThreadExiting | eStopReasonInstrumentation.

Inductive ValueType :=
| eValueTypeVariableStatic | eValueTypeVariableGlobal | eValueTypeRegisterSet
| eValueTypeOther.

Record SBFileSpec := mkFileSpec {
  fs_valid : bool;
  fs_directory : option string;
  fs_filename : option string;
  fullpath : option string
}.

Record SBValue := mkValue {
  sv_valid : bool;
  sv_name : option string;
  sv_type_name : string;
  sv_is_pointer : bool;               (* type class is pointer or reference *)
  sv_unsigned : Z;                    (* GetValueAsUnsigned() *)
  sv_value : Format -> option string; (* GetValue() under the format set *)
  sv_summary : option string;
  sv_num_children : Z;
  sv_is_synthetic : bool;
  sv_value_type : ValueType
}.

Record SBFrame := mkFrame {
  fr_id : Z;
  fr_thread : Z;                      (* id of the owning thread *)
  fr_filespec : SBFileSpec;           (* GetLineEntry().GetFileSpec() *)
  fr_locals : list SBValue;           (* GetVariables(True, True, False, True) *)
  fr_statics : list SBValue;          (* GetVariables(False, False, True, True) *)
  fr_registers : list SBValue
}.

Record SBThread := mkThread {
  th_id : Z;
  th_stop_reason : StopReason;
  th_stop_data0 : Z;                  (* GetStopReasonDataAtIndex(0) *)
  th_stop_description : string;
  th_frame0 : SBFrame;
  th_stop_return_value : SBValue
}.

Record SBProcess := mkProcess {
  pr_selected : option SBThread;      (* None: no valid selected thread *)
  pr_threads : list SBThread          (* in creation order *)
}.

Record SBBreakpointLocation := mkLoc {
  loc_filespec : SBFileSpec;
  loc_line : Z;
  loc_enabled : bool
}.

Record SBBreakpoint := mkBp {
  bp_locations : list SBBreakpointLocation;
  bp_condition : option string;       (* native condition *)
  bp_ignore_count : Z;
  bp_callback : option string         (* script callback function *)
}.

(** The target's breakpoint table; ids are handed out in sequence. *)
Record SBTarget := mkTarget {
  tg_breakpoints : gmap Z SBBreakpoint;
  tg_next_id : Z
}.

Record CommandResult := mkCmdResult {
  cr_succeeded : bool;
  cr_output : string;
  cr_error : string
}.

(** Values produced by the expression evaluators. *)
Inductive PyObj :=
| ObjSBValue (v : SBValue)
| ObjValue (v : SBValue)              (* expressions.Value wrapping an SBValue *)
| ObjSBError (msg : string)
| ObjOther (repr : string).           (* any other host value, with its str() *)

(** Expression types *)
Inductive ExprType := SIMPLE | PYTHON | NATIVE.

Inductive CompileMode := ModeEval | ModeExec.

(** Which [eval] call site runs a piece of code: they differ in the globals
    and locals passed. *)
Inductive EvalSite := CondPython | CondSimple | ExprPython | ExprSimple.

(** The backend capability. *)
Class Backend := {
  (** locations the backend resolves for a breakpoint set by file name and line *)
  resolve_locations : string -> Z -> list SBBreakpointLocation;
  (** the command interpreter *)
  handle_command : string -> CommandResult;
  (** [frame.EvaluateExpression] or, without a frame, [target.EvaluateExpression]:
      the value, or the error message *)
  evaluate_expression : option SBFrame -> string -> SBValue + string;
  value_children : SBValue -> list SBValue;
  non_synthetic_value : SBValue -> SBValue;
  (** the error of [process.Continue()], when it fails *)
  process_continue_error : option string
}.

(** The host runtime: the Python library functions and the helper modules
    ([os.path], [fnmatch] and [re], [expressions], string conversions) that
    the engine calls. *)
Class Runtime := {
  normpath : string -> string;
  normcase : string -> string;
  basename : string -> string;
  isfile : string -> bool;
  from_lldb_str : string -> string;
  to_lldb_str : string -> string;
  (** [int(s)]: [None] stands for [ValueError] *)
  parse_int : string -> option Z;
  (** [traceback.format_exc()] for the exception being handled *)
  format_exc : Exn -> string;
  (** [compile(src, name, mode)]: the exception raised, if any *)
  py_compile : string -> CompileMode -> option Exn;
  (** [eval(code, globals, locals)] in the context of a frame *)
  py_eval : EvalSite -> string -> SBFrame -> Exc PyObj;
  py_truth : PyObj -> bool;
  preprocess_python_expr : string -> Exc string;
  preprocess_simple_expr : string -> Exc string;
  escape_variable_name : string -> string;
  (** the regex compiled from a source-map glob, matched at the start of a
      path: the length of group 1 on a match *)
  glob_prefix_match : string -> string -> option nat;
  (** the pieces of a log message as [substitution_regex] cuts it: literal
      text ([inl]) and the text of the [{...}] placeholders ([inr]) *)
  split_placeholders : string -> list (string + string)
}.

(** ** Protocol messages *)

Inductive Json :=
| JNull
| JBool (b : bool)
| JInt (z : Z)
| JStr (s : string)
| JArr (l : list Json)
| JObj (l : list (string * Json)).

(** A Python dict literal with string keys, in insertion order. *)
Definition Dict := list (string * Json).

Fixpoint dict_get (k : string) (d : Dict) : option Json :=
  match d with
  | [] => None
  | (k', v) :: r => if String.eqb k k' then Some v else dict_get k r
  end.

(** [d[k] = v] *)
Fixpoint dict_set (k : string) (v : Json) (d : Dict) : Dict :=
  match d with
  | [] => [(k, v)]
  | (k', v') :: r =>
      if String.eqb k k' then (k', v) :: r else (k', v') :: dict_set k v r
  end.

Definition opt_json (o : option string) : Json :=
  match o with Some s => JStr s | None => JNull end.

Inductive Message :=
| MRequest (seq : Z) (command : string) (arguments : Dict)
| MEvent (event : string) (body : Dict)
| MResponse (request_seq : Z) (command : string) (success : bool) (body : Json).

(** A completion callback of a reverse request. *)
Inductive Callback := OnComplete (tag : nat).

Inductive LogLevel := LInfo | LWarning | LError.

(** ** Calls the engine makes on its collaborators, in order *)

Inductive Effect :=
| Send (m : Message)                                   (* send_message(m) *)
| Log (level : LogLevel) (text : string)
| Invoke (cb : Callback) (ok : bool) (payload : Json)  (* on_complete(ok, payload) *)
| VarRefsReset                                         (* var_refs.reset() *)
| BreakpointDelete (bp : Z)
| BreakpointCreateByLocation (file : string) (line : Z) (bp : Z)
| LocSetEnabled (bp : Z) (loc : nat) (enabled : bool)
| BpSetCondition (bp : Z) (cond : option string)
| BpSetIgnoreCount (bp : Z) (n : Z)
| BpSetScriptCallbackFunction (bp : Z) (fn : string)
| ProcessContinue
| ThreadStepOver (tid : Z)
| ThreadStepInto (tid : Z)
| ThreadStepOut (tid : Z)
| ThreadStepInstruction (tid : Z) (step_over : bool)
| InterpHandleCommand (cmd : string)
| SetSelectedThread (tid : Z)
| DisableBpEvents
| EnableBpEvents.

(** ** Handle tree *)

(** What a handle stands for: a stack frame, one of the four scope markers of
    a frame, or a composite value. *)
Inductive HObject :=
| HFrame (f : SBFrame)
| HLocalsScope (f : SBFrame)
| HStaticsScope (f : SBFrame)
| HGlobalsScope (f : SBFrame)
| HRegistersScope (f : SBFrame)
| HValue (v : SBValue).

(** Parent-relative keys: a name, or (thread id, frame index) for a frame. *)
Inductive HKey :=
| KName (s : string)
| KFrame (tid : Z) (index : Z).

Module HandleTree.

(** Modelled from the spec: the [handles.HandleTree] class, whose source is
    not part of [adapter/debugsession.py].  The spec gives its contract:
    [create(object, key, parentHandle) -> handle], [get(handle) ->
    object|null], [getPath(handle) -> (object, orderedPathSegments)|null],
    [reset()] invalidates all handles; allocation is monotonic within a
    generation; zero is reserved for "no handle". *)
Record t := mk {
  next_handle : Z;
  entries : gmap Z (HObject * HKey * option Z)
}.

Definition empty : t := mk 1 ∅.

Definition create (obj : HObject) (key : HKey) (parent : option Z) (h : t) : Z * t :=
  (next_handle h,
   mk (next_handle h + 1) (<[next_handle h := (obj, key, parent)]> (entries h))).

Definition get (handle : option Z) (h : t) : option HObject :=
  match handle with
  | Some n => (fun e => e.1.1) <$> entries h !! n
  | None => None
  end.

(** The path of a handle: the keys from the owning frame down to it.  The
    fuel bounds the walk up the parents. *)
Fixpoint path_of (fuel : nat) (n : Z) (h : t) : list HKey :=
  match fuel with
  | O => []
  | S fuel' =>
      match entries h !! n with
      | Some (_, key, Some p) => path_of fuel' p h ++ [key]
      | Some (_, key, None) => [key]
      | None => []
      end
  end.

Definition get_vpath (n : Z) (h : t) : option (HObject * list HKey) :=
  match entries h !! n with
  | Some (obj, _, _) => Some (obj, path_of (S (size (entries h))) n h)
  | None => None
  end.

(** Starts a new generation: no handle of the old one resolves. *)
Definition reset (h : t) : t := empty.

End HandleTree.

(** ** Session state *)

(** A compiled breakpoint condition: the closure [eval_condition] that
    [make_python_expression_bpcond] or [make_simple_expression_bpcond]
    returns, given by the code it captured. *)
Inductive CondEvaluator :=
| PythonCond (pycode : string) (is_expression : bool)
| SimpleCond (pycode : string).

(** Serialized location data of a disassembly breakpoint. *)
Record AdapterData := mkAdapterData {
  ad_start : Z;
  ad_end : Z;
  ad_lines : list (string * Z)
}.

(** Various info we maintain about a breakpoint *)
Record BreakpointInfo := mkInfo {
  bi_id : Z;
  exception_bp : bool;
  condition : option CondEvaluator;
  ignore_count : Z;
  log_message : option string;
  address : option Z;
  adapter_data : option AdapterData
}.

(** [BreakpointInfo(id)] *)
Definition new_BreakpointInfo (id : Z) : BreakpointInfo :=
  mkInfo id false None 0 None None None.

Inductive ShowDisassembly := ShowNever | ShowAuto | ShowAlways.

Record LaunchArgs := mkLaunchArgs {
  noDebug : bool;                              (* args.get('noDebug', False) *)
  expressions : ExprType;                      (* args.get('expressions', SIMPLE) *)
  sourceMap : list (string * option string)    (* args.get('sourceMap', {}).items() *)
}.

Record Session := mkSession {
  var_refs : HandleTree.t;
  line_breakpoints : gmap string (gmap Z Z);  (* { file_id : { line : breakpoint_id } } *)
  breakpoints : gmap Z BreakpointInfo;  (* { breakpoint_id : BreakpointInfo } *)
  target : SBTarget;
  process : option SBProcess;
  launch_args : LaunchArgs;
  request_seq : Z;
  pending_requests : gmap Z Callback;  (* { seq : on_complete } *)
  known_threads : gset Z;
  source_map : option (list (string * option string));
  filespec_cache : gmap (option string * option string) (option string);  (* { (dir, filename) : local_file_path } *)
  global_format : Format;
  show_disassembly : ShowDisassembly;  (* never | auto | always *)
  deref_pointers : bool;
  suppress_missing_sources : bool;
  trace : list Effect  (* calls on collaborators, oldest first *)
}.

Definition with_var_refs (v : HandleTree.t) (s : Session) : Session :=
  mkSession v (line_breakpoints s) (breakpoints s) (target s) (process s)
    (launch_args s) (request_seq s) (pending_requests s) (known_threads s)
    (source_map s) (filespec_cache s) (global_format s) (show_disassembly s)
    (deref_pointers s) (suppress_missing_sources s) (trace s).

Definition with_line_breakpoints (v : gmap string (gmap Z Z)) (s : Session) : Session :=
  mkSession (var_refs s) v (breakpoints s) (target s) (process s)
    (launch_args s) (request_seq s) (pending_requests s) (known_threads s)
    (source_map s) (filespec_cache s) (global_format s) (show_disassembly s)
    (deref_pointers s) (suppress_missing_sources s) (trace s).

Definition with_breakpoints (v : gmap Z BreakpointInfo) (s : Session) : Session :=
  mkSession (var_refs s) (line_breakpoints s) v (target s) (process s)
    (launch_args s) (request_seq s) (pending_requests s) (known_threads s)
    (source_map s) (filespec_cache s) (global_format s) (show_disassembly s)
    (deref_pointers s) (suppress_missing_sources s) (trace s).

Definition with_target (v : SBTarget) (s : Session) : Session :=
  mkSession (var_refs s) (line_breakpoints s) (breakpoints s) v (process s)
    (launch_args s) (request_seq s) (pending_requests s) (known_threads s)
    (source_map s) (filespec_cache s) (global_format s) (show_disassembly s)
    (deref_pointers s) (suppress_missing_sources s) (trace s).

Definition with_process (v : option SBProcess) (s : Session) : Session :=
  mkSession (var_refs s) (line_breakpoints s) (breakpoints s) (target s) v
    (launch_args s) (request_seq s) (pending_requests s) (known_threads s)
    (source_map s) (filespec_cache s) (global_format s) (show_disassembly s)
    (deref_pointers s) (suppress_missing_sources s) (trace s).

Definition with_request_seq (v : Z) (s : Session) : Session :=
  mkSession (var_refs s) (line_breakpoints s) (breakpoints s) (target s)
    (process s) (launch_args s) v (pending_requests s) (known_threads s)
    (source_map s) (filespec_cache s) (global_format s) (show_disassembly s)
    (deref_pointers s) (suppress_missing_sources s) (trace s).

Definition with_pending_requests (v : gmap Z Callback) (s : Session) : Session :=
  mkSession (var_refs s) (line_breakpoints s) (breakpoints s) (target s)
    (process s) (launch_args s) (request_seq s) v (known_threads s)
    (source_map s) (filespec_cache s) (global_format s) (show_disassembly s)
    (deref_pointers s) (suppress_missing_sources s) (trace s).

Definition with_known_threads (v : gset Z) (s : Session) : Session :=
  mkSession (var_refs s) (line_breakpoints s) (breakpoints s) (target s)
    (process s) (launch_args s) (request_seq s) (pending_requests s) v
    (source_map s) (filespec_cache s) (global_format s) (show_disassembly s)
    (deref_pointers s) (suppress_missing_sources s) (trace s).

Definition with_source_map (v : option (list (string * option string))) (s : Session) : Session :=
  mkSession (var_refs s) (line_breakpoints s) (breakpoints s) (target s)
    (process s) (launch_args s) (request_seq s) (pending_requests s)
    (known_threads s) v (filespec_cache s) (global_format s)
    (show_disassembly s) (deref_pointers s) (suppress_missing_sources s)
    (trace s).

Definition with_filespec_cache (v : gmap (option string * option string) (option string)) (s : Session) : Session :=
  mkSession (var_refs s) (line_breakpoints s) (breakpoints s) (target s)
    (process s) (launch_args s) (request_seq s) (pending_requests s)
    (known_threads s) (source_map s) v (global_format s) (show_disassembly s)
    (deref_pointers s) (suppress_missing_sources s) (trace s).

Definition with_global_format (v : Format) (s : Session) : Session :=
  mkSession (var_refs s) (line_breakpoints s) (breakpoints s) (target s)
    (process s) (launch_args s) (request_seq s) (pending_requests s)
    (known_threads s) (source_map s) (filespec_cache s) v (show_disassembly s)
    (deref_pointers s) (suppress_missing_sources s) (trace s).

Definition with_show_disassembly (v : ShowDisassembly) (s : Session) : Session :=
  mkSession (var_refs s) (line_breakpoints s) (breakpoints s) (target s)
    (process s) (launch_args s) (request_seq s) (pending_requests s)
    (known_threads s) (source_map s) (filespec_cache s) (global_format s) v
    (deref_pointers s) (suppress_missing_sources s) (trace s).

Definition with_deref_pointers (v : bool) (s : Session) : Session :=
  mkSession (var_refs s) (line_breakpoints s) (breakpoints s) (target s)
    (process s) (launch_args s) (request_seq s) (pending_requests s)
    (known_threads s) (source_map s) (filespec_cache s) (global_format s)
    (show_disassembly s) v (suppress_missing_sources s) (trace s).

Definition with_trace (v : list Effect) (s : Session) : Session :=
  mkSession (var_refs s) (line_breakpoints s) (breakpoints s) (target s)
    (process s) (launch_args s) (request_seq s) (pending_requests s)
    (known_threads s) (source_map s) (filespec_cache s) (global_format s)
    (show_disassembly s) (deref_pointers s) (suppress_missing_sources s) v.

(** Records one call on a collaborator. *)
Definition emit (e : Effect) (s : Session) : Session :=
  with_trace (trace s ++ [e]) s.

(** [DebugSession.__init__] *)
Definition init_session (suppressMissingSourceFiles : bool) (args : LaunchArgs) : Session :=
  mkSession HandleTree.empty ∅ ∅ (mkTarget ∅ 1) None args 1 ∅ ∅ None ∅
    eFormatDefault ShowAuto true suppressMissingSourceFiles [].

(** ** Stateful computations that may raise *)

Definition M (A : Type) : Type := Session -> Exc A * Session.

Definition ret {A} (a : A) : M A := fun s => (Ok a, s).
Definition raise {A} (e : Exn) : M A := fun s => (Raise e, s).
Definition bind {A B} (m : M A) (k : A -> M B) : M B :=
  fun s => match m s with
           | (Ok a, s') => k a s'
           | (Raise e, s') => (Raise e, s')
           end.
(** a state update that cannot raise *)
Definition act (f : Session -> Session) : M unit := fun s => (Ok tt, f s).
(** reads the state *)
Definition gets {A} (f : Session -> A) : M A := fun s => (Ok (f s), s).
(** [try: body finally: cleanup] *)
Definition try_finally {A} (body : M A) (cleanup : Session -> Session) : M A :=
  fun s => match body s with (r, s') => (r, cleanup s') end.

Declare Scope m_scope.
Delimit Scope m_scope with M.
Notation "x <- m ;; k" := (bind m (fun x => k))
  (at level 100, m at next level, right associativity) : m_scope.
Notation "m ;;; k" := (bind m (fun _ => k))
  (at level 100, right associativity) : m_scope.

Fixpoint for_each {A} (f : A -> M unit) (l : list A) : M unit :=
  match l with
  | [] => ret tt
  | x :: r => bind (f x) (fun _ => for_each f r)
  end.

(** ** Console and protocol output *)

Section Console.
Context `{Runtime}.

Definition send_message (m : Message) (s : Session) : Session :=
  emit (Send m) s.

Definition send_event (event : string) (body : Dict) (s : Session) : Session :=
  send_message (MEvent event body) s.

(** Write a message to debug console *)
Definition console_msg (output : string) (category : option string)
    (s : Session) : Session :=
  if str_truthy output then
    send_event "output"
      [("category", opt_json category);
       ("output", JStr (from_lldb_str output +:+ nl))] s
  else s.

Definition console_err (output : string) (s : Session) : Session :=
  console_msg output (Some "stderr") s.

End Console.

(** ** Request router: reverse requests and their responses *)

(** A message of type ['response'] received from the client. *)
Record Response := mkResponse {
  resp_request_seq : Z;      (* message['request_seq'] *)
  resp_success : bool;       (* message['success'] *)
  resp_body : Json;          (* message.get('body') *)
  resp_message : Json        (* message.get('message') *)
}.

(** Send a request to the client.  When the response is received,
    [on_complete] is called. *)
Definition send_request (command : string) (args : Dict) (on_complete : Callback)
    (s : Session) : Session :=
  let request := MRequest (request_seq s) command args in
  let s1 := with_pending_requests
              (<[request_seq s := on_complete]> (pending_requests s)) s in
  let s2 := with_request_seq (request_seq s1 + 1) s1 in
  emit (Send request) s2.

(** [handle_message] on a message whose type is ['response']. *)
Definition handle_message (message : Response) (s : Session) : Session :=
  let seq := resp_request_seq message in
  match pending_requests s !! seq with
  | None =>
      emit (Log LError
              ("Received response without pending request, seq=" +:+ pretty seq)) s
  | Some on_complete =>
      let s1 := with_pending_requests (delete seq (pending_requests s)) s in
      if resp_success message then
        emit (Invoke on_complete true (resp_body message)) s1
      else
        emit (Invoke on_complete false (resp_message message)) s1
  end.

(** What the router does, one step at a time. *)
Inductive RouterStep :=
| StepSendRequest (command : string) (args : Dict) (on_complete : Callback)
| StepResponse (message : Response).

Definition router_step (st : RouterStep) (s : Session) : Session :=
  match st with
  | StepSendRequest c a k => send_request c a k s
  | StepResponse m => handle_message m s
  end.

Definition router_run (steps : list RouterStep) (s : Session) : Session :=
  fold_left (fun s st => router_step st s) steps s.

Definition is_invoke (e : Effect) : bool :=
  match e with Invoke _ _ _ => true | _ => false end.

(** number of callback invocations recorded in a trace *)
Definition invocations (t : list Effect) : nat :=
  length (List.filter is_invoke t).

Definition is_send_step (st : RouterStep) : bool :=
  match st with StepSendRequest _ _ _ => true | _ => false end.

(** Pending sequence numbers were all handed out already. *)
Definition router_inv (s : Session) : Prop :=
  map_Forall (fun k _ => k < request_seq s) (pending_requests s).

#[global] Instance router_inv_dec (s : Session) : Decision (router_inv s).
Proof. unfold router_inv. apply _. Defined.

(** ** Source locator *)

Section SourceLocator.
Context `{Runtime}.

(** [os.path.isfile(path)].  The library function stats the path and
    catches [OSError] and [ValueError] only: on [None] the [TypeError] of
    [os.stat] reaches the caller. *)
Definition os_path_isfile (path : option string) : Exc bool :=
  match path with
  | Some p => Ok (isfile p)
  | None => Raise (mkExn TypeError "stat: path should be string, bytes, os.PathLike or integer, not NoneType")
  end.

(** The compiled source map: each rule keeps the glob its regex was
    compiled from, with the local prefix. *)
Definition make_source_map (s : Session) : Session :=
  with_source_map (Some (sourceMap (launch_args s))) s.

(** The loop over [self.source_map] in [map_filespec_to_local_uncached]. *)
Fixpoint apply_source_map (rules : list (string * option string))
    (path path_normcased : string) : option string :=
  match rules with
  | [] => Some path
  | (remote_prefix_regex, local_prefix) :: rest =>
      match glob_prefix_match remote_prefix_regex path_normcased with
      | Some group1_len =>
          match local_prefix with
          | None => None (* User directed us to suppress source info. *)
          | Some lp => Some (normpath (lp +:+ slice_from group1_len path))
          end
      | None => apply_source_map rest path path_normcased
      end
  end.

Definition map_filespec_to_local_uncached (filespec : SBFileSpec)
    (s : Session) : option string * Session :=
  let s1 := match source_map s with
            | None => make_source_map s
            | Some _ => s
            end in
  match fullpath filespec with
  | None => (None, s1)
  | Some p =>
      let path := normpath p in
      let path_normcased := normcase path in
      (apply_source_map (default [] (source_map s1)) path path_normcased, s1)
  end.

(** Translates SBFileSpec into a local path using mappings in source_map. *)
Definition map_filespec_to_local (filespec : SBFileSpec) : M (option string) :=
  fun s =>
    if negb (fs_valid filespec) then (Ok None, s)
    else
      let key := (fs_directory filespec, fs_filename filespec) in
      match filespec_cache s !! key with
      | Some local_path => (Ok local_path, s)
      | None => (* MISSING *)
          let '(local_path, s1) := map_filespec_to_local_uncached filespec s in
          let s2 := emit (Log LInfo ("Mapped " +:+ quoted (default "None" (fullpath filespec))
                                     +:+ " to " +:+ quoted (default "None" local_path))) s1 in
          if suppress_missing_sources s2 then
            match os_path_isfile local_path with
            | Raise e => (Raise e, s2)
            | Ok is_file =>
                let local_path' := if negb is_file then None else local_path in
                (Ok local_path',
                 with_filespec_cache (<[key := local_path']> (filespec_cache s2)) s2)
            end
          else
            (Ok local_path,
             with_filespec_cache (<[key := local_path]> (filespec_cache s2)) s2)
      end.

(** The rules in force for a session: the compiled map, or the one
    [make_source_map] is about to compile. *)
Definition rules_of (s : Session) : list (string * option string) :=
  match source_map s with
  | Some rules => rules
  | None => sourceMap (launch_args s)
  end.

(** no rule before this point matches the path *)
Definition no_rule_matches (rules : list (string * option string))
    (path_normcased : string) : Prop :=
  Forall (fun r => glob_prefix_match r.1 path_normcased = None) rules.

End SourceLocator.

(** ** Values and handles *)

Section Values.
Context `{Runtime}.

(** Extracts a printable value from SBValue. *)
Definition get_var_value (var : SBValue) (format : Format) (s : Session)
    : option string :=
  let is_pointer := sv_is_pointer var in
  let value :=
    if is_pointer && deref_pointers s
       && match format with eFormatDefault => true | _ => false end
    then
      (* try to get summary of the pointee *)
      if sv_unsigned var =? 0 then Some "<null>" else sv_summary var
    else
      match sv_value var format with
      | Some v => Some v
      | None => sv_summary var
      end in
  match value with
  | Some v => Some (from_lldb_str (replace_char newline EmptyString v))
  | None => None
  end.

(** Same as get_var_value, but with a fallback in case there is no value. *)
Definition get_var_value_not_null (var : SBValue) (format : Format)
    (is_container : bool) (s : Session) : string :=
  match get_var_value var format s with
  | Some value => value
  | None => if is_container then sv_type_name var else "<not available>"
  end.

(** Generate a handle for a variable. *)
Definition get_var_handle (var : SBValue) (key : string) (parent_handle : option Z)
    (s : Session) : Z * Session :=
  if (0 <? sv_num_children var) || sv_is_synthetic var then
    let '(h, t) := HandleTree.create (HValue var) (KName key) parent_handle
                     (var_refs s) in
    (h, with_var_refs t s)
  else (0, s).

End Values.

(** ** Resuming the inferior *)

Definition digit_chars : list ascii :=
  list_ascii_of_string "0123456789abcdef".

Definition hex_digit (d : Z) : ascii :=
  nth (Z.to_nat d) digit_chars (Ascii.ascii_of_nat 48).

Fixpoint hex_digits (fuel : nat) (n : Z) (acc : string) : string :=
  match fuel with
  | O => acc
  | S fuel' =>
      let acc' := String (hex_digit (n mod 16)) acc in
      if n / 16 =? 0 then acc' else hex_digits fuel' (n / 16) acc'
  end.

(** ['%x' % n] *)
Definition format_hex (n : Z) : string :=
  if n <? 0 then "-" +:+ hex_digits (S (Z.to_nat (Z.log2 (- n)))) (- n) EmptyString
  else hex_digits (S (Z.to_nat (Z.log2 n))) n EmptyString.

Definition invalid_filespec : SBFileSpec := mkFileSpec false None None None.

Definition no_process {A} : M A :=
  raise (mkExn AttributeError "'NoneType' object has no attribute").

(** [self.process.GetThreadByID(tid)]; [None] is an invalid thread. *)
Definition GetThreadByID (tid : Z) (p : SBProcess) : option SBThread :=
  List.find (fun t => th_id t =? tid) (pr_threads p).

Section Resume.
Context `{Runtime} `{Backend}.

(** Clears out cached state that become invalid once debuggee resumes. *)
Definition before_resume (s : Session) : Session :=
  emit VarRefsReset (with_var_refs (HandleTree.reset (var_refs s)) s).

(** Should we show source or disassembly for this frame? *)
Definition in_disassembly (fs : SBFileSpec) : M bool :=
  fun s =>
    match show_disassembly s with
    | ShowNever => (Ok false, s)
    | ShowAlways => (Ok true, s)
    | ShowAuto =>
        match map_filespec_to_local fs s with
        | (Ok r, s') => (Ok (match r with None => true | Some _ => false end), s')
        | (Raise e, s') => (Raise e, s')
        end
    end.

(** file of frame 0 of a thread that may be invalid *)
Definition frame0_filespec (thread : option SBThread) : SBFileSpec :=
  match thread with
  | Some t => fr_filespec (th_frame0 t)
  | None => invalid_filespec
  end.

Definition DEBUG_continue : M unit :=
  (act before_resume ;;;
   p <- gets process ;;
   match p with
   | None => no_process
   | Some _ =>
       act (emit ProcessContinue) ;;;
       match process_continue_error with
       | Some msg => raise (mkExn UserError msg)
       | None => ret tt
       end
   end)%M.

Definition DEBUG_next (threadId : Z) : M unit :=
  (act before_resume ;;;
   p <- gets process ;;
   match p with
   | None => no_process
   | Some p =>
       let thread := GetThreadByID threadId p in
       dis <- in_disassembly (frame0_filespec thread) ;;
       if negb dis then act (emit (ThreadStepOver threadId))
       else act (emit (ThreadStepInstruction threadId true))
   end)%M.

Definition DEBUG_stepIn (threadId : Z) : M unit :=
  (act before_resume ;;;
   p <- gets process ;;
   match p with
   | None => no_process
   | Some p =>
       let thread := GetThreadByID threadId p in
       dis <- in_disassembly (frame0_filespec thread) ;;
       if negb dis then act (emit (ThreadStepInto threadId))
       else act (emit (ThreadStepInstruction threadId false))
   end)%M.

Definition DEBUG_stepOut (threadId : Z) : M unit :=
  (act before_resume ;;;
   p <- gets process ;;
   match p with
   | None => no_process
   | Some _ => act (emit (ThreadStepOut threadId))
   end)%M.

Fixpoint reverse_exec (commands : list string) (s : Session) : Session :=
  match commands with
  | [] => s
  | command :: rest =>
      let s1 := emit (InterpHandleCommand command) s in
      let result := handle_command command in
      if negb (cr_succeeded result) then console_err (cr_error result) s1
      else reverse_exec rest s1
  end.

Definition DEBUG_stepBack (threadId : Z) : M unit :=
  (act (with_show_disassembly ShowAlways) ;;; (* Reverse line-step is not supported (yet?) *)
   act (reverse_exec
          ["process plugin packet send Hc" +:+ format_hex threadId; (* select thread *)
           "process plugin packet send bs";  (* reverse-step *)
           "process plugin packet send bs";  (* reverse-step - so we can forward step *)
           "stepi"]))%M.                     (* forward-step *)

Definition DEBUG_reverseContinue : M unit :=
  act (reverse_exec
         ["process plugin packet send bc";   (* reverse-continue *)
          "process plugin packet send bs";   (* reverse-step *)
          "stepi"]).                         (* forward-step *)

End Resume.

(** The requests that resume the inferior. *)
Inductive ResumeRequest :=
| ReqContinue
| ReqNext (threadId : Z)
| ReqStepIn (threadId : Z)
| ReqStepOut (threadId : Z)
| ReqStepBack (threadId : Z)
| ReqReverseContinue.

Definition resume_handler `{Runtime} `{Backend} (r : ResumeRequest) : M unit :=
  match r with
  | ReqContinue => DEBUG_continue
  | ReqNext t => DEBUG_next t
  | ReqStepIn t => DEBUG_stepIn t
  | ReqStepOut t => DEBUG_stepOut t
  | ReqStepBack t => DEBUG_stepBack t
  | ReqReverseContinue => DEBUG_reverseContinue
  end.

(** the calls that set the inferior running *)
Definition is_resume_call (e : Effect) : bool :=
  match e with
  | ProcessContinue | ThreadStepOver _ | ThreadStepInto _ | ThreadStepOut _
  | ThreadStepInstruction _ _ => true
  | InterpHandleCommand _ => true
  | _ => false
  end.

(** ** Event normalizer: stops *)

Definition has_stop_reason (t : SBThread) : bool :=
  match th_stop_reason t with
  | eStopReasonInvalid | eStopReasonNone => false
  | _ => true
  end.

(** The thread that caused the stop: the selected thread when it reports a
    stop reason, else the first thread of the process that does. *)
Definition find_stopped_thread (p : SBProcess) : option SBThread :=
  match pr_selected p with
  | Some thread => if has_stop_reason thread then Some thread
                   else List.find has_stop_reason (pr_threads p)
  | None => List.find has_stop_reason (pr_threads p)
  end.

Section Stops.
Context `{Runtime}.

(** Notify the client about target threads that started or exited since
    the last stop. *)
Definition update_threads (p : SBProcess) (s : Session) : Session :=
  let threads : gset Z := list_to_set (map th_id (pr_threads p)) in
  let started := threads ∖ known_threads s in
  let exited := known_threads s ∖ threads in
  let s1 := fold_left (fun s thread_id =>
              send_event "thread" [("threadId", JInt thread_id);
                                   ("reason", JStr "exited")] s)
              (elements exited) s in
  let s2 := fold_left (fun s thread_id =>
              send_event "thread" [("threadId", JInt thread_id);
                                   ("reason", JStr "started")] s)
              (elements started) s1 in
  with_known_threads threads s2.

(** The reason reported for a stop at a breakpoint. *)
Definition breakpoint_stop_reason (bp_id : Z) (s : Session) : string :=
  match breakpoints s !! bp_id with
  | Some bp_info => if exception_bp bp_info then "exception" else "breakpoint"
  | None => "breakpoint"
  end.

Definition notify_target_stopped : M unit :=
  fun s =>
    match process s with
    | None => no_process s
    | Some p =>
        let s1 := update_threads p s in
        let event := [("allThreadsStopped", JBool true)] in (* LLDB always stops all threads *)
        (* Find the thread that caused this stop *)
        let stopped_thread := find_stopped_thread p in
        let s2 :=
          match pr_selected p with
          | Some thread =>
              if has_stop_reason thread then s1
              else match stopped_thread with
                   | Some t => with_process (Some (mkProcess (Some t) (pr_threads p)))
                                 (emit (SetSelectedThread (th_id t)) s1)
                   | None => s1
                   end
          | None =>
              match stopped_thread with
              | Some t => with_process (Some (mkProcess (Some t) (pr_threads p)))
                            (emit (SetSelectedThread (th_id t)) s1)
              | None => s1
              end
          end in
        (* Analyze stop reason *)
        match stopped_thread with
        | Some thread =>
            let stop_reason := th_stop_reason thread in
            let '(stop_reason_str, event1, s3) :=
              match stop_reason with
              | eStopReasonBreakpoint =>
                  let bp_id := th_stop_data0 thread in
                  (breakpoint_stop_reason bp_id s2, event, s2)
              | eStopReasonTrace | eStopReasonPlanComplete =>
                  ("step", event, s2)
              | _ =>
                  (* Print stop details for these types *)
                  let str := match stop_reason with
                             | eStopReasonWatchpoint => "watchpoint"
                             | eStopReasonSignal => "signal"
                             | eStopReasonException => "exception"
                             | _ => "unknown"
                             end in
                  let description := th_stop_description thread in
                  (str,
                   dict_set "text" (JStr description) event,
                   console_msg ("Stop reason: " +:+ description) None s2)
              end in
            let event2 := dict_set "reason" (JStr stop_reason_str) event1 in
            let event3 := dict_set "threadId" (JInt (th_id thread)) event2 in
            (Ok tt, send_event "stopped" event3 s3)
        | None => (Ok tt, send_event "stopped" event s2)
        end
    end.

End Stops.


(** ** Variables request *)

Definition compose_eval_name `{Runtime} (container : option string) (var_name : string)
    : string :=
  match container with
  | None => escape_variable_name var_name
  | Some c =>
      if startswith "[" var_name then c +:+ var_name
      else c +:+ "." +:+ escape_variable_name var_name
  end.

(** An [OrderedDict] of variables by name. *)
Definition VarDict := list (string * Dict).

(** [del variables[name]] *)
Definition vars_del (name : string) (d : VarDict) : VarDict :=
  List.filter (fun kv => negb (String.eqb kv.1 name)) d.

Definition vars_has (name : string) (d : VarDict) : bool :=
  existsb (fun kv => String.eqb kv.1 name) d.

(** [variables[name] = variable] *)
Definition vars_set (name : string) (variable : Dict) (d : VarDict) : VarDict :=
  if vars_has name d
  then map (fun kv => if String.eqb kv.1 name then (kv.1, variable) else kv) d
  else d ++ [(name, variable)].

(** Reading a local variable of a Python function: it raises while the
    variable is unbound. *)
Definition read_local {A} (name : string) (v : option A) : M A :=
  match v with
  | Some a => ret a
  | None => raise (mkExn UnboundLocalError
                     ("local variable '" +:+ name +:+ "' referenced before assignment"))
  end.

Section Variables.
Context `{Runtime} `{Backend}.

(** the value an invalid thread hands out *)
Definition invalid_value : SBValue :=
  mkValue false None EmptyString false 0 (fun _ => None) None 0 false eValueTypeOther.

(** [frame.GetThread().GetStopReturnValue()] *)
Definition stop_return_value (frame : SBFrame) (s : Session) : SBValue :=
  match process s with
  | Some p =>
      match GetThreadByID (fr_thread frame) p with
      | Some t => th_stop_return_value t
      | None => invalid_value
      end
  | None => invalid_value
  end.

(** One round of the loop [for var in vars_iter] of [DEBUG_variables]. *)
Definition add_variable (container_handle : Z) (container_name : option string)
    (var : SBValue) (st : VarDict * Session) : VarDict * Session :=
  let '(variables, s) := st in
  match sv_name var with
  | None => (variables, s) (* junk entries with empty names and values *)
  | Some name =>
      let dtype := sv_type_name var in
      let '(handle, s1) := get_var_handle var name (Some container_handle) s in
      let value := get_var_value_not_null var (global_format s1)
                     (negb (handle =? 0)) s1 in
      let variable := [("name", JStr name); ("value", JStr value);
                       ("type", JStr dtype); ("variablesReference", JInt handle);
                       ("evaluateName", JStr (compose_eval_name container_name name))] in
      (* Ensure proper variable shadowing *)
      let variables1 := if vars_has name variables then vars_del name variables
                        else variables in
      (vars_set name variable variables1, s1)
  end.

(** the name of a path segment; the frame's key is a tuple *)
Definition segment_name (k : HKey) : M string :=
  match k with
  | KName n => ret n
  | KFrame _ _ =>
      raise (mkExn AttributeError "'tuple' object has no attribute 'startswith'")
  end.

Fixpoint compose_segments (container_name : option string) (segments : list HKey)
    : M (option string) :=
  match segments with
  | [] => ret container_name
  | seg :: rest =>
      bind (segment_name seg) (fun n =>
        compose_segments (Some (compose_eval_name container_name n)) rest)
  end.

Definition DEBUG_variables (variablesReference : Z) : M (option Dict) :=
  let container_handle := variablesReference in
  (container_info <- gets (fun s => HandleTree.get_vpath container_handle (var_refs s)) ;;
   match container_info with
   | None =>
       act (emit (Log LError ("Invalid variables reference: " +:+ pretty container_handle))) ;;;
       ret None
   | Some (container, container_vpath) =>
       let container_name : option string := None in
       let variables : VarDict := [] in
       (* the loop variable of the function, not bound yet *)
       let var : option SBValue := None in
       prepared <-
         match container with
         | HLocalsScope frame =>
             (* args, locals, statics, in_scope_only *)
             let vars_iter := fr_locals frame in
             (* Check if we have a return value from the last called function *)
             ret_val <- gets (stop_return_value frame) ;;
             if sv_valid ret_val then
               let name := "[return value]" in
               v <- read_local "var" var ;;
               let dtype := sv_type_name v in
               handle <- (fun s => let '(h, s') := get_var_handle v name
                                                    (Some container_handle) s in
                                   (Ok h, s')) ;;
               value <- gets (fun s =>
                          get_var_value_not_null ret_val (global_format s)
                            (negb (handle =? 0)) s) ;;
               let variable := [("name", JStr name); ("value", JStr value);
                                ("type", JStr dtype);
                                ("variablesReference", JInt handle)] in
               ret (Some vars_iter, container_name, vars_set name variable variables)
             else ret (Some vars_iter, container_name, variables)
         | HStaticsScope frame =>
             ret (Some (List.filter
                          (fun v => match sv_value_type v with
                                    | eValueTypeVariableStatic => true
                                    | _ => false end)
                          (fr_statics frame)), container_name, variables)
         | HGlobalsScope frame =>
             ret (Some (List.filter
                          (fun v => match sv_value_type v with
                                    | eValueTypeVariableStatic => false
                                    | _ => true end)
                          (fr_statics frame)), container_name, variables)
         | HRegistersScope frame =>
             ret (Some (fr_registers frame), container_name, variables)
         | HValue container =>
             container_name <-
               match sv_value_type container with
               | eValueTypeRegisterSet => ret container_name
               | _ =>
                   (* First element in vpath is the stack frame, second - the scope object. *)
                   compose_segments container_name (drop 2 container_vpath)
               end ;;
             ret (Some (value_children container), container_name, variables)
         | HFrame _ => ret (None, container_name, variables)
         end ;;
       let '(vars_iter, container_name, variables) := prepared in
       vars_iter <- read_local "vars_iter" vars_iter ;;
       variables <- (fun s =>
                       let '(vs, s') := fold_left
                            (fun st var => add_variable container_handle container_name var st)
                            vars_iter (variables, s) in
                       (Ok vs, s')) ;;
       let variables := map (fun kv => JObj kv.2) variables in
       (* If this node was synthetic, append [raw] pseudo-child *)
       variables <-
         match container with
         | HValue container =>
             if sv_is_synthetic container then
               handle <- (fun s =>
                            let '(h, t) := HandleTree.create
                                 (HValue (non_synthetic_value container))
                                 (KName "[raw]") (Some container_handle) (var_refs s) in
                            (Ok h, with_var_refs t s)) ;;
               ret (variables ++ [JObj [("name", JStr "[raw]");
                                        ("value", JStr (sv_type_name container));
                                        ("variablesReference", JInt handle)]])
             else ret variables
         | _ => ret variables
         end ;;
       ret (Some [("variables", JArr variables)])
   end)%M.

End Variables.


(** ** Expression dispatcher *)

(** [process.GetSelectedThread().GetSelectedFrame()]; without a valid
    selected thread the frame is invalid. *)
Definition invalid_frame : SBFrame := mkFrame 0 0 invalid_filespec [] [] [].

Definition selected_frame (p : SBProcess) : SBFrame :=
  match pr_selected p with
  | Some t => th_frame0 t
  | None => invalid_frame
  end.

(** Selects a frame in LLDB context. *)
Definition set_selected_frame (frame : SBFrame) (s : Session) : Session :=
  let s1 := emit (SetSelectedThread (fr_thread frame)) s in
  match process s1 with
  | Some p =>
      match GetThreadByID (fr_thread frame) p with
      | Some t => with_process (Some (mkProcess (Some t) (pr_threads p))) s1
      | None => s1
      end
  | None => s1
  end.

(** [expressions.Value.unwrap(result)] *)
Definition unwrap (result : PyObj) : PyObj :=
  match result with
  | ObjValue v => ObjSBValue v
  | other => other
  end.

(** [str(result)] of a value that is not an SBValue *)
Definition str_of (result : PyObj) : string :=
  match result with
  | ObjOther repr => repr
  | ObjSBError msg => "error: " +:+ msg
  | ObjSBValue v | ObjValue v => default "No value" (sv_value v eFormatDefault)
  end.

Definition format_codes : list (string * Format) :=
  [(",h", eFormatHex);
   (",x", eFormatHex);
   (",o", eFormatOctal);
   (",d", eFormatDecimal);
   (",b", eFormatBinary);
   (",f", eFormatFloat);
   (",p", eFormatPointer);
   (",u", eFormatUnsigned);
   (",s", eFormatCString);
   (",y", eFormatBytes);
   (",Y", eFormatBytesWithASCII)].

(** The loop of [evaluate_expr] that parses the format suffix, if any:
    the format and the expression left. *)
Fixpoint parse_format_suffix (codes : list (string * Format)) (format : Format)
    (expr : string) : Format * string :=
  match codes with
  | [] => (format, expr)
  | (suffix, fmt) :: rest =>
      if endswith suffix expr
      then (fmt, slice_to_minus (String.length suffix) expr)
      else parse_format_suffix rest format expr
  end.

(** The Python class of an object that [var_refs.get] hands out. *)
Definition class_name (o : HObject) : string :=
  match o with
  | HFrame _ => "SBFrame"
  | HLocalsScope _ => "LocalsScope"
  | HStaticsScope _ => "StaticsScope"
  | HGlobalsScope _ => "GlobalsScope"
  | HRegistersScope _ => "RegistersScope"
  | HValue _ => "SBValue"
  end.

(** The exception of a method call on an object whose class has no such
    method: the scope markers have the attribute [frame] and nothing else. *)
Definition no_attribute (o : HObject) (attr : string) : Exn :=
  mkExn AttributeError
    ("'" +:+ class_name o +:+ "' object has no attribute '" +:+ attr +:+ "'").

(** What the collaborators do when the context of an evaluation is no
    stack frame: [var_refs.get] hands out scope markers and values as well
    as frames, and [DEBUG_evaluate] and [evaluate_expr] pass on whatever
    they get for the frame id. *)
Class Contexts := {
  (** [value.EvaluateExpression(expr)] on an SBValue: the result, the error
      of the result, or the exception of the call *)
  value_evaluate_expression : SBValue -> string -> Exc (SBValue + string);
  (** the calls of [set_selected_frame] on an SBValue: the id of the thread
      it selects, or the exception of the first call that fails *)
  value_set_selected : SBValue -> Exc Z;
  (** [eval] of preprocessed code with [PyEvalContext(object)] for an object
      that is no frame *)
  context_py_eval : EvalSite -> string -> HObject -> Exc PyObj
}.

(** [args.get('context')]: ['watch'], ['hover'], ['repl'], absent, or any
    other string. *)
Inductive EvalContext := CtxWatch | CtxHover | CtxRepl | CtxNone | CtxOther.

Record EvaluateArgs := mkEvaluateArgs {
  ev_expression : string;          (* args['expression'] *)
  ev_context : EvalContext;        (* args.get('context') *)
  ev_frameId : option Z            (* args.get('frameId') *)
}.

Section Expressions.
Context `{Runtime} `{Backend} `{Contexts}.

(** Classify expression by evaluator type *)
Definition get_expression_type (expr : string) (s : Session) : ExprType * string :=
  if startswith "/nat " expr then (NATIVE, slice_from 5 expr)
  else if startswith "/py " expr then (PYTHON, slice_from 4 expr)
  else if startswith "/se " expr then (SIMPLE, slice_from 4 expr)
  else (expressions (launch_args s), expr).

(** Evaluates expr in the context of frame (or in global context if frame
    is None).  Returns a value on success, an [ObjSBError] on failure. *)
Definition evaluate_expr_in_frame (expr : string) (frame : option SBFrame)
    : M PyObj :=
  fun s =>
    let '(ty, expr) := get_expression_type expr s in
    match ty with
    | NATIVE =>
        match evaluate_expression frame (to_lldb_str expr) with
        | inl result => (Ok (ObjSBValue result), s)
        | inr error => (Ok (ObjSBError error), s)
        end
    | _ =>
        match (match frame with
               | Some f => Some f
               | None => selected_frame <$> process s (* Use the currently selected frame *)
               end) with
        | None => no_process s
        | Some frame =>
            let prepared :=
              match ty with
              | PYTHON =>
                  match preprocess_python_expr expr with
                  | Ok e => (Ok (ExprPython, e), set_selected_frame frame s)
                  | Raise x => (Raise x, s)
                  end
              | _ => (* SIMPLE *)
                  match preprocess_simple_expr expr with
                  | Ok e => (Ok (ExprSimple, e),
                             emit (Log LInfo ("Preprocessed expr: " +:+ e)) s)
                  | Raise x => (Raise x, s)
                  end
              end in
            match prepared with
            | (Raise x, s1) => (Raise x, s1)
            | (Ok (site, e), s1) =>
                let s2 := emit (Log LInfo ("Evaluating " +:+ e)) s1 in
                match py_eval site e frame with
                | Ok result => (Ok result, s2)
                | Raise x =>
                    (Ok (ObjSBError (to_lldb_str (exn_msg x))),
                     emit (Log LInfo ("Evaluation error: " +:+ format_exc x)) s2)
                end
            end
        end
    end.

(** [process.SetSelectedThread(thread)] for the thread with the given id,
    as [set_selected_frame] does it for the thread of a frame. *)
Definition select_thread (thread_id : Z) (s : Session) : Session :=
  let s1 := emit (SetSelectedThread thread_id) s in
  match process s1 with
  | Some p =>
      match GetThreadByID thread_id p with
      | Some t => with_process (Some (mkProcess (Some t) (pr_threads p))) s1
      | None => s1
      end
  | None => s1
  end.

(** [set_selected_frame(frame)] with the object a frame id resolves to:
    [frame.GetThread()] is the first call made on it. *)
Definition set_selected_object (o : HObject) : M unit :=
  match o with
  | HFrame f => act (set_selected_frame f)
  | HValue v =>
      match value_set_selected v with
      | Ok thread_id => act (select_thread thread_id)
      | Raise x => raise x
      end
  | _ => raise (no_attribute o "GetThread")
  end.

(** The [try: eval(...) except Exception] of [evaluate_expr_in_frame], for
    a context that is no frame. *)
Definition eval_in_object (site : EvalSite) (e : string) (o : HObject) : M PyObj :=
  fun s =>
    let s2 := emit (Log LInfo ("Evaluating " +:+ e)) s in
    match context_py_eval site e o with
    | Ok result => (Ok result, s2)
    | Raise x =>
        (Ok (ObjSBError (to_lldb_str (exn_msg x))),
         emit (Log LInfo ("Evaluation error: " +:+ format_exc x)) s2)
    end.

(** [evaluate_expr_in_frame(expr, frame)] with the object a frame id
    resolves to, which is passed on as it is: a frame, no object at all, or
    a scope marker or a value, on which the same statements run. *)
Definition evaluate_expr_in_object (expr : string) (o : option HObject)
    : M PyObj :=
  match o with
  | None => evaluate_expr_in_frame expr None
  | Some (HFrame f) => evaluate_expr_in_frame expr (Some f)
  | Some o =>
      fun s =>
        let '(ty, expr) := get_expression_type expr s in
        match ty with
        | NATIVE =>
            match o with
            | HValue v =>
                match value_evaluate_expression v (to_lldb_str expr) with
                | Ok (inl result) => (Ok (ObjSBValue result), s)
                | Ok (inr error) => (Ok (ObjSBError error), s)
                | Raise x => (Raise x, s)
                end
            | _ => (Raise (no_attribute o "EvaluateExpression"), s)
            end
        | PYTHON =>
            match preprocess_python_expr expr with
            | Raise x => (Raise x, s)
            | Ok e =>
                match set_selected_object o s with
                | (Raise x, s1) => (Raise x, s1)
                | (Ok _, s1) => eval_in_object ExprPython e o s1
                end
            end
        | SIMPLE =>
            match preprocess_simple_expr expr with
            | Raise x => (Raise x, s)
            | Ok e =>
                eval_in_object ExprSimple e o
                  (emit (Log LInfo ("Preprocessed expr: " +:+ e)) s)
            end
        end
  end.

(** (In ['hover'] context the source also silences [sys.stderr] during
    the evaluation; that stream is outside the model.) *)
Definition evaluate_expr (args : EvaluateArgs) (expr : string) : M (option Dict) :=
  (let frame_id := ev_frameId args in
   (* parse format suffix, if any *)
   global <- gets global_format ;;
   let '(format, expr) := parse_format_suffix format_codes global expr in
   let context := ev_context args in
   frame <- gets (fun s => HandleTree.get frame_id (var_refs s)) ;;
   result <- evaluate_expr_in_object expr frame ;;
   match result with
   | ObjSBError error_message => (* Evaluation error *)
       match context with
       | CtxRepl => act (console_err error_message) ;;; ret None
       | _ => raise (mkExn UserError (replace_char newline "; " error_message))
       end
   | _ =>
       (* Success *)
       match unwrap result with
       | ObjSBValue result =>
           let dtype := sv_type_name result in
           handle <- (fun s => let '(h, s') := get_var_handle result expr None s in
                               (Ok h, s')) ;;
           value <- gets (get_var_value_not_null result format (negb (handle =? 0))) ;;
           ret (Some [("result", JStr value); ("type", JStr dtype);
                      ("variablesReference", JInt handle)])
       | other => (* Some Python value *)
           ret (Some [("result", JStr (str_of other)); ("variablesReference", JInt 0)])
       end
   end)%M.

(** Runs a debugger command in the context of a frame.  (A command of
    several lines goes to the interpreter through a temporary file.) *)
Definition execute_command_in_frame (command : string) (frame : option SBFrame)
    (s : Session) : CommandResult * Session :=
  let s1 := match frame with
            | Some f => set_selected_frame f s
            | None => s
            end in
  (handle_command (to_lldb_str command),
   emit (InterpHandleCommand (to_lldb_str command)) s1).

(** [execute_command_in_frame(command, frame)] with the object a frame id
    resolves to. *)
Definition execute_command_in_object (command : string) (o : option HObject)
    : M CommandResult :=
  match o with
  | None =>
      fun s => let '(r, s') := execute_command_in_frame command None s in (Ok r, s')
  | Some (HFrame f) =>
      fun s => let '(r, s') := execute_command_in_frame command (Some f) s in
               (Ok r, s')
  | Some o =>
      (set_selected_object o ;;;
       fun s => let '(r, s') := execute_command_in_frame command None s in
                (Ok r, s'))%M
  end.

Definition DEBUG_evaluate (args : EvaluateArgs) : M (option Dict) :=
  (p <- gets process ;;
   match p with
   | None => (* Sometimes VSCode sends 'evaluate' before launching a process... *)
       act (emit (Log LError "evaluate without a process")) ;;;
       ret (Some [("result", JStr EmptyString)])
   | Some _ =>
       let context := ev_context args in
       let expr := ev_expression args in
       match context with
       | CtxWatch | CtxHover | CtxNone => evaluate_expr args expr
       | CtxRepl | CtxOther =>
           if startswith "?" expr (* "?<expr>" in 'repl' context *)
           then evaluate_expr args (slice_from 1 expr)
           else
             (* Else evaluate as debugger command *)
             frame <- gets (fun s => HandleTree.get (ev_frameId args) (var_refs s)) ;;
             result <- execute_command_in_object expr frame ;;
             let output := if cr_succeeded result then cr_output result
                           else cr_error result in
             ret (Some [("result", JStr (from_lldb_str output))])
       end
   end)%M.

End Expressions.


(** ** Breakpoint registry: conditions and stop evaluation *)

(** One entry of the [breakpoints] list of a setBreakpoints request. *)
Record SourceBreakpoint := mkSourceBreakpoint {
  sb_line : Z;                      (* req['line'] *)
  sb_condition : option string;     (* req.get('condition', None) *)
  sb_hitCondition : option string;  (* req.get('hitCondition', None) *)
  sb_logMessage : option string     (* req.get('logMessage', None) *)
}.

(** Calls on a backend breakpoint; a stale id changes nothing. *)
Definition bp_SetCondition (bp_id : Z) (cond : option string) (s : Session) : Session :=
  let t := target s in
  emit (BpSetCondition bp_id cond)
    (with_target
       (mkTarget (alter (fun b => mkBp (bp_locations b) cond (bp_ignore_count b)
                                    (bp_callback b)) bp_id (tg_breakpoints t))
          (tg_next_id t)) s).

Definition bp_SetIgnoreCount (bp_id : Z) (n : Z) (s : Session) : Session :=
  let t := target s in
  emit (BpSetIgnoreCount bp_id n)
    (with_target
       (mkTarget (alter (fun b => mkBp (bp_locations b) (bp_condition b) n
                                    (bp_callback b)) bp_id (tg_breakpoints t))
          (tg_next_id t)) s).

Definition bp_SetScriptCallbackFunction (bp_id : Z) (fn : string) (s : Session)
    : Session :=
  let t := target s in
  emit (BpSetScriptCallbackFunction bp_id fn)
    (with_target
       (mkTarget (alter (fun b => mkBp (bp_locations b) (bp_condition b)
                                    (bp_ignore_count b) (Some fn))
                    bp_id (tg_breakpoints t))
          (tg_next_id t)) s).

(** Truth value of [bp_info.condition or bp_info.ignore_count]. *)
Definition has_condition_or_count (bp_info : BreakpointInfo) : bool :=
  match condition bp_info with Some _ => true | None => false end
  || negb (ignore_count bp_info =? 0).

Definition info_with_condition (c : option CondEvaluator) (i : BreakpointInfo)
    : BreakpointInfo :=
  mkInfo (bi_id i) (exception_bp i) c (ignore_count i) (log_message i)
    (address i) (adapter_data i).

Definition info_with_ignore_count (n : Z) (i : BreakpointInfo) : BreakpointInfo :=
  mkInfo (bi_id i) (exception_bp i) (condition i) n (log_message i)
    (address i) (adapter_data i).

Definition info_with_log_message (m : option string) (i : BreakpointInfo)
    : BreakpointInfo :=
  mkInfo (bi_id i) (exception_bp i) (condition i) (ignore_count i) m
    (address i) (adapter_data i).

(** A field assignment on the [BreakpointInfo] object registered under an id. *)
Definition update_info (bp_id : Z) (f : BreakpointInfo -> BreakpointInfo)
    (s : Session) : Session :=
  with_breakpoints (alter f bp_id (breakpoints s)) s.

Section Conditions.
Context `{Runtime} `{Backend}.

(** Compiles a python expression into a breakpoint condition evaluator *)
Definition make_python_expression_bpcond (cond : string) : M (option CondEvaluator) :=
  fun s =>
    match preprocess_python_expr cond with
    | Raise x => (Raise x, s)
    | Ok pp_cond =>
        (* Try compiling as expression first, if that fails, compile as a statement. *)
        let outcome : Exn + bool :=
          match py_compile pp_cond ModeEval with
          | None => inr true
          | Some e =>
              if is_syntax_error e then
                match py_compile pp_cond ModeExec with
                | None => inr false
                | Some e' => inl e'
                end
              else inl e
          end in
        match outcome with
        | inl error =>
            (Ok None,
             console_err ("Could not set breakpoint condition " +:+ quoted cond
                          +:+ ": " +:+ exn_msg error) s)
        | inr is_expression => (Ok (Some (PythonCond pp_cond is_expression)), s)
        end
    end.

(** Compiles a simple expression into a breakpoint condition evaluator *)
Definition make_simple_expression_bpcond (cond : string) : M (option CondEvaluator) :=
  fun s =>
    match preprocess_simple_expr cond with
    | Raise x => (Raise x, s)
    | Ok pp_cond =>
        match py_compile pp_cond ModeEval with
        | Some e =>
            (Ok None,
             console_err ("Could not set breakpoint condition " +:+ quoted cond
                          +:+ ": " +:+ exn_msg e) s)
        | None => (Ok (Some (SimpleCond pp_cond)), s)
        end
    end.

(** Calling a compiled condition on a hit: the truth value of what the
    closure returns. *)
Definition eval_condition (c : CondEvaluator) (frame : SBFrame) : M bool :=
  fun s =>
    match c with
    | PythonCond pycode is_expression =>
        let s1 := set_selected_frame frame s in
        match py_eval CondPython pycode frame with
        | Raise x => (Raise x, s1)
        | Ok result =>
            (* Unconditionally continue execution if 'cond' is a statement *)
            (Ok (if is_expression then py_truth result else false), s1)
        end
    | SimpleCond pycode =>
        match py_eval CondSimple pycode frame with
        | Raise x => (Raise x, s)
        | Ok result => (Ok (py_truth result), s)
        end
    end.

(** Sets up breakpoint stopping condition *)
Definition set_bp_condition (bp_id : Z) (req : SourceBreakpoint) : M unit :=
  (found <- gets (fun s => breakpoints s !! bp_id) ;;
   match found with
   | None => raise (mkExn KeyError (pretty bp_id))
   | Some bp_info =>
       (if has_condition_or_count bp_info then
          act (update_info bp_id (info_with_condition None)) ;;;
          act (update_info bp_id (info_with_ignore_count 0)) ;;;
          act (bp_SetCondition bp_id None) ;;;
          (* Ain't no way to completely unset a breakpoint callback,
             but this will do the least amount of work. *)
          act (bp_SetScriptCallbackFunction bp_id EmptyString)
        else ret tt) ;;;
       let cond := to_lldb_str <$> sb_condition req in
       (if opt_str_truthy cond then
          tc <- gets (get_expression_type (default EmptyString cond)) ;;
          let '(ty, cond) := tc in
          match ty with
          | NATIVE => act (bp_SetCondition bp_id (Some cond))
          | PYTHON =>
              eval_condition <- make_python_expression_bpcond cond ;;
              match eval_condition with
              | Some c => act (update_info bp_id (info_with_condition (Some c)))
              | None => ret tt
              end
          | SIMPLE =>
              eval_condition <- make_simple_expression_bpcond cond ;;
              match eval_condition with
              | Some c => act (update_info bp_id (info_with_condition (Some c)))
              | None => ret tt
              end
          end
        else ret tt) ;;;
       let ignore_count_str := sb_hitCondition req in
       (if opt_str_truthy ignore_count_str then
          match parse_int (default EmptyString ignore_count_str) with
          | Some n =>
              act (update_info bp_id (info_with_ignore_count n)) ;;;
              act (bp_SetIgnoreCount bp_id n)
          | None =>
              act (console_err ("Could not parse ignore count as integer: "
                                +:+ default EmptyString ignore_count_str))
          end
        else ret tt) ;;;
       act (update_info bp_id (info_with_log_message (sb_logMessage req))) ;;;
       now <- gets (fun s => breakpoints s !! bp_id) ;;
       match now with
       | Some bp_info =>
           if has_condition_or_count bp_info || opt_str_truthy (log_message bp_info)
           then act (bp_SetScriptCallbackFunction bp_id
                       "adapter.debugsession.on_breakpoint_hit")
           else ret tt
       | None => ret tt
       end
   end)%M.

(** [replacer] of [should_stop_on_bp]: the text put in place of one
    [{expr}] placeholder. *)
Definition replacer (frame : SBFrame) (expr : string) : M string :=
  (result <- evaluate_expr_in_frame expr (Some frame) ;;
   match unwrap result with
   | ObjSBValue result =>
       let is_container := 0 <? sv_num_children result in
       gets (fun s => get_var_value_not_null result (global_format s) is_container s)
   | other => ret (str_of other)
   end)%M.

(** [substitution_regex.sub(replacer, message)], piece by piece *)
Fixpoint substitute (frame : SBFrame) (pieces : list (string + string)) : M string :=
  match pieces with
  | [] => ret EmptyString
  | inl text :: rest =>
      bind (substitute frame rest) (fun tail => ret (text +:+ tail))
  | inr expr :: rest =>
      bind (replacer frame expr) (fun strvalue =>
        bind (substitute frame rest) (fun tail => ret (strvalue +:+ tail)))
  end.

Definition should_stop_on_bp (bp_id : Z) (frame : SBFrame) (s : Session)
    : bool * Session :=
  match breakpoints s !! bp_id with
  | None => (true, s) (* Something's wrong... just stop *)
  | Some bp_info =>
      let s1 := if negb (ignore_count bp_info =? 0)
                then bp_SetIgnoreCount bp_id (ignore_count bp_info) s
                     (* Reset ignore count after each stop *)
                else s in
      (* Evaluate condition if we have one *)
      let checked : Exc bool * Session :=
        match condition bp_info with
        | Some c => eval_condition c frame s1
        | None => (Ok true, s1)
        end in
      match checked with
      | (Raise e, s2) =>
          (true, console_err ("Could not evaluate breakpoint condition: "
                              +:+ format_exc e) s2)
      | (Ok false, s2) => (false, s2)
      | (Ok true, s2) =>
          (* If we are supposed to stop and there's a log message, evaluate
             and print the message but don't stop. *)
          match log_message bp_info with
          | Some template =>
              if str_truthy template then
                match substitute frame (split_placeholders template) s2 with
                | (Ok message, s3) => (false, console_msg message None s3)
                | (Raise e, s3) =>
                    (true, console_err ("Could not evaluate breakpoint log message: "
                                        +:+ format_exc e) s3)
                end
              else (true, s2)
          | None => (true, s2)
          end
      end
  end.

(** [on_breakpoint_hit], the callback the backend runs on a hit *)
Definition on_breakpoint_hit (frame : SBFrame) (bp_id : Z) (s : Session)
    : bool * Session :=
  should_stop_on_bp bp_id frame s.

End Conditions.


(** ** Breakpoint registry: line breakpoints of a source file *)

(** The arguments of a setBreakpoints request on a regular source file:
    [source] has a [path] and neither a [sourceReference] nor [adapterData]
    (those designate disassembly views, which go through
    [set_dasm_breakpoints]). *)
Record SetBreakpointsArgs := mkSetBreakpointsArgs {
  sbp_path : string;                         (* args['source']['path'] *)
  sbp_breakpoints : list SourceBreakpoint    (* args['breakpoints'] *)
}.

(** [self.line_breakpoints[file_id]], once [setdefault] made it exist *)
Definition file_bps_of (file_id : string) (s : Session) : gmap Z Z :=
  default ∅ (line_breakpoints s !! file_id).

Definition set_file_bps (file_id : string) (file_bps : gmap Z Z) (s : Session)
    : Session :=
  with_line_breakpoints (<[file_id := file_bps]> (line_breakpoints s)) s.

(** [self.target.BreakpointDelete(bp_id)] *)
Definition target_BreakpointDelete (bp_id : Z) (s : Session) : Session :=
  let t := target s in
  emit (BreakpointDelete bp_id)
    (with_target (mkTarget (delete bp_id (tg_breakpoints t)) (tg_next_id t)) s).

(** [loc.SetEnabled(enabled)] on location [index] of a breakpoint *)
Definition loc_SetEnabled (bp_id : Z) (index : nat) (enabled : bool) (s : Session)
    : Session :=
  let t := target s in
  emit (LocSetEnabled bp_id index enabled)
    (with_target
       (mkTarget
          (alter (fun b =>
                    mkBp (alter (fun l => mkLoc (loc_filespec l) (loc_line l) enabled)
                            index (bp_locations b))
                      (bp_condition b) (bp_ignore_count b) (bp_callback b))
             bp_id (tg_breakpoints t))
          (tg_next_id t)) s).

(** [bp_id = file_bps.get(line, None)] as the test [if bp_id:] sees it:
    a missing entry and the id 0 are both falsy. *)
Definition truthy_id (found : option Z) : option Z :=
  match found with
  | Some bp_id => if negb (bp_id =? 0) then Some bp_id else None
  | None => None
  end.

Section LineBreakpoints.
Context `{Runtime} `{Backend}.

Definition same_path (path1 path2 : string) : bool :=
  String.eqb (normcase (normpath path1)) (normcase (normpath path2)).

(** [self.target.BreakpointCreateByLocation(file_name, line)]: the id of
    the new breakpoint *)
Definition target_BreakpointCreateByLocation (file_name : string) (line : Z)
    : M Z :=
  fun s =>
    let t := target s in
    let bp_id := tg_next_id t in
    let bp := mkBp (resolve_locations file_name line) None 0 None in
    (Ok bp_id,
     emit (BreakpointCreateByLocation file_name line bp_id)
       (with_target (mkTarget (<[bp_id := bp]> (tg_breakpoints t)) (bp_id + 1)) s)).

(** One round of the loop [for loc in bp] over the resolved locations of a
    new breakpoint. *)
Definition check_location (file_path : string) (bp_id : Z)
    (indexed_loc : nat * SBBreakpointLocation) (bp_resp : Dict) : M Dict :=
  (let '(index, loc) := indexed_loc in
   let fs := loc_filespec loc in
   bp_local_path <- map_filespec_to_local fs ;;
   match bp_local_path with
   | Some local_path =>
       if same_path local_path file_path then
         ret (dict_set "verified" (JBool true)
                (dict_set "line" (JInt (loc_line loc))
                   (dict_set "source"
                      (JObj [("name", opt_json (fs_filename fs));
                             ("path", JStr local_path)]) bp_resp)))
       else act (loc_SetEnabled bp_id index false) ;;; ret bp_resp
   | None => act (loc_SetEnabled bp_id index false) ;;; ret bp_resp
   end)%M.

Fixpoint check_locations (file_path : string) (bp_id : Z)
    (locs : list (nat * SBBreakpointLocation)) (bp_resp : Dict) : M Dict :=
  match locs with
  | [] => ret bp_resp
  | l :: rest =>
      bind (check_location file_path bp_id l bp_resp)
        (fun bp_resp' => check_locations file_path bp_id rest bp_resp')
  end.

(** One round of the loop [for req in req_bps] of [set_source_breakpoints];
    [file_id] names the index [file_bps] that the loop updates. *)
Definition set_source_breakpoint (file_id : string) (file_path : string)
    (req : SourceBreakpoint) : M Json :=
  (let file_name := basename file_path in
   let line := sb_line req in
   found <- gets (fun s => file_bps_of file_id s !! line) ;;
   created <-
     match truthy_id found with
     | Some bp_id => (* Existing breakpoint *)
         ret (bp_id, [("id", JInt bp_id); ("verified", JBool true)])
     | None => (* New breakpoint *)
         bp_id <- target_BreakpointCreateByLocation (to_lldb_str file_name) line ;;
         act (fun s => with_breakpoints
                         (<[bp_id := new_BreakpointInfo bp_id]> (breakpoints s)) s) ;;;
         bp_resp <- check_locations file_path bp_id
                      (imap (fun i l => (i, l))
                         (resolve_locations (to_lldb_str file_name) line))
                      [("id", JInt bp_id)] ;;
         ret (bp_id, bp_resp)
     end ;;
   let '(bp_id, bp_resp) := created in
   set_bp_condition bp_id req ;;;
   act (fun s => set_file_bps file_id (<[line := bp_id]> (file_bps_of file_id s)) s) ;;;
   ret (JObj bp_resp))%M.

Fixpoint set_source_breakpoints (file_id : string) (req_bps : list SourceBreakpoint)
    (file_path : string) : M (list Json) :=
  match req_bps with
  | [] => ret []
  | req :: rest =>
      bind (set_source_breakpoint file_id file_path req) (fun bp_resp =>
        bind (set_source_breakpoints file_id rest file_path) (fun result =>
          ret (bp_resp :: result)))
  end.

(** One round of the loop that clears the existing breakpoints that were
    removed from the request. *)
Definition clear_removed (file_id : string) (req_bp_lines : list Z)
    (item : Z * Z) : M unit :=
  (let '(line, bp_id) := item in
   if bool_decide (line ∈ req_bp_lines) then ret tt
   else
     act (target_BreakpointDelete bp_id) ;;;
     act (fun s => set_file_bps file_id (delete line (file_bps_of file_id s)) s) ;;;
     known <- gets (fun s => breakpoints s !! bp_id) ;;
     match known with
     | Some _ => act (fun s => with_breakpoints (delete bp_id (breakpoints s)) s)
     | None => raise (mkExn KeyError (pretty bp_id))
     end)%M.

Definition DEBUG_setBreakpoints (args : SetBreakpointsArgs) : M (option Dict) :=
  (no_debug <- gets (fun s => noDebug (launch_args s)) ;;
   if no_debug then ret None
   else
     try_finally
       (act (emit DisableBpEvents) ;;;
        let req_bps := sbp_breakpoints args in
        let req_bp_lines := map sb_line req_bps in
        let file_id := normcase (from_lldb_str (sbp_path args)) in
        (* Existing breakpoints indexed by line number. *)
        act (fun s => set_file_bps file_id (file_bps_of file_id s) s) ;;;
        file_bps <- gets (file_bps_of file_id) ;;
        (* Clear existing breakpoints that were removed *)
        for_each (clear_removed file_id req_bp_lines) (map_to_list file_bps) ;;;
        (* Added or updated breakpoints *)
        result <- set_source_breakpoints file_id req_bps file_id ;;
        ret (Some [("breakpoints", JArr result)]))
       (emit EnableBpEvents))%M.

End LineBreakpoints.


(** ** Vocabulary of the statements *)

Definition is_stopped_event (e : Effect) : Prop :=
  match e with Send (MEvent "stopped" _) => True | _ => False end.

(** an ['output'] event *)
Definition is_output_event (e : Effect) : bool :=
  match e with Send (MEvent "output" _) => true | _ => false end.

(** The console output event for a text, as [console_msg] and
    [console_err] send it. *)
Definition console_event `{Runtime} (category : option string) (text : string) : Effect :=
  Send (MEvent "output" [("category", opt_json category);
                         ("output", JStr (from_lldb_str text +:+ nl))]).


(** The state in which the condition of a hit breakpoint is evaluated:
    the ignore count, if any, was armed again. *)
Definition rearmed (bp_id : Z) (bp_info : BreakpointInfo) (s : Session) : Session :=
  if negb (ignore_count bp_info =? 0)
  then bp_SetIgnoreCount bp_id (ignore_count bp_info) s
  else s.

(** The breakpoint has no condition, or its condition evaluates to true
    (leaving the session in [s2]). *)
Definition condition_passes `{Runtime} (bp_info : BreakpointInfo) (frame : SBFrame)
    (s1 s2 : Session) : Prop :=
  (condition bp_info = None ∧ s2 = s1)
  ∨ ∃ c, condition bp_info = Some c ∧ eval_condition c frame s1 = (Ok true, s2).


(** The expression an evaluate request evaluates, when it is not run as a
    debugger command: in ['watch'] and ['hover'] context, or without
    context, the expression itself; in any other context the text after a
    leading [?]. *)
Definition expression_to_evaluate (args : EvaluateArgs) : option string :=
  match ev_context args with
  | CtxWatch | CtxHover | CtxNone => Some (ev_expression args)
  | CtxRepl | CtxOther =>
      if startswith "?" (ev_expression args)
      then Some (slice_from 1 (ev_expression args))
      else None
  end.

(** a computation that leaves the global display format alone *)
Definition keeps_format {A} (m : M A) : Prop :=
  ∀ s, global_format (m s).2 = global_format s.


(** The part of the session that the reconciliation of one file is about:
    the line index of the file, the ids that have a BreakpointInfo, the ids
    of the backend breakpoints, and the next id the backend hands out. *)
Record Registry := mkRegistry {
  rg_index : gmap Z Z;
  rg_infos : gset Z;
  rg_backend : gset Z;
  rg_next : Z
}.

Definition registry_of (file_id : string) (s : Session) : Registry :=
  mkRegistry (file_bps_of file_id s) (dom (breakpoints s))
    (dom (tg_breakpoints (target s))) (tg_next_id (target s)).

(** What a step leaves alone when it only changes the settings of
    breakpoints that exist. *)
Definition same_registry (s s' : Session) : Prop :=
  line_breakpoints s' = line_breakpoints s
  ∧ dom (breakpoints s') = dom (breakpoints s)
  ∧ dom (tg_breakpoints (target s')) = dom (tg_breakpoints (target s))
  ∧ tg_next_id (target s') = tg_next_id (target s).

Definition keeps_registry {A} (m : M A) : Prop :=
  ∀ s, same_registry s (m s).2.

(** The registry of a file is well formed: every indexed id is a real id
    (not 0), was handed out by the backend, has its BreakpointInfo and its
    backend breakpoint; no two lines share an id; the backend hands out
    positive ids, above those in use. *)
Definition registry_inv (r : Registry) : Prop :=
  (∀ l id, rg_index r !! l = Some id →
           id ≠ 0 ∧ id < rg_next r ∧ id ∈ rg_infos r ∧ id ∈ rg_backend r)
  ∧ (∀ l1 l2 id, rg_index r !! l1 = Some id → rg_index r !! l2 = Some id → l1 = l2)
  ∧ 0 < rg_next r
  ∧ (∀ id, id ∈ rg_infos r → id < rg_next r)
  ∧ (∀ id, id ∈ rg_backend r → id < rg_next r).

(** The registry after the loop over one requested line. *)
Definition reconcile_line (r : Registry) (line : Z) : Registry :=
  match truthy_id (rg_index r !! line) with
  | Some bp_id => mkRegistry (<[line := bp_id]> (rg_index r)) (rg_infos r)
                    (rg_backend r) (rg_next r)
  | None => mkRegistry (<[line := rg_next r]> (rg_index r))
              ({[rg_next r]} ∪ rg_infos r) ({[rg_next r]} ∪ rg_backend r)
              (rg_next r + 1)
  end.

(** The registry after the loop that clears one existing entry. *)
Definition clear_line (req_bp_lines : list Z) (r : Registry) (item : Z * Z)
    : Registry :=
  if bool_decide (item.1 ∈ req_bp_lines) then r
  else mkRegistry (delete item.1 (rg_index r)) (rg_infos r ∖ {[item.2]})
         (rg_backend r ∖ {[item.2]}) (rg_next r).

(** The registry after a whole pass. *)
Definition reconcile (req_bp_lines : list Z) (r : Registry) : Registry :=
  fold_left reconcile_line req_bp_lines
    (fold_left (clear_line req_bp_lines) (map_to_list (rg_index r)) r).


(** ** Concrete sessions used to exercise the model *)

Module Examples.

Definition slash : ascii := Ascii.ascii_of_nat 47.
Definition lbrace : ascii := Ascii.ascii_of_nat 123.
Definition rbrace : ascii := Ascii.ascii_of_nat 125.

Fixpoint basename_from (acc s : string) : string :=
  match s with
  | EmptyString => acc
  | String c r =>
      if Ascii.eqb c slash then basename_from EmptyString r
      else basename_from (acc +:+ String c EmptyString) r
  end.

(** an [int] whose value reads 255, or 0xff in hex *)
Definition value_x : SBValue :=
  mkValue true (Some "x") "int" false 255
    (fun f => match f with eFormatHex => Some "0xff" | _ => Some "255" end)
    None 0 false eValueTypeOther.

Definition digit_of (c : ascii) : option Z :=
  let n := Z.of_nat (Ascii.nat_of_ascii c) in
  if ((48 <=? n) && (n <=? 57))%Z then Some (n - 48) else None.

Fixpoint parse_digits (acc : Z) (s : string) : option Z :=
  match s with
  | EmptyString => Some acc
  | String c r =>
      match digit_of c with
      | Some d => parse_digits (10 * acc + d) r
      | None => None
      end
  end.

(** placeholders without nested braces *)
Fixpoint split_braces (s lit : string) (inside : option string)
    : list (string + string) :=
  match s with
  | EmptyString =>
      match inside with
      | None => [inl lit]
      | Some e => [inl (lit +:+ String lbrace e)]
      end
  | String c r =>
      match inside with
      | None =>
          if Ascii.eqb c lbrace then split_braces r lit (Some EmptyString)
          else split_braces r (lit +:+ String c EmptyString) None
      | Some e =>
          if Ascii.eqb c rbrace
          then inl lit :: inr e :: split_braces r EmptyString None
          else split_braces r lit (Some (e +:+ String c EmptyString))
      end
  end.

(** A POSIX host on which paths are already normal, one source file
    exists, globs have no wildcards, and the evaluators know a few
    expressions. *)
Definition runtime : Runtime := {|
  normpath := fun p => p;
  normcase := fun p => p;
  basename := basename_from EmptyString;
  isfile := fun p => String.eqb p "/home/dev/proj/main.c";
  from_lldb_str := fun x => x;
  to_lldb_str := fun x => x;
  parse_int := fun x =>
    match x with EmptyString => None | _ => parse_digits 0 x end;
  format_exc := fun e => "Traceback (most recent call last): " +:+ exn_msg e;
  py_compile := fun src mode =>
    if String.eqb src "(" then Some (mkExn SyntaxError "unexpected EOF") else None;
  py_eval := fun site code frame =>
    if String.eqb code "''" then Ok (ObjOther EmptyString)
    else if String.eqb code "1/0" then Raise (mkExn OtherException "division by zero")
    else if String.eqb code "x + 1" then Ok (ObjOther "256")
    else if String.eqb code "x" then Ok (ObjValue value_x)
    else Ok (ObjOther code);
  py_truth := fun o =>
    match o with
    | ObjOther r => negb (String.eqb r EmptyString || String.eqb r "False")
    | ObjSBValue v | ObjValue v => sv_valid v
    | ObjSBError _ => true
    end;
  preprocess_python_expr := fun e =>
    if String.eqb e "$" then Raise (mkExn OtherException "bad expression") else Ok e;
  preprocess_simple_expr := fun e =>
    if String.eqb e "$" then Raise (mkExn OtherException "bad expression") else Ok e;
  escape_variable_name := fun x => x;
  glob_prefix_match := fun glob path =>
    if String.prefix glob path then Some (String.length glob) else None;
  split_placeholders := fun m => split_braces m EmptyString None
|}.

Definition fs_main : SBFileSpec :=
  mkFileSpec true (Some "/build") (Some "main.c") (Some "/build/main.c").

Definition fs_vendor : SBFileSpec :=
  mkFileSpec true (Some "/build/vendor") (Some "zlib.c") (Some "/build/vendor/zlib.c").

Definition fs_other : SBFileSpec :=
  mkFileSpec true (Some "/usr/include") (Some "stdio.h") (Some "/usr/include/stdio.h").

(** A backend whose commands succeed ([p] prints in decimal), that knows
    one variable [x] and resolves breakpoints in [main.c] to one location. *)
Definition backend : Backend := {|
  resolve_locations := fun file line =>
    if String.eqb file "main.c" then [mkLoc fs_main line true] else [];
  handle_command := fun cmd =>
    if String.prefix "p " cmd then mkCmdResult true "(int) $0 = 255" EmptyString
    else mkCmdResult true EmptyString EmptyString;
  evaluate_expression := fun frame e =>
    if String.eqb e "x" then inl value_x
    else inr "error: use of undeclared identifier";
  value_children := fun v => [];
  non_synthetic_value := fun v => v;
  process_continue_error := None
|}.

(** Contexts that are no frames: a value evaluates native expressions as
    the target does and cannot be selected; the evaluators know the
    literal [1] and find no variable in such a context. *)
Definition contexts : Contexts := {|
  value_evaluate_expression := fun v e =>
    if String.eqb e "x" then Ok (inl value_x)
    else Ok (inr "error: use of undeclared identifier");
  value_set_selected := fun v =>
    Raise (mkExn AttributeError "'SBValue' object has no attribute 'GetFrameID'");
  context_py_eval := fun site code o =>
    if String.eqb code "1" then Ok (ObjOther "1")
    else Raise (no_attribute o "FindVariable")
|}.

Definition args0 : LaunchArgs := mkLaunchArgs false SIMPLE [].

(** launch arguments with a source map: the vendored tree is suppressed,
    the build tree is remapped *)
Definition args_mapped : LaunchArgs :=
  mkLaunchArgs false SIMPLE
    [("/build/vendor", None); ("/build", Some "/home/dev/proj")].

Definition session_mapped : Session := init_session true args_mapped.

(** a valid return value of type [int], as left by a step-out *)
Definition return_value : SBValue :=
  mkValue true None "int" false 7 (fun f => Some "7") None 0 false eValueTypeOther.

Definition frame0 : SBFrame :=
  mkFrame 0 1 fs_other [value_x] [] [].

(** thread 1 stopped after a step-out that returned 7 *)
Definition thread1 : SBThread :=
  mkThread 1 eStopReasonPlanComplete 0 "step out" frame0 return_value.

Definition process1 : SBProcess := mkProcess (Some thread1) [thread1].

(** thread 2 stopped at breakpoint 5; thread 3 stopped at breakpoint 6 *)
Definition thread2 : SBThread :=
  mkThread 2 eStopReasonBreakpoint 5 "breakpoint 5.1" frame0 invalid_value.

Definition thread3 : SBThread :=
  mkThread 3 eStopReasonBreakpoint 6 "breakpoint 6.1" frame0 invalid_value.

(** thread 4 did not stop for a reason of its own *)
Definition thread4 : SBThread :=
  mkThread 4 eStopReasonNone 0 EmptyString frame0 invalid_value.

(** breakpoint 5 is an exception breakpoint, breakpoint 6 a plain one *)
Definition exception_info : BreakpointInfo :=
  mkInfo 5 true None 0 None None None.

Definition session_at_exception : Session :=
  with_breakpoints (<[5 := exception_info]> (<[6 := new_BreakpointInfo 6]> ∅))
    (with_process (Some (mkProcess (Some thread2) [thread2]))
       (init_session false args0)).

(** Breakpoints with log messages and conditions:
    7 logs an expression that evaluates to the empty string,
    8 logs the value of [x], 9 has a condition that raises,
    10 logs an expression that the preprocessor rejects,
    11 has a condition that is false and a log message. *)
Definition session_logpoints : Session :=
  with_breakpoints
    (<[7 := mkInfo 7 false None 0 (Some "{/py ''}") None None]>
     (<[8 := mkInfo 8 false None 0 (Some "x = {/nat x}") None None]>
      (<[9 := mkInfo 9 false (Some (PythonCond "1/0" true)) 0 None None None]>
       (<[10 := mkInfo 10 false None 0 (Some "{/py $}") None None]>
        (<[11 := mkInfo 11 false (Some (SimpleCond "''")) 0 (Some "never") None None]>
         ∅)))))
    (with_process (Some process1) (init_session false args0)).


(** Requests on [main.c]: first lines 10 and 15, then lines 10 and 20. *)
Definition main_c : string := "/home/dev/proj/main.c".

Definition plain (line : Z) : SourceBreakpoint :=
  mkSourceBreakpoint line None None None.

Definition request_10_15 : SetBreakpointsArgs :=
  mkSetBreakpointsArgs main_c [plain 10; plain 15].

Definition request_10_20 : SetBreakpointsArgs :=
  mkSetBreakpointsArgs main_c [plain 10; plain 20].

(** line 10 with a native condition, line 10 with a hit count, then line 10
    bare *)
Definition request_10_native : SetBreakpointsArgs :=
  mkSetBreakpointsArgs main_c
    [mkSourceBreakpoint 10 (Some "/nat x > 1") None None].

Definition request_10_hits : SetBreakpointsArgs :=
  mkSetBreakpointsArgs main_c
    [mkSourceBreakpoint 10 None (Some "5") None].

Definition request_10_bare : SetBreakpointsArgs :=
  mkSetBreakpointsArgs main_c [plain 10].

Definition session_at_breakpoint : Session :=
  with_breakpoints (<[5 := exception_info]> (<[6 := new_BreakpointInfo 6]> ∅))
    (with_process (Some (mkProcess (Some thread4) [thread4; thread3]))
       (init_session false args0)).

(** A stopped session in which the client holds handle 1 for frame 0 of
    thread 1 and handle 2 for its Locals scope. *)
Definition session_stopped : Session :=
  let s := with_process (Some process1) (init_session false args0) in
  let '(h1, t1) := HandleTree.create (HFrame frame0) (KFrame 1 0) None (var_refs s) in
  let '(h2, t2) := HandleTree.create (HLocalsScope frame0) (KName "[locs]") (Some h1) t1 in
  with_var_refs t2 s.

Definition session0 : Session := init_session true args0.

(** a session with one reverse request in flight *)
Definition session_pending : Session :=
  send_request "runInTerminal" [("kind", JStr "integrated")] (OnComplete 0) session0.

End Examples.


(** * Further parts of the engine *)

(** ** Vocabulary of the further statements *)

(** Under suppression of missing sources, every path in the cache is the
    path of a file that exists. *)
Definition cache_sound `{Runtime} (s : Session) : Prop :=
  ∀ key p, filespec_cache s !! key = Some (Some p) → isfile p = true.

(** A computation only appends to the trace, and what it appends satisfies
    [P]. *)
Definition appends {A} (P : Effect → Prop) (m : M A) : Prop :=
  ∀ s, ∃ added, trace (m s).2 = trace s ++ added ∧ Forall P added.

(** neither switches the breakpoint events off nor on *)
Definition not_bp_toggle (e : Effect) : Prop :=
  e ≠ DisableBpEvents ∧ e ≠ EnableBpEvents.

(** A computation relates every state to the state it leaves, whether it
    returns or raises. *)
Definition preserves {A} (R : Session → Session → Prop) (m : M A) : Prop :=
  ∀ s, R s (m s).2.

(** The part of the session that neither a breakpoint request nor a
    breakpoint hit touches, and the calls they never make: the handles, the
    launch arguments, the router's tables, the known threads and the display
    settings stay as they are, and the trace only grows, by calls other
    than the switching of breakpoint events. *)
Definition undisturbed (s s' : Session) : Prop :=
  var_refs s' = var_refs s
  ∧ launch_args s' = launch_args s
  ∧ request_seq s' = request_seq s
  ∧ pending_requests s' = pending_requests s
  ∧ known_threads s' = known_threads s
  ∧ global_format s' = global_format s
  ∧ show_disassembly s' = show_disassembly s
  ∧ deref_pointers s' = deref_pointers s
  ∧ suppress_missing_sources s' = suppress_missing_sources s
  ∧ ∃ added, trace s' = trace s ++ added ∧ Forall not_bp_toggle added.

(** Besides, the breakpoint tables of the adapter are as they were. *)
Definition untouched (s s' : Session) : Prop :=
  undisturbed s s'
  ∧ breakpoints s' = breakpoints s
  ∧ line_breakpoints s' = line_breakpoints s.

(** The line index of the other files is as it was. *)
Definition other_files_kept (file_id : string) (s s' : Session) : Prop :=
  ∀ other, other ≠ file_id →
           line_breakpoints s' !! other = line_breakpoints s !! other.

(** What a pass over the line breakpoints of one file leaves alone. *)
Definition pass_frame (file_id : string) (s s' : Session) : Prop :=
  undisturbed s s' ∧ other_files_kept file_id s s'.

(** The settings of the session that are no breakpoint data. *)
Definition same_settings (s s' : Session) : Prop :=
  var_refs s' = var_refs s
  ∧ launch_args s' = launch_args s
  ∧ request_seq s' = request_seq s
  ∧ pending_requests s' = pending_requests s
  ∧ known_threads s' = known_threads s
  ∧ global_format s' = global_format s
  ∧ show_disassembly s' = show_disassembly s
  ∧ deref_pointers s' = deref_pointers s
  ∧ suppress_missing_sources s' = suppress_missing_sources s.

(** What the response entry [r] of a requested breakpoint [req] says, for
    a pass of [file_id] from the line index [old] to the session [s']: it
    is an object that carries the id under which the line is indexed after
    the pass; for a line that was indexed before, this is the old id and
    the entry holds nothing but the id and [verified]. *)
Definition reports (file_id : string) (old : gmap Z Z) (s' : Session)
    (req : SourceBreakpoint) (r : Json) : Prop :=
  ∃ d id, r = JObj d
    ∧ dict_get "id" d = Some (JInt id)
    ∧ file_bps_of file_id s' !! sb_line req = Some id
    ∧ (∀ id0, old !! sb_line req = Some id0 →
         id0 = id ∧ d = [("id", JInt id); ("verified", JBool true)]).

(** The ignore count a request asks for: the number its [hitCondition]
    reads as, and none (0) without a hit condition or with one that is no
    integer. *)
Definition requested_ignore_count `{Runtime} (req : SourceBreakpoint) : Z :=
  if opt_str_truthy (sb_hitCondition req)
  then default 0 (parse_int (default EmptyString (sb_hitCondition req)))
  else 0.

(** The script callback of the adapter on a backend breakpoint. *)
Definition hit_callback_installed (bp_id : Z) (s : Session) : Prop :=
  ∀ b, tg_breakpoints (target s) !! bp_id = Some b →
       bp_callback b = Some "adapter.debugsession.on_breakpoint_hit".

(** The event that tells the client about a thread. *)
Definition thread_event (reason : string) (thread_id : Z) : Effect :=
  Send (MEvent "thread" [("threadId", JInt thread_id); ("reason", JStr reason)]).

(** The ids of the threads of a process. *)
Definition thread_ids (p : SBProcess) : gset Z :=
  list_to_set (map th_id (pr_threads p)).

(** The name under which a stop is reported that is neither a breakpoint
    hit nor the end of a step. *)
Definition described_reason (r : StopReason) : string :=
  match r with
  | eStopReasonWatchpoint => "watchpoint"
  | eStopReasonSignal => "signal"
  | eStopReasonException => "exception"
  | _ => "unknown"
  end.

Definition is_step_reason (r : StopReason) : bool :=
  match r with
  | eStopReasonTrace | eStopReasonPlanComplete => true
  | _ => false
  end.

Definition is_described_reason (r : StopReason) : bool :=
  match r with
  | eStopReasonBreakpoint | eStopReasonTrace | eStopReasonPlanComplete => false
  | _ => true
  end.

(** Events that reach the client's console or announce a stop. *)
Definition is_quiet (e : Effect) : Prop :=
  is_output_event e = false ∧ ¬ is_stopped_event e.

(** Whether the command interpreter runs a command with success. *)
Definition command_succeeds `{Backend} (command : string) : Prop :=
  cr_succeeded (handle_command command) = true.

(** The requests that run the inferior forwards. *)
Definition is_forward (r : ResumeRequest) : bool :=
  match r with
  | ReqStepBack _ | ReqReverseContinue => false
  | _ => true
  end.







(** ** Further sessions used to exercise the model *)

Module MoreExamples.

(** thread 5 was stopped by a signal *)
Definition thread5 : SBThread :=
  mkThread 5 eStopReasonSignal 11 "signal SIGSEGV" Examples.frame0
    invalid_value.

Definition session_at_signal : Session :=
  with_process (Some (mkProcess (Some Examples.thread4) [Examples.thread4; thread5]))
    (init_session false Examples.args0).

(** A backend that cannot run backwards: the packets of reverse execution
    fail, every other command succeeds. *)
Definition forward_only : Backend := {|
  resolve_locations := @resolve_locations Examples.backend;
  handle_command := fun cmd =>
    if String.prefix "process plugin packet send b" cmd
    then mkCmdResult false EmptyString "error: packet not supported"
    else mkCmdResult true EmptyString EmptyString;
  evaluate_expression := @evaluate_expression Examples.backend;
  value_children := @value_children Examples.backend;
  non_synthetic_value := @non_synthetic_value Examples.backend;
  process_continue_error := None
|}.




(** Breakpoint 12 is passed over three times between stops. *)
Definition session_counted : Session :=
  with_breakpoints (<[12 := mkInfo 12 false None 3 None None None]> ∅)
    (with_process (Some Examples.process1) (init_session false Examples.args0)).

(** line 10 with a hit condition and a log message *)
Definition counted_logpoint : SourceBreakpoint :=
  mkSourceBreakpoint 10 None (Some "3") (Some "passed").

End MoreExamples.

(** ** What keeps the cache of the source locator *)

(** Every entry of the cache of [s] is an entry of the cache of [s']. *)
Definition cache_extends (s s' : Session) : Prop :=
  ∀ key local_path,
    filespec_cache s !! key = Some local_path →
    filespec_cache s' !! key = Some local_path.

(** What the adapter does between two lookups of a file: it looks other
    files up, runs setBreakpoints passes, and handles the requests that
    resume the inferior (which ask whether a frame is shown as source). *)
Inductive Activity :=
| Lookup (filespec : SBFileSpec)
| BreakpointPass (args : SetBreakpointsArgs)
| Resume (request : ResumeRequest).

Definition run_activity `{Runtime} `{Backend} (a : Activity) (s : Session) : Session :=
  match a with
  | Lookup filespec => (map_filespec_to_local filespec s).2
  | BreakpointPass args => (DEBUG_setBreakpoints args s).2
  | Resume request => (resume_handler request s).2
  end.

Definition run_activities `{Runtime} `{Backend} (l : list Activity) (s : Session)
    : Session :=
  fold_left (fun st a => run_activity a st) l s.

(** ** The variables a response shows *)





(** * Properties *)

Local Open Scope list_scope.
Local Open Scope Z_scope.

(** ** Request router *)

Section RouterFacts.

Lemma trace_emit e s : trace (emit e s) = trace s ++ [e].
Proof. reflexivity. Qed.

Lemma invocations_app t1 t2 :
  invocations (t1 ++ t2) = (invocations t1 + invocations t2)%nat.
Proof. unfold invocations. by rewrite List.filter_app, length_app. Qed.

Lemma router_inv_lookup s k :
  router_inv s → is_Some (pending_requests s !! k) → k < request_seq s.
Proof. intros Hinv [x Hx]. exact (Hinv k x Hx). Qed.

Lemma router_inv_init b args : router_inv (init_session b args).
Proof. apply map_Forall_empty. Qed.

Lemma send_request_fresh s :
  router_inv s → pending_requests s !! request_seq s = None.
Proof.
  intros Hinv. destruct (pending_requests s !! request_seq s) eqn:E; [|done].
  assert (request_seq s < request_seq s) by (apply router_inv_lookup; eauto). lia.
Qed.

Lemma send_request_inv c a k s : router_inv s → router_inv (send_request c a k s).
Proof.
  intros Hinv j x. unfold send_request. simpl. intros Hj.
  destruct (decide (request_seq s = j)) as [->|Hne]; [lia|].
  rewrite lookup_insert_ne in Hj by done. apply Hinv in Hj. lia.
Qed.

Lemma handle_message_inv m s : router_inv s → router_inv (handle_message m s).
Proof.
  intros Hinv j x. unfold handle_message.
  destruct (pending_requests s !! resp_request_seq m) eqn:E.
  - destruct (resp_success m); simpl; intros Hx;
      apply lookup_delete_Some in Hx as [_ Hx]; by apply Hinv in Hx.
  - simpl. apply Hinv.
Qed.

Lemma router_run_inv steps s : router_inv s → router_inv (router_run steps s).
Proof.
  revert s. induction steps as [|st steps IH]; intros s Hinv; [done|].
  simpl. apply IH. destruct st; [by apply send_request_inv | by apply handle_message_inv].
Qed.

(** Each step keeps the balance: a registered callback is pending or was
    invoked, never both and never twice. *)
Lemma router_step_balance st s :
  router_inv s →
  (invocations (trace (router_step st s)) + size (pending_requests (router_step st s)))%nat
  = (invocations (trace s) + size (pending_requests s)
     + (if is_send_step st then 1 else 0))%nat.
Proof.
  intros Hinv. destruct st as [c a k|m]; simpl.
  - unfold send_request. simpl. rewrite invocations_app. simpl.
    rewrite map_size_insert_None by by apply send_request_fresh.
    unfold invocations at 2. simpl. lia.
  - unfold handle_message.
    destruct (pending_requests s !! resp_request_seq m) eqn:E.
    + pose proof (map_size_delete_Some (resp_request_seq m) (pending_requests s)
                    (ex_intro _ c E)) as Hsz.
      assert (size (pending_requests s) ≠ 0%nat) as Hnz.
      { intros Hz. apply map_size_empty_inv in Hz. rewrite Hz in E.
        by rewrite lookup_empty in E. }
      destruct (resp_success m); simpl; rewrite invocations_app;
        unfold invocations at 2; simpl; lia.
    + simpl. rewrite invocations_app. unfold invocations at 2. simpl. lia.
Qed.

Lemma router_run_balance steps s :
  router_inv s →
  (invocations (trace (router_run steps s)) + size (pending_requests (router_run steps s)))%nat
  = (invocations (trace s) + size (pending_requests s)
     + length (List.filter is_send_step steps))%nat.
Proof.
  revert s. induction steps as [|st steps IH]; intros s Hinv; simpl; [lia|].
  fold (router_run steps (router_step st s)).
  rewrite IH.
  - rewrite router_step_balance by done. destruct (is_send_step st); simpl; lia.
  - destruct st; [by apply send_request_inv | by apply handle_message_inv].
Qed.

End RouterFacts.

Section RouterCompletion.

Lemma request_seq_step st s : request_seq s ≤ request_seq (router_step st s).
Proof.
  destruct st as [c a k|m]; simpl.
  - unfold send_request. simpl. lia.
  - unfold handle_message.
    destruct (pending_requests s !! resp_request_seq m); [destruct (resp_success m)|];
      simpl; lia.
Qed.

(** A sequence number below the counter that is not pending stays so. *)
Lemma delivered_stays_delivered steps s n :
  n < request_seq s → pending_requests s !! n = None →
  pending_requests (router_run steps s) !! n = None.
Proof.
  revert s. induction steps as [|st steps IH]; intros s Hlt Hn; [done|].
  simpl. apply IH.
  - pose proof (request_seq_step st s). lia.
  - destruct st as [c a k|m]; simpl.
    + unfold send_request. simpl. rewrite lookup_insert_ne by lia. done.
    + unfold handle_message.
      destruct (pending_requests s !! resp_request_seq m); [destruct (resp_success m)|];
        simpl; try done;
        (destruct (decide (resp_request_seq m = n)) as [->|Hne];
         [apply lookup_delete_eq | by rewrite lookup_delete_ne]).
Qed.

End RouterCompletion.

(** C8: a reverse request registers its completion callback under a fresh
    sequence number and the counter strictly increases; a response with a
    matching [request_seq] invokes that callback exactly once and removes it
    from the pending table, for good: whatever the router does afterwards, the
    number is never pending again, so a repeated response is unmatched; an
    unmatched response only writes a log record: no callback is invoked, the
    pending table is unchanged and nothing is raised. *)
Theorem reverse_request_completion (s : Session) :
  router_inv s →
  (∀ command args on_complete,
      let s1 := send_request command args on_complete s in
      pending_requests s !! request_seq s = None
      ∧ pending_requests s1 !! request_seq s = Some on_complete
      ∧ request_seq s < request_seq s1
      ∧ trace s1 = trace s ++ [Send (MRequest (request_seq s) command args)]
      ∧ router_inv s1)
  ∧ (∀ message on_complete,
      pending_requests s !! resp_request_seq message = Some on_complete →
      let s1 := handle_message message s in
      trace s1 = trace s ++
        [Invoke on_complete (resp_success message)
           (if resp_success message then resp_body message else resp_message message)]
      ∧ pending_requests s1 = delete (resp_request_seq message) (pending_requests s)
      ∧ ∀ steps,
          pending_requests (router_run steps s1) !! resp_request_seq message = None)
  ∧ (∀ message,
      pending_requests s !! resp_request_seq message = None →
      let s1 := handle_message message s in
      (∃ text, trace s1 = trace s ++ [Log LError text])
      ∧ invocations (trace s1) = invocations (trace s)
      ∧ pending_requests s1 = pending_requests s
      ∧ request_seq s1 = request_seq s)
  ∧ (∀ steps,
      (invocations (trace (router_run steps s))
       + size (pending_requests (router_run steps s)))%nat
      = (invocations (trace s) + size (pending_requests s)
         + length (List.filter is_send_step steps))%nat).
Proof.
  intros Hinv. repeat split.
  - by apply send_request_fresh.
  - unfold send_request. simpl. apply lookup_insert_eq.
  - unfold send_request. simpl. lia.
  - by apply send_request_inv.
  - unfold handle_message. rewrite H. by destruct (resp_success message).
  - unfold handle_message. rewrite H. by destruct (resp_success message).
  - intros steps. apply delivered_stays_delivered.
    + assert (resp_request_seq message < request_seq s)
        by (apply router_inv_lookup; eauto).
      unfold handle_message. rewrite H. by destruct (resp_success message).
    + unfold handle_message. rewrite H.
      destruct (resp_success message); simpl; apply lookup_delete_eq.
  - unfold handle_message. rewrite H. simpl. eauto.
  - unfold handle_message. rewrite H. simpl. rewrite invocations_app.
    unfold invocations at 2. simpl. lia.
  - unfold handle_message. by rewrite H.
  - unfold handle_message. by rewrite H.
  - intros steps. by apply router_run_balance.
Qed.

Lemma reverse_request_completion_witness :
  router_inv Examples.session_pending
  ∧ pending_requests
      (handle_message (mkResponse 1 true JNull JNull) Examples.session_pending) = ∅
  ∧ trace (handle_message (mkResponse 1 true JNull JNull) Examples.session_pending)
    = trace Examples.session_pending ++ [Invoke (OnComplete 0) true JNull].
Proof.
  assert (router_inv Examples.session_pending) as Hinv.
  { apply (bool_decide_unpack (router_inv Examples.session_pending)).
    vm_compute. exact I. }
  split; [exact Hinv|].
  destruct (reverse_request_completion Examples.session_pending Hinv)
    as (_ & Hmatch & _).
  destruct (Hmatch (mkResponse 1 true JNull JNull) (OnComplete 0)) as (Ht & Hp & _).
  { reflexivity. }
  split; [|exact Ht].
  rewrite Hp. reflexivity.
Defined.

(** ** Source locator *)

Section SourceLocatorFacts.
Context `{Runtime}.

Lemma apply_source_map_skip pre rest path pn :
  no_rule_matches pre pn →
  apply_source_map (pre ++ rest) path pn = apply_source_map rest path pn.
Proof.
  induction 1 as [|[glob lp] pre Hno _ IH]; [done|].
  simpl in *. by rewrite Hno.
Qed.

Lemma apply_source_map_no_match rules path pn :
  no_rule_matches rules pn → apply_source_map rules path pn = Some path.
Proof.
  intros Hno. rewrite <- (app_nil_r rules).
  by rewrite apply_source_map_skip.
Qed.

Lemma uncached_result filespec p s :
  fullpath filespec = Some p →
  (map_filespec_to_local_uncached filespec s).1
  = apply_source_map (rules_of s) (normpath p) (normcase (normpath p)).
Proof.
  intros Hp. unfold map_filespec_to_local_uncached, rules_of. rewrite Hp.
  destruct (source_map s) eqn:E; simpl; [by rewrite E|done].
Qed.

End SourceLocatorFacts.

(** C6: the uncached resolution normalizes the path and tries the remap rules
    in order, the first rule that matches deciding alone: when its local
    prefix is null the result is [None] (no source), otherwise the result is
    the local prefix followed by the rest of the path after the matched
    remote prefix (normalized); when no rule matches, the normalized path
    itself is returned. *)
Theorem source_map_first_match_wins `{Runtime} (s : Session) (filespec : SBFileSpec)
    (p : string) :
  fullpath filespec = Some p →
  let path := normpath p in
  let result := (map_filespec_to_local_uncached filespec s).1 in
  (∀ pre glob local_prefix post n,
      rules_of s = pre ++ (glob, local_prefix) :: post →
      no_rule_matches pre (normcase path) →
      glob_prefix_match glob (normcase path) = Some n →
      result = match local_prefix with
               | None => None
               | Some lp => Some (normpath (lp +:+ slice_from n path))
               end)
  ∧ (no_rule_matches (rules_of s) (normcase path) → result = Some path).
Proof.
  intros Hp path result. subst result path. rewrite (uncached_result _ _ _ Hp). split.
  - intros pre glob lp post n -> Hpre Hm.
    rewrite apply_source_map_skip by done. simpl. by rewrite Hm.
  - apply apply_source_map_no_match.
Qed.

Lemma source_map_first_match_wins_witness :
  fullpath Examples.fs_vendor = Some "/build/vendor/zlib.c"
  ∧ (@map_filespec_to_local_uncached Examples.runtime Examples.fs_vendor
       Examples.session_mapped).1 = None
  ∧ (@map_filespec_to_local_uncached Examples.runtime Examples.fs_main
       Examples.session_mapped).1 = Some "/home/dev/proj/main.c"
  ∧ (@map_filespec_to_local_uncached Examples.runtime Examples.fs_other
       Examples.session_mapped).1 = Some "/usr/include/stdio.h".
Proof.
  split; [reflexivity|]. split; [|split].
  - destruct (@source_map_first_match_wins Examples.runtime Examples.session_mapped
                Examples.fs_vendor "/build/vendor/zlib.c" eq_refl) as [Hfirst _].
    apply (Hfirst [] "/build/vendor" None [("/build", Some "/home/dev/proj")] 13%nat).
    + reflexivity.
    + constructor.
    + reflexivity.
  - destruct (@source_map_first_match_wins Examples.runtime Examples.session_mapped
                Examples.fs_main "/build/main.c" eq_refl) as [Hfirst _].
    apply (Hfirst [("/build/vendor", None)] "/build" (Some "/home/dev/proj") [] 6%nat).
    + reflexivity.
    + repeat constructor.
    + reflexivity.
  - destruct (@source_map_first_match_wins Examples.runtime Examples.session_mapped
                Examples.fs_other "/usr/include/stdio.h" eq_refl) as [_ Hnone].
    apply Hnone. repeat constructor.
Defined.

Section CachedLocatorFacts.
Context `{Runtime}.

Lemma uncached_keeps_cache filespec s :
  filespec_cache (map_filespec_to_local_uncached filespec s).2 = filespec_cache s
  ∧ suppress_missing_sources (map_filespec_to_local_uncached filespec s).2
    = suppress_missing_sources s.
Proof.
  unfold map_filespec_to_local_uncached.
  destruct (source_map s), (fullpath filespec); done.
Qed.

(** Whenever the uncached resolution yields [None] while missing sources
    are suppressed, the cached lookup raises and stores nothing. *)
Lemma map_filespec_to_local_raises filespec s :
  fs_valid filespec = true →
  filespec_cache s !! (fs_directory filespec, fs_filename filespec) = None →
  suppress_missing_sources s = true →
  (map_filespec_to_local_uncached filespec s).1 = None →
  ∃ e s', map_filespec_to_local filespec s = (Raise e, s')
          ∧ exn_class e = TypeError
          ∧ filespec_cache s' = filespec_cache s.
Proof.
  intros Hv Hmiss Hsup Hnone. unfold map_filespec_to_local.
  rewrite Hv, Hmiss. simpl.
  destruct (uncached_keeps_cache filespec s) as [Hc Hs].
  destruct (map_filespec_to_local_uncached filespec s) as [lp s1].
  simpl in *. subst lp. rewrite Hs, Hsup. simpl.
  eexists _, _. repeat split. exact Hc.
Qed.

(** A resolved path, or any result when missing sources are not
    suppressed, is returned and cached. *)
Lemma map_filespec_to_local_returns filespec s :
  suppress_missing_sources s = false
  ∨ is_Some (map_filespec_to_local_uncached filespec s).1 →
  ∃ r s', map_filespec_to_local filespec s = (Ok r, s').
Proof.
  intros Hok. unfold map_filespec_to_local.
  destruct (negb (fs_valid filespec)); [eauto|].
  destruct (filespec_cache s !! _); [eauto|].
  destruct (uncached_keeps_cache filespec s) as [_ Hs].
  destruct (map_filespec_to_local_uncached filespec s) as [lp s1].
  simpl in *. rewrite Hs.
  destruct (suppress_missing_sources s); [|eauto].
  destruct Hok as [?|[p ->]]; [done|]. simpl. eauto.
Qed.

End CachedLocatorFacts.

(** C10: with [suppress_missing_sources] enabled (the default), a valid
    filespec that a suppressing rule matches is not mapped to [None]: the
    [os.path.isfile(None)] test raises [TypeError], and nothing is cached
    under the (directory, filename) key. *)
Theorem suppressed_source_lookup_raises :
  ∃ e s',
    @map_filespec_to_local Examples.runtime Examples.fs_vendor Examples.session_mapped
      = (Raise e, s')
    ∧ exn_class e = TypeError
    ∧ (@map_filespec_to_local_uncached Examples.runtime Examples.fs_vendor
         Examples.session_mapped).1 = None
    ∧ suppress_missing_sources Examples.session_mapped = true
    ∧ filespec_cache s' !! (Some "/build/vendor", Some "zlib.c") = None.
Proof.
  eexists _, _. split; [vm_compute; reflexivity|].
  repeat split.
Qed.

(** ** Resuming the inferior and the handle tree *)

Section ResumeFacts.
Context `{Runtime} `{Backend}.

Lemma reset_forgets (handle : option Z) (t : HandleTree.t) :
  HandleTree.get handle (HandleTree.reset t) = None.
Proof. destruct handle; [|done]. simpl. by rewrite lookup_empty. Qed.

Lemma console_msg_trace output category s :
  var_refs (console_msg output category s) = var_refs s
  ∧ ∃ added, trace (console_msg output category s) = trace s ++ added
             ∧ Forall (fun e => e ≠ VarRefsReset) added.
Proof.
  unfold console_msg. destruct (str_truthy output); simpl.
  - split; [done|]. eexists. split; [done|]. by repeat constructor.
  - split; [done|]. exists []. by rewrite app_nil_r.
Qed.

Lemma map_filespec_to_local_handles fs s :
  var_refs (map_filespec_to_local fs s).2 = var_refs s
  ∧ ∃ added, trace (map_filespec_to_local fs s).2 = trace s ++ added.
Proof.
  unfold map_filespec_to_local.
  destruct (negb (fs_valid fs)); [split; [done|exists []; by rewrite app_nil_r]|].
  destruct (filespec_cache s !! _); [split; [done|exists []; by rewrite app_nil_r]|].
  assert (var_refs (map_filespec_to_local_uncached fs s).2 = var_refs s
          ∧ trace (map_filespec_to_local_uncached fs s).2 = trace s) as [Hv Ht].
  { unfold map_filespec_to_local_uncached.
    destruct (source_map s), (fullpath fs); done. }
  destruct (map_filespec_to_local_uncached fs s) as [lp s1]. simpl in *.
  destruct (suppress_missing_sources s1).
  - destruct (os_path_isfile lp); simpl; (split; [done|]); rewrite Ht; eauto.
  - simpl. split; [done|]. rewrite Ht; eauto.
Qed.

Lemma in_disassembly_handles fs s :
  var_refs (in_disassembly fs s).2 = var_refs s
  ∧ ∃ added, trace (in_disassembly fs s).2 = trace s ++ added.
Proof.
  unfold in_disassembly.
  destruct (show_disassembly s); try (split; [done|exists []; by rewrite app_nil_r]).
  destruct (map_filespec_to_local_handles fs s) as [Hv Ht].
  by destruct (map_filespec_to_local fs s) as [[r|e] s1].
Qed.

(** The forward operations reset the handle tree first: the reset is the
    first call they make, and no handle of the old generation resolves in
    the state they leave. *)
Lemma forward_resume_resets_first (r : ResumeRequest) (s : Session) :
  match r with ReqStepBack _ | ReqReverseContinue => False | _ => True end →
  (∃ rest, trace (resume_handler r s).2 = trace s ++ VarRefsReset :: rest)
  ∧ ∀ handle, HandleTree.get handle (var_refs (resume_handler r s).2) = None.
Proof.
  intros Hfw.
  assert (∀ (k : M unit),
    (∀ s0, var_refs (k s0).2 = var_refs s0
           ∧ ∃ added, trace (k s0).2 = trace s0 ++ added) →
    (∃ rest, trace (bind (act before_resume) (fun _ => k) s).2
             = trace s ++ VarRefsReset :: rest)
    ∧ ∀ handle, HandleTree.get handle
                  (var_refs (bind (act before_resume) (fun _ => k) s).2) = None)
    as Hshape.
  { intros k Hk. unfold bind, act. simpl.
    destruct (Hk (before_resume s)) as [Hv [added Ht]].
    destruct (k (before_resume s)) as [[[]|e] s1]; simpl in *;
      (split; [exists added; by rewrite Ht, <- app_assoc
              |intros handle; rewrite Hv; apply reset_forgets]). }
  destruct r as [|t|t|t|t|]; try done; simpl; apply Hshape; intros s0.
  - unfold bind, gets. destruct (process s0); simpl.
    + unfold act. simpl. destruct process_continue_error; simpl;
        (split; [done|eauto]).
    + split; [done|]. exists []. by rewrite app_nil_r.
  - unfold bind, gets. destruct (process s0) as [p|]; simpl.
    + destruct (in_disassembly_handles (frame0_filespec (GetThreadByID t p)) s0)
        as [Hv [added Ht]].
      destruct (in_disassembly _ s0) as [[dis|e] s1]; simpl in *.
      * destruct (negb dis); unfold act; simpl;
          (split; [done|]); rewrite Ht, <- app_assoc; eauto.
      * split; [done|eauto].
    + split; [done|]. exists []. by rewrite app_nil_r.
  - unfold bind, gets. destruct (process s0) as [p|]; simpl.
    + destruct (in_disassembly_handles (frame0_filespec (GetThreadByID t p)) s0)
        as [Hv [added Ht]].
      destruct (in_disassembly _ s0) as [[dis|e] s1]; simpl in *.
      * destruct (negb dis); unfold act; simpl;
          (split; [done|]); rewrite Ht, <- app_assoc; eauto.
      * split; [done|eauto].
    + split; [done|]. exists []. by rewrite app_nil_r.
  - unfold bind, gets. destruct (process s0); simpl.
    + unfold act. simpl. split; [done|eauto].
    + split; [done|]. exists []. by rewrite app_nil_r.
Qed.

Lemma reverse_exec_keeps_handles commands s :
  var_refs (reverse_exec commands s) = var_refs s
  ∧ ∃ added, trace (reverse_exec commands s) = trace s ++ added
             ∧ Forall (fun e => e ≠ VarRefsReset) added.
Proof.
  revert s. induction commands as [|c rest IH]; intros s; simpl.
  - split; [done|]. exists []. by rewrite app_nil_r.
  - destruct (negb (cr_succeeded (handle_command c))).
    + destruct (console_msg_trace (cr_error (handle_command c)) (Some "stderr")
                  (emit (InterpHandleCommand c) s)) as [Hv [added [Ht Hf]]].
      unfold console_err. rewrite Hv. split; [done|].
      exists (InterpHandleCommand c :: added).
      rewrite Ht. simpl. rewrite <- app_assoc. split; [done|].
      by constructor.
    + destruct (IH (emit (InterpHandleCommand c) s)) as [Hv [added [Ht Hf]]].
      rewrite Hv. split; [done|].
      exists (InterpHandleCommand c :: added).
      rewrite Ht. simpl. rewrite <- app_assoc. split; [done|].
      by constructor.
Qed.

(** The reverse operations never reset the handle tree: every handle
    resolves after them as it did before. *)
Lemma reverse_resume_keeps_handles (r : ResumeRequest) (s : Session) :
  match r with ReqStepBack _ | ReqReverseContinue => True | _ => False end →
  var_refs (resume_handler r s).2 = var_refs s
  ∧ ∃ added, trace (resume_handler r s).2 = trace s ++ added
             ∧ Forall (fun e => e ≠ VarRefsReset) added.
Proof.
  destruct r as [|t|t|t|t|]; try done; intros _; unfold resume_handler.
  - unfold DEBUG_stepBack, bind, act. cbn -[reverse_exec].
    apply (reverse_exec_keeps_handles _ (with_show_disassembly ShowAlways s)).
  - unfold DEBUG_reverseContinue, act. cbn -[reverse_exec].
    apply reverse_exec_keeps_handles.
Qed.

End ResumeFacts.

(** C2: [stepBack] (and [reverseContinue]) on a stopped session whose client
    holds handle 1 for a stack frame: the commands that run the inferior
    backwards and forwards again are issued, no reset of the handle tree is
    among the calls made, and handle 1 still resolves to the old frame. *)
Theorem reverse_step_keeps_stale_handles :
  let back := @DEBUG_stepBack Examples.runtime Examples.backend 1
                Examples.session_stopped in
  let rcont := @DEBUG_reverseContinue Examples.runtime Examples.backend
                 Examples.session_stopped in
  HandleTree.get (Some 1) (var_refs Examples.session_stopped)
    = Some (HFrame Examples.frame0)
  ∧ back.1 = Ok tt
  ∧ trace back.2 =
      [InterpHandleCommand "process plugin packet send Hc1";
       InterpHandleCommand "process plugin packet send bs";
       InterpHandleCommand "process plugin packet send bs";
       InterpHandleCommand "stepi"]
  ∧ HandleTree.get (Some 1) (var_refs back.2) = Some (HFrame Examples.frame0)
  ∧ rcont.1 = Ok tt
  ∧ trace rcont.2 =
      [InterpHandleCommand "process plugin packet send bc";
       InterpHandleCommand "process plugin packet send bs";
       InterpHandleCommand "stepi"]
  ∧ HandleTree.get (Some 1) (var_refs rcont.2) = Some (HFrame Examples.frame0).
Proof. vm_compute. repeat split. Qed.

(** ** Stop events *)

Section StopFacts.
Context `{Runtime}.

Lemma thread_events_trace (reason : string) (ids : list Z) (s : Session) :
  let s' := fold_left (fun s thread_id =>
              send_event "thread" [("threadId", JInt thread_id);
                                   ("reason", JStr reason)] s) ids s in
  breakpoints s' = breakpoints s
  ∧ ∃ added, trace s' = trace s ++ added ∧ Forall (fun e => ¬ is_stopped_event e) added.
Proof.
  revert s. induction ids as [|i ids IH]; intros s; simpl.
  - split; [done|]. exists []. by rewrite app_nil_r.
  - destruct (IH (send_event "thread"
                    [("threadId", JInt i); ("reason", JStr reason)] s))
      as [Hb [added [Ht Hf]]].
    simpl in *. rewrite Hb, Ht. split; [done|].
    eexists (_ :: added). simpl. rewrite <- app_assoc. split; [done|].
    constructor; [|done]. simpl. tauto.
Qed.

Lemma update_threads_trace p s :
  breakpoints (update_threads p s) = breakpoints s
  ∧ ∃ added, trace (update_threads p s) = trace s ++ added
             ∧ Forall (fun e => ¬ is_stopped_event e) added.
Proof.
  unfold update_threads.
  set (threads := list_to_set (map th_id (pr_threads p)) : gset Z).
  destruct (thread_events_trace "exited" (elements (known_threads s ∖ threads)) s)
    as [Hb1 [a1 [Ht1 Hf1]]].
  simpl in Hb1, Ht1.
  set (s1 := fold_left _ (elements (known_threads s ∖ threads)) s) in *.
  destruct (thread_events_trace "started" (elements (threads ∖ known_threads s)) s1)
    as [Hb2 [a2 [Ht2 Hf2]]].
  simpl in Hb2, Ht2. simpl.
  rewrite Hb2, Hb1, Ht2, Ht1. split; [done|].
  exists (a1 ++ a2). rewrite <- app_assoc. split; [done|].
  by apply Forall_app.
Qed.

End StopFacts.

(** C3: when the stop is resolved to a thread stopped at a breakpoint, one
    ['stopped'] event is emitted, last; its reason is ["exception"] if the
    id of the hit breakpoint maps to a BreakpointInfo flagged as an exception
    breakpoint, and ["breakpoint"] if the flag is absent or the id is
    unknown. *)
Theorem breakpoint_stop_reason_reported `{Runtime} (s : Session) (p : SBProcess)
    (thread : SBThread) :
  process s = Some p →
  find_stopped_thread p = Some thread →
  th_stop_reason thread = eStopReasonBreakpoint →
  ∃ s' added body,
    notify_target_stopped s = (Ok tt, s')
    ∧ trace s' = trace s ++ added ++ [Send (MEvent "stopped" body)]
    ∧ Forall (fun e => ¬ is_stopped_event e) added
    ∧ dict_get "threadId" body = Some (JInt (th_id thread))
    ∧ dict_get "reason" body =
        Some (JStr match breakpoints s !! th_stop_data0 thread with
                   | Some bp_info =>
                       if exception_bp bp_info then "exception" else "breakpoint"
                   | None => "breakpoint"
                   end).
Proof.
  intros Hp Hfind Hreason. unfold notify_target_stopped. rewrite Hp, Hfind, Hreason.
  destruct (update_threads_trace p s) as [Hb [added [Ht Hf]]].
  unfold breakpoint_stop_reason.
  destruct (pr_selected p) as [sel|]; [destruct (has_stop_reason sel)|].
  - eexists _, added, _. split; [reflexivity|].
    cbn -[update_threads]. rewrite Hb, Ht.
    split; [by rewrite <- app_assoc|]. repeat split; done.
  - eexists _, (added ++ [SetSelectedThread (th_id thread)]), _.
    split; [reflexivity|]. cbn -[update_threads]. rewrite Hb, Ht.
    split; [by rewrite <- !app_assoc|].
    split; [|repeat split; done].
    apply Forall_app. split; [done|]. constructor; [simpl; tauto|done].
  - eexists _, (added ++ [SetSelectedThread (th_id thread)]), _.
    split; [reflexivity|]. cbn -[update_threads]. rewrite Hb, Ht.
    split; [by rewrite <- !app_assoc|].
    split; [|repeat split; done].
    apply Forall_app. split; [done|]. constructor; [simpl; tauto|done].
Qed.

Lemma breakpoint_stop_reason_reported_witness :
  process Examples.session_at_exception
    = Some (mkProcess (Some Examples.thread2) [Examples.thread2])
  ∧ find_stopped_thread (mkProcess (Some Examples.thread2) [Examples.thread2])
    = Some Examples.thread2
  ∧ th_stop_reason Examples.thread2 = eStopReasonBreakpoint
  ∧ ∃ s' added body,
      @notify_target_stopped Examples.runtime Examples.session_at_exception = (Ok tt, s')
      ∧ trace s' = trace Examples.session_at_exception ++ added
                   ++ [Send (MEvent "stopped" body)]
      ∧ dict_get "reason" body = Some (JStr "exception").
Proof.
  split; [reflexivity|]. split; [reflexivity|]. split; [reflexivity|].
  destruct (@breakpoint_stop_reason_reported Examples.runtime
              Examples.session_at_exception _ Examples.thread2
              eq_refl eq_refl eq_refl)
    as (s' & added & body & Hrun & Htrace & _ & _ & Hreason).
  exists s', added, body. split; [exact Hrun|]. split; [exact Htrace|].
  exact Hreason.
Defined.

(** a plain breakpoint, found by scanning the threads, is reported as such *)
Example plain_breakpoint_stop :
  ∃ s', @notify_target_stopped Examples.runtime Examples.session_at_breakpoint
        = (Ok tt, s')
        ∧ last (trace s')
          = Some (Send (MEvent "stopped"
                          [("allThreadsStopped", JBool true);
                           ("reason", JStr "breakpoint"); ("threadId", JInt 3)])).
Proof. eexists. split; vm_compute; reflexivity. Qed.

(** ** Variables of the Locals scope *)

Section VariablesFacts.
Context `{Runtime} `{Backend}.

(** Whenever the thread of a Locals scope reports a valid return value,
    the request raises: the local [var] is read before the loop binds it. *)
Lemma locals_with_return_value_raise (s : Session) (handle : Z) (frame : SBFrame)
    (path : list HKey) :
  HandleTree.get_vpath handle (var_refs s) = Some (HLocalsScope frame, path) →
  sv_valid (stop_return_value frame s) = true →
  ∃ e, DEBUG_variables handle s = (Raise e, s) ∧ exn_class e = UnboundLocalError.
Proof.
  intros Hh Hv. unfold DEBUG_variables, bind, gets. rewrite Hh. cbn.
  rewrite Hv. cbn. eauto.
Qed.

End VariablesFacts.

(** C9: a variables request on the Locals scope (handle 2) of a frame whose
    thread stopped after a step-out with a valid return value: the handler
    raises [UnboundLocalError] and returns no variable list; with no return
    value the same request lists the locals. *)
Theorem locals_after_step_out_raises :
  sv_valid (stop_return_value Examples.frame0 Examples.session_stopped) = true
  ∧ HandleTree.get (Some 2) (var_refs Examples.session_stopped)
    = Some (HLocalsScope Examples.frame0)
  ∧ @DEBUG_variables Examples.runtime Examples.backend 2 Examples.session_stopped
    = (Raise (mkExn UnboundLocalError
                "local variable 'var' referenced before assignment"),
       Examples.session_stopped).
Proof. vm_compute. repeat split. Qed.

(** ** Stop evaluation on a breakpoint hit *)

Section StopEvaluation.
Context `{Runtime} `{Backend}.

Lemma console_msg_nonempty (c : ascii) (rest : string) (category : option string)
    (s : Session) :
  console_msg (String c rest) category s
  = emit (console_event category (String c rest)) s.
Proof. reflexivity. Qed.

Lemma console_msg_cases (text : string) (category : option string) (s : Session) :
  console_msg text category s
  = if str_truthy text then emit (console_event category text) s else s.
Proof. unfold console_msg. by destruct (str_truthy text). Qed.

Lemma should_stop_unfold (s : Session) (bp_id : Z) (frame : SBFrame)
    (bp_info : BreakpointInfo) :
  breakpoints s !! bp_id = Some bp_info →
  should_stop_on_bp bp_id frame s =
    match (match condition bp_info with
           | Some c => eval_condition c frame (rearmed bp_id bp_info s)
           | None => (Ok true, rearmed bp_id bp_info s)
           end) with
    | (Raise e, s2) =>
        (true, console_err ("Could not evaluate breakpoint condition: "
                            +:+ format_exc e) s2)
    | (Ok false, s2) => (false, s2)
    | (Ok true, s2) =>
        match log_message bp_info with
        | Some template =>
            if str_truthy template then
              match substitute frame (split_placeholders template) s2 with
              | (Ok message, s3) => (false, console_msg message None s3)
              | (Raise e, s3) =>
                  (true, console_err ("Could not evaluate breakpoint log message: "
                                      +:+ format_exc e) s3)
              end
            else (true, s2)
        | None => (true, s2)
        end
    end.
Proof. intros Hb. unfold should_stop_on_bp, rearmed. by rewrite Hb. Qed.

Lemma condition_passes_checked (bp_info : BreakpointInfo) (frame : SBFrame)
    (s1 s2 : Session) :
  condition_passes bp_info frame s1 s2 →
  match condition bp_info with
  | Some c => eval_condition c frame s1
  | None => (Ok true, s1)
  end = (Ok true, s2).
Proof. intros [[-> ->]|(c & -> & ->)]; done. Qed.

End StopEvaluation.

(** C4, as the code has it: on a hit of a registered breakpoint, if a
    compiled condition exists and evaluates false the callback returns
    "do not stop"; otherwise, if a non-empty log message exists and its
    placeholders are substituted against the hit frame without error, the
    formatted text is sent as console output when it is not empty (an empty
    text sends nothing) and the callback returns "do not stop"; otherwise
    (no log message, or an empty one) it returns "stop". *)
Theorem stop_decision_order `{Runtime} `{Backend} (s : Session) (bp_id : Z)
    (frame : SBFrame) (bp_info : BreakpointInfo) :
  breakpoints s !! bp_id = Some bp_info →
  let s1 := rearmed bp_id bp_info s in
  (∀ c s2,
      condition bp_info = Some c →
      eval_condition c frame s1 = (Ok false, s2) →
      should_stop_on_bp bp_id frame s = (false, s2))
  ∧ (∀ s2 template message s3,
      condition_passes bp_info frame s1 s2 →
      log_message bp_info = Some template →
      str_truthy template = true →
      substitute frame (split_placeholders template) s2 = (Ok message, s3) →
      should_stop_on_bp bp_id frame s
      = (false, if str_truthy message then emit (console_event None message) s3
                else s3))
  ∧ (∀ s2,
      condition_passes bp_info frame s1 s2 →
      opt_str_truthy (log_message bp_info) = false →
      should_stop_on_bp bp_id frame s = (true, s2)).
Proof.
  intros Hb s1. rewrite (should_stop_unfold _ _ _ _ Hb). fold s1. repeat split.
  - intros c s2 -> ->. done.
  - intros s2 template message s3 Hc -> Ht Hsub.
    rewrite (condition_passes_checked _ _ _ _ Hc), Ht, Hsub.
    by rewrite console_msg_cases.
  - intros s2 Hc Hlog. rewrite (condition_passes_checked _ _ _ _ Hc).
    destruct (log_message bp_info) as [template|]; [|done].
    simpl in Hlog. by rewrite Hlog.
Qed.

Lemma stop_decision_order_witness :
  breakpoints Examples.session_logpoints !! 8
    = Some (mkInfo 8 false None 0 (Some "x = {/nat x}") None None)
  ∧ @should_stop_on_bp Examples.runtime Examples.backend 8 Examples.frame0
      Examples.session_logpoints
    = (false, emit (@console_event Examples.runtime None "x = 255")
                Examples.session_logpoints).
Proof.
  split; [reflexivity|].
  destruct (@stop_decision_order Examples.runtime Examples.backend
              Examples.session_logpoints 8 Examples.frame0 _ eq_refl)
    as (_ & Hlog & _).
  apply (Hlog Examples.session_logpoints "x = {/nat x}" "x = 255"
           Examples.session_logpoints).
  - left. split; reflexivity.
  - reflexivity.
  - reflexivity.
  - reflexivity.
Defined.

(** C4 as stated fails: breakpoint 7 has the log message [{/py ''}] and no
    condition, the formatting succeeds (the text is empty), the callback
    returns "do not stop", and no output event is sent. *)
Lemma silent_logpoint :
  let hit := @should_stop_on_bp Examples.runtime Examples.backend 7 Examples.frame0
               Examples.session_logpoints in
  (condition <$> breakpoints Examples.session_logpoints !! 7) = Some None
  ∧ (log_message <$> breakpoints Examples.session_logpoints !! 7)
    = Some (Some "{/py ''}")
  ∧ (@substitute Examples.runtime Examples.backend Examples.frame0
       (@split_placeholders Examples.runtime "{/py ''}")
       Examples.session_logpoints).1 = Ok EmptyString
  ∧ hit.1 = false
  ∧ existsb is_output_event (trace hit.2) = false.
Proof. vm_compute. repeat split. Qed.

Section PlaceholderFacts.
Context `{Runtime} `{Backend}.




End PlaceholderFacts.




(** ** Format suffixes of evaluate requests *)

Section StringFacts.

Lemma length_append (e x : string) :
  String.length (e +:+ x) = (String.length e + String.length x)%nat.
Proof. induction e as [|c e IH]; simpl; [done|]. by rewrite IH. Qed.

Lemma substring_all (x : string) : substring 0 (String.length x) x = x.
Proof. induction x as [|c x IH]; simpl; [done|]. by rewrite IH. Qed.

Lemma substring_skip (e x : string) :
  substring (String.length e) (String.length x) (e +:+ x) = x.
Proof. induction e as [|c e IH]; simpl; [apply substring_all|done]. Qed.

Lemma substring_take (e x : string) :
  substring 0 (String.length e) (e +:+ x) = e.
Proof.
  induction e as [|c e IH]; simpl; [by destruct x|]. by rewrite IH.
Qed.

Lemma endswith_same_length (sfx sfx' e : string) :
  String.length sfx = String.length sfx' →
  endswith sfx (e +:+ sfx') = String.eqb sfx' sfx.
Proof.
  intros Hlen. unfold endswith. rewrite length_append, Hlen.
  replace (String.length e + String.length sfx' - String.length sfx')%nat
    with (String.length e) by lia.
  rewrite substring_skip.
  replace (String.length sfx' <=? String.length e + String.length sfx')%nat
    with true; [done|].
  symmetry. apply Nat.leb_le. lia.
Qed.

Lemma slice_to_minus_append (e sfx : string) :
  slice_to_minus (String.length sfx) (e +:+ sfx) = e.
Proof.
  unfold slice_to_minus. rewrite length_append.
  replace (String.length e + String.length sfx - String.length sfx)%nat
    with (String.length e) by lia.
  apply substring_take.
Qed.

(** A listed suffix is recognised and stripped, whatever precedes it. *)
Lemma parse_format_suffix_strips (global : Format) (e sfx : string) (fmt : Format) :
  In (sfx, fmt) format_codes →
  parse_format_suffix format_codes global (e +:+ sfx) = (fmt, e).
Proof.
  intros Hin. unfold format_codes in Hin. simpl in Hin.
  repeat (destruct Hin as [[= <- <-]|Hin];
          [unfold format_codes, parse_format_suffix;
           repeat (rewrite endswith_same_length by reflexivity; simpl);
           match goal with
           | |- context [slice_to_minus 2 (e +:+ ?x)] =>
               change 2%nat with (String.length x);
               by rewrite slice_to_minus_append
           end|]).
  done.
Qed.

(** Without a listed suffix the global format is used. *)
Lemma parse_format_suffix_none (global : Format) (e : string) :
  (∀ sfx fmt, In (sfx, fmt) format_codes → endswith sfx e = false) →
  parse_format_suffix format_codes global e = (global, e).
Proof.
  generalize format_codes as codes.
  induction codes as [|[sfx fmt] codes IH]; intros Hno; simpl; [done|].
  rewrite (Hno sfx fmt) by (left; done).
  apply IH. intros sfx' fmt' Hin. apply (Hno sfx' fmt'). by right.
Qed.

End StringFacts.

Section FormatFrame.
Context `{Runtime} `{Backend} `{Contexts}.

Lemma keeps_ret {A} (a : A) : keeps_format (ret a).
Proof. by intros s. Qed.

Lemma keeps_raise {A} (e : Exn) : keeps_format (@raise A e).
Proof. by intros s. Qed.

Lemma keeps_gets {A} (f : Session → A) : keeps_format (gets f).
Proof. by intros s. Qed.

Lemma keeps_act (f : Session → Session) :
  (∀ s, global_format (f s) = global_format s) → keeps_format (act f).
Proof. intros Hf s. apply Hf. Qed.

Lemma keeps_bind {A B} (m : M A) (k : A → M B) :
  keeps_format m → (∀ a, keeps_format (k a)) → keeps_format (bind m k).
Proof.
  intros Hm Hk s. unfold bind. specialize (Hm s).
  destruct (m s) as [[a|e] s1]; simpl in *; [|done].
  by rewrite Hk.
Qed.

Lemma console_msg_format text category s :
  global_format (console_msg text category s) = global_format s.
Proof. unfold console_msg. by destruct (str_truthy text). Qed.

Lemma set_selected_frame_format frame s :
  global_format (set_selected_frame frame s) = global_format s.
Proof.
  unfold set_selected_frame. simpl.
  destruct (process s) as [p|]; [|done].
  by destruct (GetThreadByID (fr_thread frame) p).
Qed.

Lemma get_var_handle_format var key parent s :
  global_format (get_var_handle var key parent s).2 = global_format s.
Proof.
  unfold get_var_handle. by destruct (_ || _).
Qed.

Lemma select_thread_format thread_id s :
  global_format (select_thread thread_id s) = global_format s.
Proof.
  unfold select_thread. simpl.
  destruct (process s) as [p|]; [|done].
  by destruct (GetThreadByID thread_id p).
Qed.

Lemma keeps_set_selected_object o : keeps_format (set_selected_object o).
Proof.
  intros s. unfold set_selected_object.
  destruct o as [f|f|f|f|f|v]; try done.
  - apply set_selected_frame_format.
  - destruct (value_set_selected v); [apply select_thread_format|done].
Qed.

Lemma keeps_eval_in_object site e o : keeps_format (eval_in_object site e o).
Proof. intros s. unfold eval_in_object. by destruct (context_py_eval site e o). Qed.

Lemma keeps_evaluate_expr_in_frame expr frame :
  keeps_format (evaluate_expr_in_frame expr frame).
Proof.
  intros s. unfold evaluate_expr_in_frame.
  destruct (get_expression_type expr s) as [ty e].
  destruct ty.
  - destruct (match frame with Some f => Some f | None => selected_frame <$> process s end);
      [|done].
    destruct (preprocess_simple_expr e); [|done]. simpl.
    by destruct (py_eval ExprSimple a s0).
  - destruct (match frame with Some f => Some f | None => selected_frame <$> process s end);
      [|done].
    destruct (preprocess_python_expr e); [|done]. simpl.
    destruct (py_eval ExprPython a s0); simpl; apply set_selected_frame_format.
  - by destruct (evaluate_expression frame (to_lldb_str e)).
Qed.

Lemma keeps_evaluate_expr_in_object expr o :
  keeps_format (evaluate_expr_in_object expr o).
Proof.
  assert (∀ e o' s, global_format
            (match preprocess_python_expr e with
             | Raise x => (Raise x, s)
             | Ok pp =>
                 match set_selected_object o' s with
                 | (Raise x, s1) => (Raise x, s1)
                 | (Ok _, s1) => eval_in_object ExprPython pp o' s1
                 end
             end).2 = global_format s) as Hpy.
  { intros e o' s. destruct (preprocess_python_expr e) as [pp|]; [|done].
    pose proof (keeps_set_selected_object o' s) as Hsel.
    destruct (set_selected_object o' s) as [[[]|x] s1]; simpl in *; [|done].
    by rewrite keeps_eval_in_object. }
  assert (∀ e o' s, global_format
            (match preprocess_simple_expr e with
             | Raise x => (Raise x, s)
             | Ok pp =>
                 eval_in_object ExprSimple pp o'
                   (emit (Log LInfo ("Preprocessed expr: " +:+ pp)) s)
             end).2 = global_format s) as Hse.
  { intros e o' s. destruct (preprocess_simple_expr e) as [pp|]; [|done].
    by rewrite keeps_eval_in_object. }
  unfold evaluate_expr_in_object.
  destruct o as [[f|f|f|f|f|v]|]; try apply keeps_evaluate_expr_in_frame;
    intros s; destruct (get_expression_type expr s) as [ty e]; destruct ty;
    try apply Hpy; try apply Hse; try done.
  by destruct (value_evaluate_expression v (to_lldb_str e)) as [[r|err]|x].
Qed.

Lemma keeps_execute_command_in_object command o :
  keeps_format (execute_command_in_object command o).
Proof.
  assert (∀ frame, keeps_format
            (fun s => let '(r, s') := execute_command_in_frame command frame s in
                      (Ok r, s'))) as Hexec.
  { intros frame s. unfold execute_command_in_frame. simpl.
    destruct frame; [apply set_selected_frame_format|done]. }
  unfold execute_command_in_object.
  destruct o as [[f|f|f|f|f|v]|]; try apply Hexec;
    (apply keeps_bind; [apply keeps_set_selected_object|intros; apply Hexec]).
Qed.

Lemma keeps_evaluate_expr args expr : keeps_format (evaluate_expr args expr).
Proof.
  unfold evaluate_expr. apply keeps_bind; [apply keeps_gets|]. intros global.
  destruct (parse_format_suffix format_codes global expr) as [format e].
  apply keeps_bind; [apply keeps_gets|]. intros frame.
  apply keeps_bind; [apply keeps_evaluate_expr_in_object|]. intros result.
  assert (∀ v, keeps_format
            (bind (fun s => let '(h, s') := get_var_handle v e None s in (Ok h, s'))
               (fun handle =>
                  bind (gets (get_var_value_not_null v format (negb (handle =? 0))))
                    (fun value =>
                       ret (Some [("result", JStr value);
                                  ("type", JStr (sv_type_name v));
                                  ("variablesReference", JInt handle)]))))) as Hval.
  { intros v. apply keeps_bind.
    - intros s. pose proof (get_var_handle_format v e None s) as Hg.
      by destruct (get_var_handle v e None s).
    - intros handle. apply keeps_bind; [apply keeps_gets|]. intros value.
      apply keeps_ret. }
  destruct result as [v|v|msg|repr]; simpl.
  - apply Hval.
  - apply Hval.
  - destruct (ev_context args); try apply keeps_raise.
    apply keeps_bind; [|intros; apply keeps_ret].
    apply keeps_act. intros s. apply console_msg_format.
  - apply keeps_ret.
Qed.

(** No evaluate request changes the global display format. *)
Lemma keeps_DEBUG_evaluate args : keeps_format (DEBUG_evaluate args).
Proof.
  unfold DEBUG_evaluate. apply keeps_bind; [apply keeps_gets|]. intros [p|].
  - destruct (ev_context args); try apply keeps_evaluate_expr;
      (destruct (startswith "?" (ev_expression args));
       [apply keeps_evaluate_expr|]);
      (apply keeps_bind; [apply keeps_gets|]; intros frame;
       apply keeps_bind; [|intros; apply keeps_ret];
       apply keeps_execute_command_in_object).
  - apply keeps_bind; [|intros; apply keeps_ret]. by apply keeps_act.
Qed.

End FormatFrame.

Section EvaluateFacts.
Context `{Runtime} `{Backend} `{Contexts}.

Lemma evaluate_routes_expression (args : EvaluateArgs) (s : Session) (x : string) :
  is_Some (process s) →
  expression_to_evaluate args = Some x →
  DEBUG_evaluate args s = evaluate_expr args x s.
Proof.
  intros [p Hp] Hx. unfold DEBUG_evaluate, bind, gets. rewrite Hp.
  unfold expression_to_evaluate in Hx.
  destruct (ev_context args); try (by injection Hx as <-);
    (destruct (startswith "?" (ev_expression args)); [by injection Hx as <-|done]).
Qed.

End EvaluateFacts.

(** C7, as the code has it: an evaluate request that is evaluated as an
    expression (context watch, hover or absent, or a leading [?] in another
    context) while a process exists, and whose expression ends in a listed
    format suffix: the suffix is stripped and the rest is evaluated, in the
    context of whatever object the frame id resolves to; a backend value is
    rendered in the format of the suffix, any other host value by its
    [str()] whatever the suffix.  No evaluate request at all changes the
    global display format, which an expression without suffix uses. *)
Theorem format_suffix_overrides_one_evaluation `{Runtime} `{Backend} `{Contexts}
    (args : EvaluateArgs) (s : Session) (e sfx : string) (fmt : Format)
    (r : PyObj) (s1 : Session) :
  is_Some (process s) →
  expression_to_evaluate args = Some (e +:+ sfx) →
  In (sfx, fmt) format_codes →
  evaluate_expr_in_object e (HandleTree.get (ev_frameId args) (var_refs s)) s
    = (Ok r, s1) →
  match r with
  | ObjSBValue v | ObjValue v =>
      let hs := get_var_handle v e None s1 in
      DEBUG_evaluate args s
      = (Ok (Some [("result",
                    JStr (get_var_value_not_null v fmt (negb (hs.1 =? 0)) hs.2));
                   ("type", JStr (sv_type_name v));
                   ("variablesReference", JInt hs.1)]), hs.2)
  | ObjOther repr =>
      DEBUG_evaluate args s
      = (Ok (Some [("result", JStr repr); ("variablesReference", JInt 0)]), s1)
  | ObjSBError _ => True
  end
  ∧ (∀ args' s', global_format (DEBUG_evaluate args' s').2 = global_format s')
  ∧ (∀ e' s',
       (∀ sfx' fmt', In (sfx', fmt') format_codes → endswith sfx' e' = false) →
       parse_format_suffix format_codes
         (global_format (DEBUG_evaluate args s').2) e' = (global_format s', e')).
Proof.
  intros Hp Hx Hin Heval. split; [|split].
  - rewrite (evaluate_routes_expression _ _ _ Hp Hx).
    unfold evaluate_expr, bind, gets.
    rewrite (parse_format_suffix_strips _ _ _ _ Hin), Heval.
    destruct r as [v|v|msg|repr]; simpl; try done;
      by destruct (get_var_handle v e None s1).
  - intros args' s'. apply keeps_DEBUG_evaluate.
  - intros e' s' Hno. rewrite keeps_DEBUG_evaluate.
    by apply parse_format_suffix_none.
Qed.

Lemma format_suffix_overrides_one_evaluation_witness :
  let evaluate := @DEBUG_evaluate Examples.runtime Examples.backend
                    Examples.contexts in
  is_Some (process Examples.session_stopped)
  ∧ expression_to_evaluate (mkEvaluateArgs "/se x,x" CtxWatch (Some 1))
    = Some ("/se x" +:+ ",x")
  ∧ In (",x", eFormatHex) format_codes
  ∧ (evaluate (mkEvaluateArgs "/se x,x" CtxWatch (Some 1))
       Examples.session_stopped).1
    = Ok (Some [("result", JStr "0xff"); ("type", JStr "int");
                ("variablesReference", JInt 0)])
  ∧ global_format
      (evaluate (mkEvaluateArgs "/se x,x" CtxWatch (Some 1))
         Examples.session_stopped).2
    = global_format Examples.session_stopped
  ∧ HandleTree.get (Some 2) (var_refs Examples.session_stopped)
    = Some (HLocalsScope Examples.frame0)
  ∧ (evaluate (mkEvaluateArgs "1,x" CtxWatch (Some 2))
       Examples.session_stopped).1
    = Ok (Some [("result", JStr "1"); ("variablesReference", JInt 0)]).
Proof.
  intros evaluate.
  assert (In (",x", eFormatHex) format_codes) as Hin by (simpl; tauto).
  assert (is_Some (process Examples.session_stopped)) as Hp
    by (eexists; reflexivity).
  split; [exact Hp|]. split; [reflexivity|]. split; [exact Hin|].
  destruct (@format_suffix_overrides_one_evaluation Examples.runtime Examples.backend
              Examples.contexts
              (mkEvaluateArgs "/se x,x" CtxWatch (Some 1)) Examples.session_stopped
              "/se x" ",x" eFormatHex (ObjValue Examples.value_x)
              (@evaluate_expr_in_frame Examples.runtime Examples.backend "/se x"
                 (Some Examples.frame0) Examples.session_stopped).2
              Hp eq_refl Hin eq_refl)
    as (Hres & Hkeep & _).
  split; [simpl in Hres; unfold evaluate; rewrite Hres; reflexivity|].
  split; [apply Hkeep|]. split; [reflexivity|].
  destruct (@format_suffix_overrides_one_evaluation Examples.runtime Examples.backend
              Examples.contexts
              (mkEvaluateArgs "1,x" CtxWatch (Some 2)) Examples.session_stopped
              "1" ",x" eFormatHex (ObjOther "1")
              (@evaluate_expr_in_object Examples.runtime Examples.backend
                 Examples.contexts "1" (Some (HLocalsScope Examples.frame0))
                 Examples.session_stopped).2
              Hp eq_refl Hin eq_refl)
    as (Hres2 & _).
  simpl in Hres2. unfold evaluate. rewrite Hres2. reflexivity.
Defined.

(** C7 as stated fails on two kinds of evaluate requests whose expression
    ends in [,x]: in repl context [p x,x] is run as a debugger command, its
    text passed on with the suffix and its output returned as printed; in
    watch context [x + 1,x], whose value is a host integer, gives the same
    decimal text as [x + 1], while the backend value [x] does change from
    255 to 0xff. *)
Lemma format_suffix_not_applied :
  let evaluate expression context :=
    @DEBUG_evaluate Examples.runtime Examples.backend Examples.contexts
      (mkEvaluateArgs expression context (Some 1)) Examples.session_stopped in
  endswith ",x" "p x,x" = true
  ∧ (evaluate "p x,x" CtxRepl).1 = Ok (Some [("result", JStr "(int) $0 = 255")])
  ∧ last (trace (evaluate "p x,x" CtxRepl).2) = Some (InterpHandleCommand "p x,x")
  ∧ endswith ",x" "x + 1,x" = true
  ∧ (evaluate "x + 1,x" CtxWatch).1
    = Ok (Some [("result", JStr "256"); ("variablesReference", JInt 0)])
  ∧ (evaluate "x + 1" CtxWatch).1 = (evaluate "x + 1,x" CtxWatch).1
  ∧ (evaluate "x" CtxWatch).1
    = Ok (Some [("result", JStr "255"); ("type", JStr "int");
                ("variablesReference", JInt 0)])
  ∧ (evaluate "x,x" CtxWatch).1
    = Ok (Some [("result", JStr "0xff"); ("type", JStr "int");
                ("variablesReference", JInt 0)]).
Proof. vm_compute. repeat split. Qed.

(** ** Reconciliation of line breakpoints *)

Section MonadFacts.

Lemma bind_ok {A B} (m : M A) (k : A → M B) (s s' : Session) (b : B) :
  bind m k s = (Ok b, s') →
  ∃ a s1, m s = (Ok a, s1) ∧ k a s1 = (Ok b, s').
Proof.
  unfold bind. destruct (m s) as [[a|e] s1]; [eauto|done].
Qed.

Lemma same_registry_refl s : same_registry s s.
Proof. by repeat split. Qed.

Lemma same_registry_trans s1 s2 s3 :
  same_registry s1 s2 → same_registry s2 s3 → same_registry s1 s3.
Proof.
  intros (? & ? & ? & ?) (? & ? & ? & ?). repeat split; congruence.
Qed.

Lemma keeps_registry_ret {A} (a : A) : keeps_registry (ret a).
Proof. intros s. apply same_registry_refl. Qed.

Lemma keeps_registry_raise {A} (e : Exn) : keeps_registry (@raise A e).
Proof. intros s. apply same_registry_refl. Qed.

Lemma keeps_registry_gets {A} (f : Session → A) : keeps_registry (gets f).
Proof. intros s. apply same_registry_refl. Qed.

Lemma keeps_registry_act (f : Session → Session) :
  (∀ s, same_registry s (f s)) → keeps_registry (act f).
Proof. intros Hf s. apply Hf. Qed.

Lemma keeps_registry_bind {A B} (m : M A) (k : A → M B) :
  keeps_registry m → (∀ a, keeps_registry (k a)) → keeps_registry (bind m k).
Proof.
  intros Hm Hk s. unfold bind. specialize (Hm s).
  destruct (m s) as [[a|e] s1]; simpl in *; [|done].
  eapply same_registry_trans; [exact Hm|apply Hk].
Qed.

Lemma same_registry_emit e s : same_registry s (emit e s).
Proof. by repeat split. Qed.

Lemma same_registry_console `{Runtime} text category s :
  same_registry s (console_msg text category s).
Proof.
  unfold console_msg. destruct (str_truthy text);
    [apply same_registry_emit|apply same_registry_refl].
Qed.

Lemma same_registry_update_info bp_id f s :
  same_registry s (update_info bp_id f s).
Proof.
  unfold update_info. repeat split. simpl. apply dom_alter_L.
Qed.

Lemma same_registry_SetCondition bp_id c s :
  same_registry s (bp_SetCondition bp_id c s).
Proof. unfold bp_SetCondition. repeat split. simpl. apply dom_alter_L. Qed.

Lemma same_registry_SetIgnoreCount bp_id n s :
  same_registry s (bp_SetIgnoreCount bp_id n s).
Proof. unfold bp_SetIgnoreCount. repeat split. simpl. apply dom_alter_L. Qed.

Lemma same_registry_SetScriptCallbackFunction bp_id fn s :
  same_registry s (bp_SetScriptCallbackFunction bp_id fn s).
Proof.
  unfold bp_SetScriptCallbackFunction. repeat split. simpl. apply dom_alter_L.
Qed.

Lemma same_registry_SetEnabled bp_id i b s :
  same_registry s (loc_SetEnabled bp_id i b s).
Proof. unfold loc_SetEnabled. repeat split. simpl. apply dom_alter_L. Qed.

End MonadFacts.

Section SettingsKeepRegistry.
Context `{Runtime} `{Backend}.

Lemma keeps_registry_map_filespec fs : keeps_registry (map_filespec_to_local fs).
Proof.
  intros s. unfold map_filespec_to_local.
  destruct (negb (fs_valid fs)); [apply same_registry_refl|].
  destruct (filespec_cache s !! _); [apply same_registry_refl|].
  assert (same_registry s (map_filespec_to_local_uncached fs s).2) as Hu.
  { unfold map_filespec_to_local_uncached.
    destruct (source_map s), (fullpath fs); by repeat split. }
  destruct (map_filespec_to_local_uncached fs s) as [lp s1]. simpl in *.
  destruct (suppress_missing_sources s1); [destruct (os_path_isfile lp)|];
    simpl; (eapply same_registry_trans; [exact Hu|by repeat split]).
Qed.

Lemma keeps_registry_check_location file_path bp_id il resp :
  keeps_registry (check_location file_path bp_id il resp).
Proof.
  destruct il as [i loc]. unfold check_location.
  apply keeps_registry_bind; [apply keeps_registry_map_filespec|].
  intros [lp|].
  - destruct (same_path lp file_path); [apply keeps_registry_ret|].
    apply keeps_registry_bind; [|intros; apply keeps_registry_ret].
    apply keeps_registry_act. intros s. apply same_registry_SetEnabled.
  - apply keeps_registry_bind; [|intros; apply keeps_registry_ret].
    apply keeps_registry_act. intros s. apply same_registry_SetEnabled.
Qed.

Lemma keeps_registry_check_locations file_path bp_id locs resp :
  keeps_registry (check_locations file_path bp_id locs resp).
Proof.
  revert resp. induction locs as [|l locs IH]; intros resp; simpl.
  - apply keeps_registry_ret.
  - apply keeps_registry_bind; [apply keeps_registry_check_location|].
    intros resp'. apply IH.
Qed.

Lemma keeps_registry_make_python cond :
  keeps_registry (make_python_expression_bpcond cond).
Proof.
  intros s. unfold make_python_expression_bpcond.
  destruct (preprocess_python_expr cond) as [pp|e]; [|apply same_registry_refl].
  destruct (match py_compile pp ModeEval with
            | Some e => if is_syntax_error e
                        then match py_compile pp ModeExec with
                             | Some e' => inl e'
                             | None => inr false
                             end
                        else inl e
            | None => inr true
            end) as [err|b]; simpl;
    [apply same_registry_console|apply same_registry_refl].
Qed.

Lemma keeps_registry_make_simple cond :
  keeps_registry (make_simple_expression_bpcond cond).
Proof.
  intros s. unfold make_simple_expression_bpcond.
  destruct (preprocess_simple_expr cond) as [pp|e]; [|apply same_registry_refl].
  destruct (py_compile pp ModeEval); simpl;
    [apply same_registry_console|apply same_registry_refl].
Qed.

Lemma keeps_registry_update bp_id f : keeps_registry (act (update_info bp_id f)).
Proof. apply keeps_registry_act. intros s. apply same_registry_update_info. Qed.

Lemma keeps_registry_set_bp_condition bp_id req :
  keeps_registry (set_bp_condition bp_id req).
Proof.
  unfold set_bp_condition.
  apply keeps_registry_bind; [apply keeps_registry_gets|]. intros [bp_info|];
    [|apply keeps_registry_raise].
  apply keeps_registry_bind.
  { destruct (has_condition_or_count bp_info); [|apply keeps_registry_ret].
    repeat (apply keeps_registry_bind; [|intros _]);
      try apply keeps_registry_update;
      apply keeps_registry_act; intros s;
      [apply same_registry_SetCondition|apply same_registry_SetScriptCallbackFunction]. }
  intros _. apply keeps_registry_bind.
  { destruct (opt_str_truthy (to_lldb_str <$> sb_condition req));
      [|apply keeps_registry_ret].
    apply keeps_registry_bind; [apply keeps_registry_gets|]. intros [ty cond].
    destruct ty.
    - apply keeps_registry_bind; [apply keeps_registry_make_simple|].
      intros [c|]; [apply keeps_registry_update|apply keeps_registry_ret].
    - apply keeps_registry_bind; [apply keeps_registry_make_python|].
      intros [c|]; [apply keeps_registry_update|apply keeps_registry_ret].
    - apply keeps_registry_act. intros s. apply same_registry_SetCondition. }
  intros _. apply keeps_registry_bind.
  { destruct (opt_str_truthy (sb_hitCondition req)); [|apply keeps_registry_ret].
    destruct (parse_int _).
    - apply keeps_registry_bind; [apply keeps_registry_update|]. intros _.
      apply keeps_registry_act. intros s. apply same_registry_SetIgnoreCount.
    - apply keeps_registry_act. intros s. apply same_registry_console. }
  intros _. apply keeps_registry_bind; [apply keeps_registry_update|]. intros _.
  apply keeps_registry_bind; [apply keeps_registry_gets|]. intros [info|];
    [|apply keeps_registry_ret].
  destruct (_ || _); [|apply keeps_registry_ret].
  apply keeps_registry_act. intros s. apply same_registry_SetScriptCallbackFunction.
Qed.

End SettingsKeepRegistry.

Section RegistryRefinement.
Context `{Runtime} `{Backend}.

Lemma file_bps_of_set file_id m s :
  file_bps_of file_id (set_file_bps file_id m s) = m.
Proof. unfold file_bps_of, set_file_bps. simpl. by rewrite lookup_insert_eq. Qed.

Lemma same_registry_of file_id s s' :
  same_registry s s' → registry_of file_id s' = registry_of file_id s.
Proof.
  intros (Hl & Hb & Ht & Hn). unfold registry_of, file_bps_of.
  by rewrite Hl, Hb, Ht, Hn.
Qed.

Lemma keeps_registry_run {A} (m : M A) s r s' :
  keeps_registry m → m s = (r, s') → same_registry s s'.
Proof. intros Hk Hm. specialize (Hk s). by rewrite Hm in Hk. Qed.

(** One requested line changes the registry as [reconcile_line] says. *)
Lemma set_source_breakpoint_registry file_id file_path req s r s' :
  set_source_breakpoint file_id file_path req s = (Ok r, s') →
  registry_of file_id s' = reconcile_line (registry_of file_id s) (sb_line req).
Proof.
  intros Hrun. unfold set_source_breakpoint in Hrun.
  apply bind_ok in Hrun as (found & s0 & Hg & Hrun).
  unfold gets in Hg. injection Hg as <- <-.
  apply bind_ok in Hrun as ([bp_id resp] & s1 & Hcreate & Hrun).
  apply bind_ok in Hrun as ([] & s2 & Hcond & Hrun).
  apply bind_ok in Hrun as ([] & s3 & Hact & Hrun).
  unfold act in Hact. injection Hact as <-. unfold ret in Hrun. injection Hrun as _ <-.
  pose proof (keeps_registry_run _ _ _ _ (keeps_registry_set_bp_condition bp_id req) Hcond)
    as Hreg2.
  unfold reconcile_line. cbn [rg_index registry_of].
  destruct (truthy_id (file_bps_of file_id s !! sb_line req)) as [id|].
  - unfold ret in Hcreate. injection Hcreate as <- _ <-.
    destruct Hreg2 as (Hl & Hb & Ht & Hn).
    unfold registry_of. rewrite file_bps_of_set. cbn.
    unfold file_bps_of at 1. rewrite Hl. fold (file_bps_of file_id s).
    by rewrite Hb, Ht, Hn.
  - apply bind_ok in Hcreate as (id & sa & Hnew & Hcreate).
    unfold target_BreakpointCreateByLocation in Hnew. injection Hnew as <- <-.
    apply bind_ok in Hcreate as ([] & sb & Hins & Hcreate).
    unfold act in Hins. injection Hins as <-.
    apply bind_ok in Hcreate as (resp' & sc & Hlocs & Hcreate).
    unfold ret in Hcreate. injection Hcreate as <- _ <-.
    pose proof (keeps_registry_run _ _ _ _
                  (keeps_registry_check_locations _ _ _ _) Hlocs) as Hreg1.
    destruct (same_registry_trans _ _ _ Hreg1 Hreg2) as (Hl & Hb & Ht & Hn).
    unfold registry_of. rewrite file_bps_of_set. cbn.
    unfold file_bps_of at 1. rewrite Hl. cbn. fold (file_bps_of file_id s).
    rewrite Hb, Ht, Hn. cbn. by rewrite !dom_insert_L.
Qed.

Lemma set_source_breakpoints_registry file_id req_bps file_path s result s' :
  set_source_breakpoints file_id req_bps file_path s = (Ok result, s') →
  registry_of file_id s'
  = fold_left reconcile_line (map sb_line req_bps) (registry_of file_id s).
Proof.
  revert s result. induction req_bps as [|req rest IH]; intros s result Hrun.
  - injection Hrun as _ <-. done.
  - simpl in Hrun.
    apply bind_ok in Hrun as (r & s1 & Hone & Hrun).
    apply bind_ok in Hrun as (rs & s2 & Hrest & Hrun).
    injection Hrun as _ <-. simpl.
    rewrite (IH _ _ Hrest). by rewrite (set_source_breakpoint_registry _ _ _ _ _ _ Hone).
Qed.

Lemma clear_removed_registry file_id lines item s s' :
  clear_removed file_id lines item s = (Ok tt, s') →
  registry_of file_id s' = clear_line lines (registry_of file_id s) item.
Proof.
  destruct item as [line bp_id]. unfold clear_removed, clear_line. cbn [fst snd].
  destruct (bool_decide (line ∈ lines)).
  - intros [= <-]. done.
  - intros Hrun.
    apply bind_ok in Hrun as ([] & s1 & Hdel & Hrun). injection Hdel as <-.
    apply bind_ok in Hrun as ([] & s2 & Hidx & Hrun). injection Hidx as <-.
    apply bind_ok in Hrun as (known & s3 & Hk & Hrun). injection Hk as <- <-.
    destruct (breakpoints _ !! bp_id) eqn:E; [|done].
    injection Hrun as <-.
    unfold registry_of. cbn. rewrite !dom_delete_L.
    f_equal. unfold file_bps_of at 1. cbn. by rewrite lookup_insert_eq.
Qed.

Lemma for_each_clear_registry file_id lines items s s' :
  for_each (clear_removed file_id lines) items s = (Ok tt, s') →
  registry_of file_id s'
  = fold_left (clear_line lines) items (registry_of file_id s).
Proof.
  revert s. induction items as [|item items IH]; intros s Hrun.
  - injection Hrun as <-. done.
  - simpl in Hrun. apply bind_ok in Hrun as ([] & s1 & Hone & Hrun).
    simpl. rewrite (IH _ Hrun). by rewrite (clear_removed_registry _ _ _ _ _ Hone).
Qed.

(** A pass that returns changes the registry of the file as [reconcile]
    says. *)
Lemma DEBUG_setBreakpoints_registry args s resp s' :
  noDebug (launch_args s) = false →
  DEBUG_setBreakpoints args s = (Ok resp, s') →
  let file_id := normcase (from_lldb_str (sbp_path args)) in
  registry_of file_id s'
  = reconcile (map sb_line (sbp_breakpoints args)) (registry_of file_id s).
Proof.
  intros Hnd Hrun file_id. unfold DEBUG_setBreakpoints in Hrun.
  apply bind_ok in Hrun as (nd & s0 & Hg & Hrun). injection Hg as <- <-.
  rewrite Hnd in Hrun. unfold try_finally in Hrun.
  fold file_id in Hrun.
  destruct (bind (act (emit DisableBpEvents)) _ s) as [r sf] eqn:Hbody.
  injection Hrun as -> <-.
  apply bind_ok in Hbody as ([] & s1 & Hdis & Hbody). injection Hdis as <-.
  apply bind_ok in Hbody as ([] & s2 & Hdef & Hbody). injection Hdef as <-.
  apply bind_ok in Hbody as (fb & s3 & Hfb & Hbody). injection Hfb as <- <-.
  apply bind_ok in Hbody as ([] & s4 & Hclear & Hbody).
  apply bind_ok in Hbody as (result & s5 & Hset & Hbody). injection Hbody as _ <-.
  transitivity (registry_of file_id s5); [done|].
  rewrite (set_source_breakpoints_registry _ _ _ _ _ _ Hset).
  rewrite (for_each_clear_registry _ _ _ _ _ Hclear).
  unfold reconcile. rewrite !file_bps_of_set.
  assert (registry_of file_id
            (set_file_bps file_id (file_bps_of file_id (emit DisableBpEvents s))
               (emit DisableBpEvents s)) = registry_of file_id s) as ->.
  { unfold registry_of. by rewrite file_bps_of_set. }
  done.
Qed.

End RegistryRefinement.

Section RegistryFacts.

Implicit Types (r : Registry) (lines : list Z) (items : list (Z * Z)).

Lemma clear_fold_spec lines items r :
  let r1 := fold_left (clear_line lines) items r in
  (∀ l, l ∈ lines → rg_index r1 !! l = rg_index r !! l)
  ∧ (∀ l, l ∉ lines → l ∈ items.*1 → rg_index r1 !! l = None)
  ∧ (∀ l, l ∉ items.*1 → rg_index r1 !! l = rg_index r !! l)
  ∧ (∀ id, id ∈ rg_infos r1 ↔ id ∈ rg_infos r ∧ ∀ l, (l, id) ∈ items → l ∈ lines)
  ∧ (∀ id, id ∈ rg_backend r1 ↔ id ∈ rg_backend r ∧ ∀ l, (l, id) ∈ items → l ∈ lines)
  ∧ rg_next r1 = rg_next r.
Proof.
  revert r. induction items as [|[l0 id0] items IH]; intros r; simpl.
  - split_and!; try done; intros; set_solver.
  - destruct (IH (clear_line lines r (l0, id0)))
      as (Hin & Hout & Hkeep & Hinfos & Hback & Hnext).
    unfold clear_line in *. cbn [fst snd] in *.
    destruct (bool_decide_reflect (l0 ∈ lines)) as [Hl0|Hl0].
    + split_and!.
      * done.
      * intros l Hl Hmem. apply elem_of_cons in Hmem as [->|Hmem]; [done|].
        by apply Hout.
      * intros l Hl. apply not_elem_of_cons in Hl as [_ Hl]. by apply Hkeep.
      * intros id. rewrite Hinfos. split; intros [Hid Hall]; (split; [done|]).
        -- intros l Hl. apply elem_of_cons in Hl as [[= -> ->]|Hl]; [done|].
           by apply Hall.
        -- intros l Hl. apply Hall. by right.
      * intros id. rewrite Hback. split; intros [Hid Hall]; (split; [done|]).
        -- intros l Hl. apply elem_of_cons in Hl as [[= -> ->]|Hl]; [done|].
           by apply Hall.
        -- intros l Hl. apply Hall. by right.
      * done.
    + cbn in *. split_and!.
      * intros l Hl. rewrite (Hin l Hl). apply lookup_delete_ne. by intros ->.
      * intros l Hl Hmem.
        destruct (decide (l ∈ items.*1)) as [Hi|Hi]; [by apply Hout|].
        rewrite (Hkeep l Hi).
        apply elem_of_cons in Hmem as [->|Hmem]; [apply lookup_delete_eq|done].
      * intros l Hl. apply not_elem_of_cons in Hl as [Hne Hl].
        rewrite (Hkeep l Hl). by apply lookup_delete_ne.
      * intros id. rewrite Hinfos. split; intros [Hid Hall].
        -- split; [set_solver|].
           intros l Hl. apply elem_of_cons in Hl as [[= -> ->]|Hl]; [set_solver|].
           by apply Hall.
        -- split.
           ++ apply elem_of_difference. split; [done|].
              intros Heq. apply elem_of_singleton in Heq as ->.
              apply Hl0, Hall. by left.
           ++ intros l Hl. apply Hall. by right.
      * intros id. rewrite Hback. split; intros [Hid Hall].
        -- split; [set_solver|].
           intros l Hl. apply elem_of_cons in Hl as [[= -> ->]|Hl]; [set_solver|].
           by apply Hall.
        -- split.
           ++ apply elem_of_difference. split; [done|].
              intros Heq. apply elem_of_singleton in Heq as ->.
              apply Hl0, Hall. by left.
           ++ intros l Hl. apply Hall. by right.
      * done.
Qed.

Lemma truthy_id_Some (found : option Z) (id : Z) :
  truthy_id found = Some id ↔ found = Some id ∧ id ≠ 0.
Proof.
  unfold truthy_id. destruct found as [x|]; [|naive_solver].
  destruct (Z.eqb_spec x 0); simpl; naive_solver.
Qed.

Lemma truthy_id_inv r l :
  registry_inv r → truthy_id (rg_index r !! l) = rg_index r !! l.
Proof.
  intros (Hidx & _). destruct (rg_index r !! l) as [id|] eqn:E; [|done].
  destruct (Hidx l id E) as (Hnz & _). simpl.
  by destruct (Z.eqb_spec id 0).
Qed.

(** Clearing the entries that left the request keeps the registry well
    formed. *)
Lemma clear_inv lines r :
  registry_inv r →
  registry_inv (fold_left (clear_line lines) (map_to_list (rg_index r)) r).
Proof.
  intros (Hidx & Hinj & Hpos & Hinfos & Hback).
  destruct (clear_fold_spec lines (map_to_list (rg_index r)) r)
    as (Hin & Hout & Hkeep & Hi & Hb & Hn).
  set (r1 := fold_left (clear_line lines) (map_to_list (rg_index r)) r) in *.
  assert (∀ l id, rg_index r1 !! l = Some id →
                  l ∈ lines ∧ rg_index r !! l = Some id) as Hsub.
  { intros l id Hl. destruct (decide (l ∈ lines)) as [Hmem|Hmem].
    - split; [done|]. by rewrite <- (Hin l Hmem).
    - destruct (decide (l ∈ (map_to_list (rg_index r)).*1)) as [Hd|Hd].
      + by rewrite (Hout l Hmem Hd) in Hl.
      + rewrite (Hkeep l Hd) in Hl. exfalso. apply Hd.
        apply list_elem_of_fmap. exists (l, id). split; [done|].
        by apply elem_of_map_to_list. }
  split_and!.
  - intros l id Hl. destruct (Hsub l id Hl) as [Hmem Hold].
    destruct (Hidx l id Hold) as (Hnz & Hlt & Hinf & Hbk).
    rewrite Hn. split_and!; [done|done|apply Hi|apply Hb];
      (split; [done|]); intros l' Hl'; apply elem_of_map_to_list in Hl';
      by rewrite (Hinj l' l id Hl' Hold).
  - intros l1 l2 id H1 H2. destruct (Hsub _ _ H1), (Hsub _ _ H2). eauto.
  - by rewrite Hn.
  - intros id Hid. rewrite Hn. apply Hinfos. by apply Hi in Hid as [? _].
  - intros id Hid. rewrite Hn. apply Hback. by apply Hb in Hid as [? _].
Qed.

(** One requested line keeps the registry well formed. *)
Lemma reconcile_line_inv r line :
  registry_inv r → registry_inv (reconcile_line r line).
Proof.
  intros Hinv. pose proof Hinv as (Hidx & Hinj & Hpos & Hinfos & Hback).
  unfold reconcile_line. rewrite (truthy_id_inv _ _ Hinv).
  destruct (rg_index r !! line) as [id|] eqn:E.
  - rewrite insert_id by done. by destruct r.
  - unfold registry_inv. cbn [rg_index rg_infos rg_backend rg_next]. split_and!.
    + intros l id Hl. destruct (decide (line = l)) as [->|Hne].
      * rewrite lookup_insert_eq in Hl. injection Hl as <-.
        split_and!; [lia|lia|set_solver|set_solver].
      * rewrite lookup_insert_ne in Hl by done.
        destruct (Hidx l id Hl) as (? & ? & ? & ?).
        split_and!; [done|lia|set_solver|set_solver].
    + intros l1 l2 id H1 H2.
      destruct (decide (l1 = line)) as [->|Hne1];
        destruct (decide (l2 = line)) as [->|Hne2]; try done.
      * rewrite lookup_insert_eq in H1. injection H1 as <-.
        rewrite lookup_insert_ne in H2 by done.
        destruct (Hidx l2 _ H2) as (? & ? & ? & ?). lia.
      * rewrite lookup_insert_eq in H2. injection H2 as <-.
        rewrite lookup_insert_ne in H1 by done.
        destruct (Hidx l1 _ H1) as (? & ? & ? & ?). lia.
      * rewrite lookup_insert_ne in H1, H2 by done. eauto.
    + lia.
    + intros id Hid. apply elem_of_union in Hid as [Hid|Hid].
      * apply elem_of_singleton in Hid as ->. lia.
      * apply Hinfos in Hid. lia.
    + intros id Hid. apply elem_of_union in Hid as [Hid|Hid].
      * apply elem_of_singleton in Hid as ->. lia.
      * apply Hback in Hid. lia.
Qed.

(** What the loop over the requested lines does to a well-formed registry:
    entries persist, every requested line is indexed, a line that was not
    indexed gets an id the backend had not handed out, and ids are only
    added. *)
Lemma reconcile_fold_spec lines r :
  registry_inv r →
  let r' := fold_left reconcile_line lines r in
  registry_inv r'
  ∧ (∀ l id, rg_index r !! l = Some id → rg_index r' !! l = Some id)
  ∧ (∀ l, l ∈ lines → is_Some (rg_index r' !! l))
  ∧ (∀ l id, rg_index r' !! l = Some id →
             rg_index r !! l = Some id
             ∨ (l ∈ lines ∧ rg_index r !! l = None ∧ rg_next r ≤ id))
  ∧ (∀ id, id ∈ rg_infos r' → id ∈ rg_infos r ∨ rg_next r ≤ id)
  ∧ (∀ id, id ∈ rg_backend r' → id ∈ rg_backend r ∨ rg_next r ≤ id)
  ∧ rg_next r ≤ rg_next r'.
Proof.
  revert r. induction lines as [|line lines IH]; intros r Hinv; simpl.
  - split_and!; try done; try (intros; by left); try lia.
    intros l Hl. by apply elem_of_nil in Hl.
  - pose proof (reconcile_line_inv r line Hinv) as Hinv1.
    destruct (IH _ Hinv1) as (Hinv' & Hkeep & Hall & Hnew & Hinfos & Hback & Hnext).
    set (r' := fold_left reconcile_line lines (reconcile_line r line)) in *.
    assert ((∀ id, rg_index r !! line = Some id →
                   rg_index (reconcile_line r line) = rg_index r)
            ∧ (rg_index r !! line = None →
               rg_index (reconcile_line r line) = <[line := rg_next r]> (rg_index r))
            ∧ rg_next r ≤ rg_next (reconcile_line r line)
            ∧ (∀ id, id ∈ rg_infos (reconcile_line r line) →
                     id ∈ rg_infos r ∨ rg_next r ≤ id)
            ∧ (∀ id, id ∈ rg_backend (reconcile_line r line) →
                     id ∈ rg_backend r ∨ rg_next r ≤ id))
      as (Hsome & Hnone & Hn1 & Hi1 & Hb1).
    { unfold reconcile_line. rewrite (truthy_id_inv _ _ Hinv).
      destruct (rg_index r !! line) as [id|] eqn:E;
        cbn [rg_index rg_infos rg_backend rg_next].
      - rewrite insert_id by done. split_and!; [done|done|lia|by left|by left].
      - split_and!; [done|done|lia| |]; intros id Hid;
          apply elem_of_union in Hid as [Hid|Hid];
          try (apply elem_of_singleton in Hid as ->; right; lia); by left. }
    split_and!.
    + done.
    + intros l id Hl. apply Hkeep.
      destruct (rg_index r !! line) as [x|] eqn:E.
      * by rewrite (Hsome x).
      * rewrite Hnone by done. rewrite lookup_insert_ne; [done|].
        intros ->. congruence.
    + intros l Hl. apply elem_of_cons in Hl as [->|Hl]; [|by apply Hall].
      destruct (rg_index r !! line) as [x|] eqn:E.
      * exists x. apply Hkeep. by rewrite (Hsome x).
      * exists (rg_next r). apply Hkeep. rewrite Hnone by done.
        apply lookup_insert_eq.
    + intros l id Hl. destruct (Hnew l id Hl) as [Hold|(Hmem & Hno & Hge)].
      * destruct (rg_index r !! line) as [x|] eqn:E.
        -- rewrite (Hsome x) in Hold by done. by left.
        -- rewrite Hnone in Hold by done.
           destruct (decide (line = l)) as [->|Hne].
           ++ rewrite lookup_insert_eq in Hold. injection Hold as <-.
              right. split_and!; [by left|done|lia].
           ++ rewrite lookup_insert_ne in Hold by done. by left.
      * right. destruct (rg_index r !! line) as [x|] eqn:E.
        -- rewrite (Hsome x) in Hno by done. split_and!; [by right|done|lia].
        -- rewrite Hnone in Hno by done.
           destruct (decide (line = l)) as [->|Hne].
           ++ by rewrite lookup_insert_eq in Hno.
           ++ rewrite lookup_insert_ne in Hno by done.
              split_and!; [by right|done|lia].
    + intros id Hid. destruct (Hinfos id Hid) as [Hin|Hge]; [|right; lia].
      destruct (Hi1 id Hin); [by left|by right].
    + intros id Hid. destruct (Hback id Hid) as [Hin|Hge]; [|right; lia].
      destruct (Hb1 id Hin); [by left|by right].
    + lia.
Qed.

End RegistryFacts.

(** Reconciliation of the line breakpoints of a source file, for a pass
    that returns on a well-formed registry: a requested line that was
    indexed keeps its id, with its BreakpointInfo and its backend
    breakpoint (an id handed out before the pass); the id of a line that
    left the request is deleted from the backend and loses its
    BreakpointInfo; a requested line that was not indexed gets the id of a
    backend breakpoint created in this pass, with a BreakpointInfo; the
    index then holds the requested lines exactly. *)
Lemma source_breakpoints_reconciled `{Runtime} `{Backend}
    (args : SetBreakpointsArgs) (s s' : Session) (resp : option Dict) :
  let file_id := normcase (from_lldb_str (sbp_path args)) in
  let lines := map sb_line (sbp_breakpoints args) in
  let old := file_bps_of file_id s in
  let new := file_bps_of file_id s' in
  noDebug (launch_args s) = false →
  registry_inv (registry_of file_id s) →
  DEBUG_setBreakpoints args s = (Ok resp, s') →
  (∀ l id, old !! l = Some id → l ∈ lines →
      new !! l = Some id
      ∧ is_Some (breakpoints s' !! id)
      ∧ is_Some (tg_breakpoints (target s') !! id)
      ∧ id < tg_next_id (target s))
  ∧ (∀ l id, old !! l = Some id → l ∉ lines →
      new !! l = None
      ∧ breakpoints s' !! id = None
      ∧ tg_breakpoints (target s') !! id = None)
  ∧ (∀ l, old !! l = None → l ∈ lines →
      ∃ id, new !! l = Some id
            ∧ tg_next_id (target s) ≤ id
            ∧ tg_breakpoints (target s) !! id = None
            ∧ is_Some (breakpoints s' !! id)
            ∧ is_Some (tg_breakpoints (target s') !! id))
  ∧ (∀ l, is_Some (new !! l) ↔ l ∈ lines)
  ∧ registry_inv (registry_of file_id s').
Proof.
  intros file_id lines old new Hnd Hinv Hrun.
  pose proof (DEBUG_setBreakpoints_registry args s resp s' Hnd Hrun) as Hreg.
  cbv zeta in Hreg. fold file_id lines in Hreg.
  set (R := registry_of file_id s) in *.
  set (R' := registry_of file_id s') in *.
  unfold reconcile in Hreg.
  destruct (clear_fold_spec lines (map_to_list (rg_index R)) R)
    as (Cin & Cout & Ckeep & Cinfos & Cback & Cnext).
  pose proof (clear_inv lines R Hinv) as Hinv1.
  set (R1 := fold_left (clear_line lines) (map_to_list (rg_index R)) R) in *.
  destruct (reconcile_fold_spec lines R1 Hinv1)
    as (Hinv' & Fkeep & Fall & Fnew & Finfos & Fback & Fnext).
  cbv zeta in Hinv', Fkeep, Fall, Fnew, Finfos, Fback, Fnext.
  rewrite <- Hreg in Hinv', Fkeep, Fall, Fnew, Finfos, Fback, Fnext.
  pose proof Hinv as (Hidx & Hinj & Hpos & Hinfos & Hback).
  pose proof Hinv' as (Hidx' & _).
  assert (∀ l, l ∉ lines → rg_index R1 !! l = None) as Cgone.
  { intros l Hl. destruct (decide (l ∈ (map_to_list (rg_index R)).*1)) as [Hd|Hd];
      [by apply Cout|].
    rewrite (Ckeep l Hd). destruct (rg_index R !! l) as [id|] eqn:E; [|done].
    exfalso. apply Hd. apply list_elem_of_fmap. exists (l, id).
    split; [done|]. by apply elem_of_map_to_list. }
  change old with (rg_index R). change new with (rg_index R').
  assert (∀ id, is_Some (breakpoints s' !! id) ↔ id ∈ rg_infos R') as Hdom_info
    by (intros; symmetry; apply elem_of_dom).
  assert (∀ id, is_Some (tg_breakpoints (target s') !! id) ↔ id ∈ rg_backend R')
    as Hdom_back by (intros; symmetry; apply elem_of_dom).
  split_and!.
  - intros l id Hold Hl.
    assert (rg_index R' !! l = Some id) as Hnew'
      by (apply Fkeep; by rewrite (Cin l Hl)).
    destruct (Hidx' l id Hnew') as (_ & _ & Hi & Hb).
    destruct (Hidx l id Hold) as (_ & Hlt & _).
    split_and!; [done|by apply Hdom_info|by apply Hdom_back|done].
  - intros l id Hold Hl.
    destruct (Hidx l id Hold) as (_ & Hlt & _).
    assert ((id ∉ rg_infos R1) ∧ (id ∉ rg_backend R1)) as [Hni Hnb].
    { split; [rewrite Cinfos|rewrite Cback]; intros [_ Hall];
        apply Hl, Hall; by apply elem_of_map_to_list. }
    split_and!.
    + destruct (rg_index R' !! l) as [id'|] eqn:E; [|done].
      destruct (Fnew l id' E) as [Hin|(Hin & _)]; [|done].
      by rewrite (Cgone l Hl) in Hin.
    + apply eq_None_not_Some. rewrite Hdom_info. intros Hin.
      destruct (Finfos id Hin) as [?|Hge]; [done|]. rewrite Cnext in Hge. lia.
    + apply eq_None_not_Some. rewrite Hdom_back. intros Hin.
      destruct (Fback id Hin) as [?|Hge]; [done|]. rewrite Cnext in Hge. lia.
  - intros l Hold Hl. destruct (Fall l Hl) as [id Hnew'].
    exists id. destruct (Hidx' l id Hnew') as (_ & _ & Hi & Hb).
    destruct (Fnew l id Hnew') as [Hin|(_ & _ & Hge)].
    { rewrite (Cin l Hl) in Hin. congruence. }
    rewrite Cnext in Hge.
    split_and!; [done|done| |by apply Hdom_info|by apply Hdom_back].
    apply eq_None_not_Some. intros Hsome. apply elem_of_dom in Hsome.
    apply Hback in Hsome. unfold R in Hsome, Hge. cbn in Hsome, Hge. lia.
  - intros l. split.
    + intros [id Hnew']. destruct (Fnew l id Hnew') as [Hin|(Hin & _)]; [|done].
      destruct (decide (l ∈ lines)) as [|Hl]; [done|].
      by rewrite (Cgone l Hl) in Hin.
    + apply Fall.
  - done.
Qed.

(** A session that set no breakpoint yet has a well-formed registry. *)
Lemma registry_inv_init (file_id : string) (b : bool) (args : LaunchArgs) :
  registry_inv (registry_of file_id (init_session b args)).
Proof.
  unfold registry_inv, registry_of, file_bps_of. cbn.
  split_and!; try done; try lia; intros; set_solver.
Qed.

(** The scenario of the spec: the file had lines 10 and 15, the request
    asks for 10 and 20.  The backend sees one delete (breakpoint 2, of line
    15) and one create (breakpoint 3, for line 20); line 10 keeps id 1. *)
Example lines_10_15_then_10_20 :
  let setbp := @DEBUG_setBreakpoints Examples.runtime Examples.backend in
  let pass1 := setbp Examples.request_10_15 Examples.session_mapped in
  let pass2 := setbp Examples.request_10_20 pass1.2 in
  map_to_list (file_bps_of Examples.main_c pass1.2) = [(15, 2); (10, 1)]
  ∧ pass2.1
    = Ok (Some
            [("breakpoints",
              JArr [JObj [("id", JInt 1); ("verified", JBool true)];
                    JObj [("id", JInt 3);
                          ("source", JObj [("name", JStr "main.c");
                                           ("path", JStr "/home/dev/proj/main.c")]);
                          ("line", JInt 20); ("verified", JBool true)]])])
  ∧ trace pass2.2
    = trace pass1.2 ++ [DisableBpEvents; BreakpointDelete 2;
                        BreakpointCreateByLocation "main.c" 20 3; EnableBpEvents]
  ∧ file_bps_of Examples.main_c pass2.2 !! 10 = Some 1
  ∧ file_bps_of Examples.main_c pass2.2 !! 15 = None
  ∧ file_bps_of Examples.main_c pass2.2 !! 20 = Some 3
  ∧ breakpoints pass2.2 !! 2 = None.
Proof. vm_compute. repeat split. Qed.

(** The general statement applies to the two passes of that scenario. *)
Example lines_10_15_then_10_20_reconciled :
  let setbp := @DEBUG_setBreakpoints Examples.runtime Examples.backend in
  let pass1 := setbp Examples.request_10_15 Examples.session_mapped in
  let pass2 := setbp Examples.request_10_20 pass1.2 in
  ∀ l, is_Some (file_bps_of Examples.main_c pass2.2 !! l) ↔ l ∈ [10; 20].
Proof.
  intros setbp pass1 pass2.
  assert (∃ resp, setbp Examples.request_10_15 Examples.session_mapped
                  = (Ok resp, pass1.2)) as [resp1 Hrun1]
    by (eexists; vm_compute; reflexivity).
  assert (∃ resp, setbp Examples.request_10_20 pass1.2 = (Ok resp, pass2.2))
    as [resp2 Hrun2] by (eexists; vm_compute; reflexivity).
  destruct (@source_breakpoints_reconciled Examples.runtime Examples.backend
              Examples.request_10_15 Examples.session_mapped pass1.2 resp1
              eq_refl (registry_inv_init _ _ _) Hrun1)
    as (_ & _ & _ & _ & Hinv1).
  destruct (@source_breakpoints_reconciled Examples.runtime Examples.backend
              Examples.request_10_20 pass1.2 pass2.2 resp2
              eq_refl Hinv1 Hrun2)
    as (_ & _ & _ & Hdom & _).
  exact Hdom.
Qed.

(** The defect in general: on a breakpoint whose BreakpointInfo holds no
    compiled condition and no ignore count, a request without condition and
    without hit count leaves the condition and the ignore count of the
    backend breakpoint as they were. *)
Lemma bare_request_keeps_backend_settings `{Runtime} `{Backend} (s : Session)
    (bp_id : Z) (bp_info : BreakpointInfo) (req : SourceBreakpoint) :
  breakpoints s !! bp_id = Some bp_info →
  has_condition_or_count bp_info = false →
  sb_condition req = None →
  sb_hitCondition req = None →
  ∃ s', set_bp_condition bp_id req s = (Ok tt, s')
        ∧ (bp_condition <$> tg_breakpoints (target s') !! bp_id)
          = (bp_condition <$> tg_breakpoints (target s) !! bp_id)
        ∧ (bp_ignore_count <$> tg_breakpoints (target s') !! bp_id)
          = (bp_ignore_count <$> tg_breakpoints (target s) !! bp_id)
        ∧ (log_message <$> breakpoints s' !! bp_id) = Some (sb_logMessage req).
Proof.
  intros Hb Hclean Hc Hh.
  unfold set_bp_condition, bind, gets, act, ret. rewrite Hb, Hclean, Hc, Hh. cbn.
  unfold update_info at 1. cbn. rewrite lookup_alter_eq, Hb. cbn.
  assert (has_condition_or_count (info_with_log_message (sb_logMessage req) bp_info)
          = false) as -> by (by destruct bp_info).
  cbn. destruct (opt_str_truthy (sb_logMessage req)).
  - eexists. split; [reflexivity|]. cbn.
    rewrite !lookup_alter_eq, Hb.
    split_and!; try done; by destruct (tg_breakpoints (target s) !! bp_id).
  - eexists. split; [reflexivity|]. cbn. by rewrite lookup_alter_eq, Hb.
Qed.

(** C1: line 10 is set with the native condition [x > 1] (or with the hit
    count 5), then requested again with no condition and no hit count.  The
    second pass reuses breakpoint 1 and re-applies nothing to it: it makes
    no call on the backend breakpoint, whose condition is still [x > 1]
    (whose ignore count is still 5) although the BreakpointInfo and the
    request carry none. *)
Theorem removed_native_condition_survives :
  let setbp := @DEBUG_setBreakpoints Examples.runtime Examples.backend in
  let pass1 := setbp Examples.request_10_native Examples.session_mapped in
  let pass2 := setbp Examples.request_10_bare pass1.2 in
  let hits1 := setbp Examples.request_10_hits Examples.session_mapped in
  let hits2 := setbp Examples.request_10_bare hits1.2 in
  file_bps_of Examples.main_c pass1.2 !! 10 = Some 1
  ∧ (bp_condition <$> tg_breakpoints (target pass1.2) !! 1) = Some (Some "x > 1")
  ∧ sb_condition <$> sbp_breakpoints Examples.request_10_bare = [None]
  ∧ pass2.1 = Ok (Some [("breakpoints",
                         JArr [JObj [("id", JInt 1); ("verified", JBool true)]])])
  ∧ file_bps_of Examples.main_c pass2.2 !! 10 = Some 1
  ∧ trace pass2.2 = trace pass1.2 ++ [DisableBpEvents; EnableBpEvents]
  ∧ (condition <$> breakpoints pass2.2 !! 1) = Some None
  ∧ (bp_condition <$> tg_breakpoints (target pass2.2) !! 1) = Some (Some "x > 1")
  ∧ (bp_ignore_count <$> tg_breakpoints (target hits1.2) !! 1) = Some 5
  ∧ sb_hitCondition <$> sbp_breakpoints Examples.request_10_bare = [None]
  ∧ (ignore_count <$> breakpoints hits2.2 !! 1) = Some 0
  ∧ (bp_ignore_count <$> tg_breakpoints (target hits2.2) !! 1) = Some 5.
Proof. vm_compute. repeat split. Qed.


(** * Properties of the further parts *)

(** ** The cache of the source locator *)

Section LocatorCache.
Context `{Runtime}.

Lemma lookup_caches_result (fs : SBFileSpec) (s s' : Session) (r : option string) :
  fs_valid fs = true →
  map_filespec_to_local fs s = (Ok r, s') →
  filespec_cache s' !! (fs_directory fs, fs_filename fs) = Some r.
Proof.
  intros Hv. unfold map_filespec_to_local. rewrite Hv. cbn [negb].
  destruct (filespec_cache s !! _) as [c|] eqn:E.
  - intros [= <- <-]. done.
  - destruct (map_filespec_to_local_uncached fs s) as [lp s1].
    destruct (suppress_missing_sources _).
    + destruct (os_path_isfile lp) as [b|e]; [|done].
      intros [= <- <-]. cbn. apply lookup_insert_eq.
    + intros [= <- <-]. cbn. apply lookup_insert_eq.
Qed.

(** While missing sources are suppressed, a lookup that returns a path
    returns the path of an existing file, and keeps the cache free of other
    paths. *)
Theorem suppressed_lookup_returns_existing_file (fs : SBFileSpec) (s s' : Session)
    (r : option string) :
  suppress_missing_sources s = true →
  cache_sound s →
  map_filespec_to_local fs s = (Ok r, s') →
  (∀ p, r = Some p → isfile p = true) ∧ cache_sound s'.
Proof.
  intros Hsup Hsound. unfold map_filespec_to_local.
  destruct (negb (fs_valid fs)); [intros [= <- <-]; done|].
  destruct (filespec_cache s !! _) as [c|] eqn:E.
  - intros [= <- <-]. split; [|done]. intros p ->. by eapply Hsound.
  - destruct (uncached_keeps_cache fs s) as [Hc Hs].
    destruct (map_filespec_to_local_uncached fs s) as [lp s1]. cbn in Hc, Hs.
    cbn [emit with_trace suppress_missing_sources]. rewrite Hs, Hsup.
    destruct lp as [p0|]; [|done]. cbn.
    destruct (isfile p0) eqn:Hfile; cbn; intros [= <- <-].
    + split; [by intros p [= <-]|].
      intros key p. cbn. rewrite Hc.
      destruct (decide ((fs_directory fs, fs_filename fs) = key)) as [<-|Hne].
      * rewrite lookup_insert_eq. by intros [= <-].
      * rewrite lookup_insert_ne by done. apply Hsound.
    + split; [done|].
      intros key p. cbn. rewrite Hc.
      destruct (decide ((fs_directory fs, fs_filename fs) = key)) as [<-|Hne].
      * by rewrite lookup_insert_eq.
      * rewrite lookup_insert_ne by done. apply Hsound.
Qed.

End LocatorCache.

(** ** What requests and hits leave alone *)

Section Preservation.

#[global] Instance undisturbed_preorder : PreOrder undisturbed.
Proof.
  split.
  - intros s. unfold undisturbed. split_and!; try done.
    exists []. by rewrite app_nil_r.
  - intros s1 s2 s3 (?&?&?&?&?&?&?&?&?&a1&Ht1&Hf1) (?&?&?&?&?&?&?&?&?&a2&Ht2&Hf2).
    unfold undisturbed. split_and!; try congruence.
    exists (a1 ++ a2). rewrite Ht2, Ht1, app_assoc. split; [done|].
    by apply Forall_app.
Qed.

#[global] Instance untouched_preorder : PreOrder untouched.
Proof.
  split.
  - intros s. by split.
  - intros s1 s2 s3 (H1 & ? & ?) (H2 & ? & ?). split_and!; try congruence.
    by transitivity s2.
Qed.

#[global] Instance same_registry_preorder : PreOrder same_registry.
Proof.
  split; [intros s; apply same_registry_refl|intros ???; apply same_registry_trans].
Qed.

Context {R : Session → Session → Prop} `{!PreOrder R}.

Lemma preserves_ret {A} (a : A) : preserves R (ret a).
Proof. intros s. reflexivity. Qed.

Lemma preserves_raise {A} (e : Exn) : preserves R (@raise A e).
Proof. intros s. reflexivity. Qed.

Lemma preserves_gets {A} (f : Session → A) : preserves R (gets f).
Proof. intros s. reflexivity. Qed.

Lemma preserves_act (f : Session → Session) :
  (∀ s, R s (f s)) → preserves R (act f).
Proof. intros Hf s. apply Hf. Qed.

Lemma preserves_bind {A B} (m : M A) (k : A → M B) :
  preserves R m → (∀ a, preserves R (k a)) → preserves R (bind m k).
Proof.
  intros Hm Hk s. unfold bind. specialize (Hm s).
  destruct (m s) as [[a|e] s1]; simpl in *; [|done].
  etransitivity; [exact Hm|apply Hk].
Qed.

Lemma preserves_for_each {A} (f : A → M unit) (l : list A) :
  (∀ a, preserves R (f a)) → preserves R (for_each f l).
Proof.
  intros Hf. induction l as [|a l IH]; simpl.
  - apply preserves_ret.
  - apply preserves_bind; [apply Hf|]. intros _. apply IH.
Qed.

Lemma preserves_run {A} (m : M A) s r s' :
  preserves R m → m s = (r, s') → R s s'.
Proof. intros Hm Hrun. specialize (Hm s). by rewrite Hrun in Hm. Qed.

End Preservation.

Ltac quiet_step :=
  unfold untouched, undisturbed; cbn; rewrite <- ?app_assoc; split_and?;
  try done;
  try (exists []; by rewrite app_nil_r);
  try (eexists; split; [reflexivity|]; by repeat (constructor; try done)).

Section Primitives.
Context `{Runtime} `{Backend}.

Lemma untouched_undisturbed s s' : untouched s s' → undisturbed s s'.
Proof. by intros [? _]. Qed.

Lemma preserves_weaken {A} (m : M A) :
  preserves untouched m → preserves undisturbed m.
Proof. intros Hm s. apply untouched_undisturbed, Hm. Qed.

Lemma untouched_emit e s : not_bp_toggle e → untouched s (emit e s).
Proof.
  intros He. unfold untouched, undisturbed. cbn. split_and!; try done.
  exists [e]. split; [done|]. by constructor.
Qed.

Lemma untouched_console text category s :
  untouched s (console_msg text category s).
Proof.
  unfold console_msg. destruct (str_truthy text); [|reflexivity].
  apply untouched_emit. by split.
Qed.

Lemma untouched_set_selected_frame frame s :
  untouched s (set_selected_frame frame s).
Proof.
  unfold set_selected_frame. cbn.
  destruct (process s) as [p|]; [destruct (GetThreadByID _ p)|]; quiet_step.
Qed.

Lemma untouched_SetIgnoreCount bp_id n s :
  untouched s (bp_SetIgnoreCount bp_id n s).
Proof. unfold bp_SetIgnoreCount. quiet_step. Qed.

Lemma untouched_SetCondition bp_id c s :
  untouched s (bp_SetCondition bp_id c s).
Proof. unfold bp_SetCondition. quiet_step. Qed.

Lemma untouched_SetScriptCallbackFunction bp_id fn s :
  untouched s (bp_SetScriptCallbackFunction bp_id fn s).
Proof. unfold bp_SetScriptCallbackFunction. quiet_step. Qed.

Lemma untouched_SetEnabled bp_id i b s :
  untouched s (loc_SetEnabled bp_id i b s).
Proof. unfold loc_SetEnabled. quiet_step. Qed.

Lemma untouched_evaluate_expr_in_frame expr frame :
  preserves untouched (evaluate_expr_in_frame expr frame).
Proof.
  intros s. unfold evaluate_expr_in_frame.
  destruct (get_expression_type expr s) as [ty e].
  destruct ty.
  - destruct (match frame with Some f => Some f | None => selected_frame <$> process s end)
      as [f|]; [|reflexivity].
    destruct (preprocess_simple_expr e) as [pp|x]; [|reflexivity]. cbn.
    destruct (py_eval ExprSimple pp f); quiet_step.
  - destruct (match frame with Some f => Some f | None => selected_frame <$> process s end)
      as [f|]; [|reflexivity].
    destruct (preprocess_python_expr e) as [pp|x]; [|reflexivity]. cbn.
    destruct (py_eval ExprPython pp f); cbn;
      (etransitivity; [apply (untouched_set_selected_frame f s)|]); quiet_step.
  - destruct (evaluate_expression frame (to_lldb_str e)); reflexivity.
Qed.

Lemma untouched_replacer frame expr : preserves untouched (replacer frame expr).
Proof.
  unfold replacer. apply preserves_bind; [apply untouched_evaluate_expr_in_frame|].
  intros result. destruct (unwrap result); apply preserves_gets || apply preserves_ret.
Qed.

Lemma untouched_substitute frame pieces : preserves untouched (substitute frame pieces).
Proof.
  induction pieces as [|[text|expr] rest IH]; simpl.
  - apply preserves_ret.
  - apply preserves_bind; [exact IH|]. intros tail. apply preserves_ret.
  - apply preserves_bind; [apply untouched_replacer|]. intros v.
    apply preserves_bind; [exact IH|]. intros tail. apply preserves_ret.
Qed.

Lemma untouched_eval_condition c frame : preserves untouched (eval_condition c frame).
Proof.
  intros s. unfold eval_condition. destruct c as [code is_expr|code].
  - destruct (py_eval CondPython code frame); cbn; apply untouched_set_selected_frame.
  - destruct (py_eval CondSimple code frame); reflexivity.
Qed.

Lemma untouched_after_rearm bp_id frame s bp_info :
  breakpoints s !! bp_id = Some bp_info →
  untouched (rearmed bp_id bp_info s) (should_stop_on_bp bp_id frame s).2.
Proof.
  intros Hb. rewrite (should_stop_unfold _ _ _ _ Hb).
  set (s1 := rearmed bp_id bp_info s).
  destruct (condition bp_info) as [c|].
  - pose proof (untouched_eval_condition c frame s1) as Hc.
    destruct (eval_condition c frame s1) as [[[]|e] s2]; cbn in *.
    + destruct (log_message bp_info) as [template|]; [|done].
      destruct (str_truthy template); [|done].
      pose proof (untouched_substitute frame (split_placeholders template) s2) as Hs.
      destruct (substitute _ _ s2) as [[message|e] s3]; cbn in *;
        (transitivity s2; [done|]); (transitivity s3; [done|]);
        apply untouched_console.
    + done.
    + transitivity s2; [done|]. apply untouched_console.
  - cbn. destruct (log_message bp_info) as [template|]; [|reflexivity].
    destruct (str_truthy template); [|reflexivity].
    pose proof (untouched_substitute frame (split_placeholders template) s1) as Hs.
    destruct (substitute _ _ s1) as [[message|e] s3]; cbn in *;
      (transitivity s3; [done|]); apply untouched_console.
Qed.

Lemma untouched_rearmed bp_id bp_info s : untouched s (rearmed bp_id bp_info s).
Proof.
  unfold rearmed. destruct (negb _); [apply untouched_SetIgnoreCount|reflexivity].
Qed.

End Primitives.

(** A breakpoint hit, stop or not, error or not, changes neither the
    adapter's breakpoint tables (the BreakpointInfos, the line index) nor
    any setting of the session (handles, display format, pending requests,
    known threads); the calls it makes never switch the breakpoint events. *)
Theorem hit_leaves_adapter_tables `{Runtime} `{Backend} (bp_id : Z) (frame : SBFrame)
    (s : Session) :
  untouched s (should_stop_on_bp bp_id frame s).2.
Proof.
  destruct (breakpoints s !! bp_id) as [bp_info|] eqn:Hb.
  - transitivity (rearmed bp_id bp_info s);
      [apply untouched_rearmed|by apply untouched_after_rearm].
  - unfold should_stop_on_bp. rewrite Hb. reflexivity.
Qed.

(** On every hit of a breakpoint with an ignore count, the first call made
    arms the backend's ignore count again, whatever the condition and the
    log message then decide. *)
Theorem hit_rearms_ignore_count_first `{Runtime} `{Backend} (bp_id : Z)
    (frame : SBFrame) (s : Session) (bp_info : BreakpointInfo) :
  breakpoints s !! bp_id = Some bp_info →
  ignore_count bp_info ≠ 0 →
  ∃ rest, trace (should_stop_on_bp bp_id frame s).2
          = trace s ++ BpSetIgnoreCount bp_id (ignore_count bp_info) :: rest.
Proof.
  intros Hb Hn.
  destruct (untouched_after_rearm bp_id frame s bp_info Hb)
    as ((_&_&_&_&_&_&_&_&_& rest & Ht & _) & _).
  exists rest. rewrite Ht. unfold rearmed.
  destruct (Z.eqb_spec (ignore_count bp_info) 0) as [|_]; [done|].
  cbn. by rewrite <- app_assoc.
Qed.

(** ** What a setBreakpoints pass leaves alone *)

Section PassFrame.
Context `{Runtime} `{Backend}.
Variable file_id : string.

#[global] Instance pass_frame_preorder : PreOrder (pass_frame file_id).
Proof.
  split.
  - intros s. split; [reflexivity|done].
  - intros s1 s2 s3 [U1 O1] [U2 O2]. split; [by transitivity s2|].
    intros other Hne. rewrite (O2 other Hne). by apply O1.
Qed.

Ltac pass_step :=
  split; [quiet_step|intros other Hne; cbn; try done].

Lemma pass_frame_untouched s s' : untouched s s' → pass_frame file_id s s'.
Proof. intros (U & _ & Hl). split; [done|]. intros other _. by rewrite Hl. Qed.

Lemma pass_frame_update_info bp_id f s : pass_frame file_id s (update_info bp_id f s).
Proof. unfold update_info. pass_step. Qed.

Lemma pass_frame_map_filespec fs : preserves (pass_frame file_id) (map_filespec_to_local fs).
Proof.
  intros s. unfold map_filespec_to_local.
  destruct (negb (fs_valid fs)); [reflexivity|].
  destruct (filespec_cache s !! _); [reflexivity|].
  assert (pass_frame file_id s (map_filespec_to_local_uncached fs s).2) as Hu.
  { unfold map_filespec_to_local_uncached.
    destruct (source_map s), (fullpath fs); cbn; try reflexivity;
      unfold make_source_map; pass_step. }
  destruct (map_filespec_to_local_uncached fs s) as [lp s1]. cbn in *.
  destruct (suppress_missing_sources s1); [destruct (os_path_isfile lp)|]; cbn;
    (etransitivity; [exact Hu|]); pass_step.
Qed.

Lemma pass_frame_check_locations file_path bp_id locs resp :
  preserves (pass_frame file_id) (check_locations file_path bp_id locs resp).
Proof.
  revert resp. induction locs as [|[i loc] locs IH]; intros resp; simpl.
  - apply preserves_ret.
  - apply preserves_bind; [|intros resp'; apply IH].
    unfold check_location.
    apply preserves_bind; [apply pass_frame_map_filespec|].
    assert (preserves (pass_frame file_id)
              (bind (act (loc_SetEnabled bp_id i false)) (fun _ => ret resp))) as Hoff.
    { apply preserves_bind; [|intros; apply preserves_ret].
      apply preserves_act. intros s. apply pass_frame_untouched, untouched_SetEnabled. }
    intros [lp|]; [|exact Hoff].
    destruct (same_path lp file_path); [apply preserves_ret|exact Hoff].
Qed.

Lemma pass_frame_console text category :
  preserves (pass_frame file_id) (act (console_msg text category)).
Proof.
  apply preserves_act. intros s. apply pass_frame_untouched, untouched_console.
Qed.

Lemma pass_frame_make_python cond :
  preserves (pass_frame file_id) (make_python_expression_bpcond cond).
Proof.
  intros s. unfold make_python_expression_bpcond.
  destruct (preprocess_python_expr cond) as [pp|e]; [|reflexivity].
  destruct (match py_compile pp ModeEval with
            | Some e => if is_syntax_error e
                        then match py_compile pp ModeExec with
                             | Some e' => inl e'
                             | None => inr false
                             end
                        else inl e
            | None => inr true
            end) as [err|b]; cbn; [|reflexivity].
  apply pass_frame_untouched, untouched_console.
Qed.

Lemma pass_frame_make_simple cond :
  preserves (pass_frame file_id) (make_simple_expression_bpcond cond).
Proof.
  intros s. unfold make_simple_expression_bpcond.
  destruct (preprocess_simple_expr cond) as [pp|e]; [|reflexivity].
  destruct (py_compile pp ModeEval); cbn; [|reflexivity].
  apply pass_frame_untouched, untouched_console.
Qed.

Lemma pass_frame_set_bp_condition bp_id req :
  preserves (pass_frame file_id) (set_bp_condition bp_id req).
Proof.
  assert (∀ f, preserves (pass_frame file_id) (act (update_info bp_id f))) as Hupd
    by (intros f; apply preserves_act; intros s; apply pass_frame_update_info).
  assert (∀ c, preserves (pass_frame file_id) (act (bp_SetCondition bp_id c))) as Hc
    by (intros c; apply preserves_act; intros s;
        apply pass_frame_untouched, untouched_SetCondition).
  assert (∀ fn, preserves (pass_frame file_id)
                  (act (bp_SetScriptCallbackFunction bp_id fn))) as Hcb
    by (intros fn; apply preserves_act; intros s;
        apply pass_frame_untouched, untouched_SetScriptCallbackFunction).
  unfold set_bp_condition.
  apply preserves_bind; [apply preserves_gets|]. intros [bp_info|];
    [|apply preserves_raise].
  apply preserves_bind.
  { destruct (has_condition_or_count bp_info); [|apply preserves_ret].
    repeat (apply preserves_bind; [|intros _]); done. }
  intros _. apply preserves_bind.
  { destruct (opt_str_truthy (to_lldb_str <$> sb_condition req));
      [|apply preserves_ret].
    apply preserves_bind; [apply preserves_gets|]. intros [ty cond].
    destruct ty.
    - apply preserves_bind; [apply pass_frame_make_simple|].
      intros [c|]; [done|apply preserves_ret].
    - apply preserves_bind; [apply pass_frame_make_python|].
      intros [c|]; [done|apply preserves_ret].
    - done. }
  intros _. apply preserves_bind.
  { destruct (opt_str_truthy (sb_hitCondition req)); [|apply preserves_ret].
    destruct (parse_int _).
    - apply preserves_bind; [done|]. intros _.
      apply preserves_act. intros s.
      apply pass_frame_untouched, untouched_SetIgnoreCount.
    - apply pass_frame_console. }
  intros _. apply preserves_bind; [done|]. intros _.
  apply preserves_bind; [apply preserves_gets|]. intros [info|];
    [|apply preserves_ret].
  destruct (_ || _); [done|apply preserves_ret].
Qed.

Lemma pass_frame_set_file_bps m s :
  pass_frame file_id s (set_file_bps file_id m s).
Proof.
  unfold set_file_bps. split; [quiet_step|].
  intros other Hne. cbn. by rewrite lookup_insert_ne.
Qed.

Lemma pass_frame_set_source_breakpoint file_path req :
  preserves (pass_frame file_id) (set_source_breakpoint file_id file_path req).
Proof.
  unfold set_source_breakpoint.
  apply preserves_bind; [apply preserves_gets|]. intros found.
  apply preserves_bind.
  { destruct (truthy_id found); [apply preserves_ret|].
    apply preserves_bind.
    { intros s. unfold target_BreakpointCreateByLocation. pass_step. }
    intros bp_id. apply preserves_bind.
    { apply preserves_act. intros s. pass_step. }
    intros _. apply preserves_bind; [apply pass_frame_check_locations|].
    intros resp. apply preserves_ret. }
  intros [bp_id resp].
  apply preserves_bind; [apply pass_frame_set_bp_condition|]. intros _.
  apply preserves_bind; [|intros; apply preserves_ret].
  apply preserves_act. intros s. apply pass_frame_set_file_bps.
Qed.

Lemma pass_frame_set_source_breakpoints req_bps file_path :
  preserves (pass_frame file_id) (set_source_breakpoints file_id req_bps file_path).
Proof.
  induction req_bps as [|req rest IH]; simpl.
  - apply preserves_ret.
  - apply preserves_bind; [apply pass_frame_set_source_breakpoint|]. intros r.
    apply preserves_bind; [exact IH|]. intros rs. apply preserves_ret.
Qed.

Lemma pass_frame_clear_removed lines item :
  preserves (pass_frame file_id) (clear_removed file_id lines item).
Proof.
  destruct item as [line bp_id]. unfold clear_removed.
  destruct (bool_decide (line ∈ lines)); [apply preserves_ret|].
  apply preserves_bind.
  { apply preserves_act. intros s. unfold target_BreakpointDelete. pass_step. }
  intros _. apply preserves_bind.
  { apply preserves_act. intros s. apply pass_frame_set_file_bps. }
  intros _. apply preserves_bind; [apply preserves_gets|].
  intros [info|]; [|apply preserves_raise].
  apply preserves_act. intros s. pass_step.
Qed.

End PassFrame.

Section PassAsAWhole.
Context `{Runtime} `{Backend}.

Lemma pass_body_frame (args : SetBreakpointsArgs) :
  let file_id := normcase (from_lldb_str (sbp_path args)) in
  preserves (pass_frame file_id)
    (bind (act (fun s => set_file_bps file_id (file_bps_of file_id s) s)) (fun _ =>
     bind (gets (file_bps_of file_id)) (fun file_bps =>
     bind (for_each (clear_removed file_id (map sb_line (sbp_breakpoints args)))
             (map_to_list file_bps)) (fun _ =>
     bind (set_source_breakpoints file_id (sbp_breakpoints args) file_id) (fun result =>
     ret (Some [("breakpoints", JArr result)])))))).
Proof.
  intros file_id.
  apply preserves_bind.
  { apply preserves_act. intros s. apply pass_frame_set_file_bps. }
  intros _. apply preserves_bind; [apply preserves_gets|]. intros file_bps.
  apply preserves_bind.
  { apply preserves_for_each. intros item. apply pass_frame_clear_removed. }
  intros _. apply preserves_bind; [apply pass_frame_set_source_breakpoints|].
  intros result. apply preserves_ret.
Qed.

Lemma pass_outcomes (args : SetBreakpointsArgs) (s : Session) :
  (noDebug (launch_args s) = false
   ∧ ∃ s1, (DEBUG_setBreakpoints args s).2 = emit EnableBpEvents s1
           ∧ pass_frame (normcase (from_lldb_str (sbp_path args)))
               (emit DisableBpEvents s) s1)
  ∨ (noDebug (launch_args s) = true ∧ DEBUG_setBreakpoints args s = (Ok None, s)).
Proof.
  destruct (noDebug (launch_args s)) eqn:Hnd; [right|left]; split; try done;
    unfold DEBUG_setBreakpoints, bind at 1, gets; rewrite Hnd; [done|].
  unfold try_finally, bind at 1, act.
  pose proof (pass_body_frame args (emit DisableBpEvents s)) as Hbody.
  cbv zeta in Hbody.
  destruct (bind _ _ (emit DisableBpEvents s)) as [r s1].
  by exists s1.
Qed.

End PassAsAWhole.

(** A setBreakpoints pass that is not skipped (no [noDebug]) switches the
    breakpoint events off first and on again last, also when it raises on
    the way, and no call in between switches them; under [noDebug] the
    request does nothing and returns no body. *)
Theorem pass_suspends_breakpoint_events `{Runtime} `{Backend}
    (args : SetBreakpointsArgs) (s : Session) :
  (noDebug (launch_args s) = false →
   ∃ mid, trace (DEBUG_setBreakpoints args s).2
          = trace s ++ DisableBpEvents :: mid ++ [EnableBpEvents]
          ∧ Forall not_bp_toggle mid)
  ∧ (noDebug (launch_args s) = true → DEBUG_setBreakpoints args s = (Ok None, s)).
Proof.
  destruct (pass_outcomes args s) as [[Hnd (s1 & -> & Hbody)]|[Hnd Hskip]];
    split; intros Hnd'; try congruence.
  destruct Hbody as ((_&_&_&_&_&_&_&_&_& mid & Ht & Hmid) & _).
  exists mid. cbn in *. rewrite Ht. by rewrite <- !app_assoc.
Qed.

(** Whatever its outcome, a setBreakpoints pass leaves the line index of
    every other file and the settings of the session (handles, display
    format, router tables, known threads) as they were. *)
Theorem pass_leaves_other_files_alone `{Runtime} `{Backend}
    (args : SetBreakpointsArgs) (s : Session) :
  let file_id := normcase (from_lldb_str (sbp_path args)) in
  let s' := (DEBUG_setBreakpoints args s).2 in
  other_files_kept file_id s s' ∧ same_settings s s'.
Proof.
  intros file_id s'.
  subst s'.
  destruct (pass_outcomes args s) as [[_ (s1 & -> & Hbody)]|[_ ->]].
  - destruct Hbody as ((?&?&?&?&?&?&?&?&?&_) & Hother).
    split; [exact Hother|]. unfold same_settings. by split_and!.
  - split; [by intros other _|]. unfold same_settings. by split_and!.
Qed.

(** ** What keeps the entries of the locator cache *)

Section CacheKept.
Context `{Runtime} `{Backend}.

#[global] Instance cache_extends_preorder : PreOrder cache_extends.
Proof.
  split.
  - by intros s key v.
  - intros s1 s2 s3 H12 H23 key v Hk. by apply H23, H12.
Qed.

Lemma cache_same s s' : filespec_cache s' = filespec_cache s → cache_extends s s'.
Proof. intros Heq key v. by rewrite Heq. Qed.

Ltac cache_step := apply cache_same; reflexivity.

Lemma cache_act (f : Session → Session) :
  (∀ s, filespec_cache (f s) = filespec_cache s) →
  preserves cache_extends (act f).
Proof. intros Hf. apply preserves_act. intros s. by apply cache_same. Qed.

Lemma cache_console text category s :
  filespec_cache (console_msg text category s) = filespec_cache s.
Proof. unfold console_msg. by destruct (str_truthy text). Qed.

Lemma cache_map_filespec fs : preserves cache_extends (map_filespec_to_local fs).
Proof.
  intros s. unfold map_filespec_to_local.
  destruct (negb (fs_valid fs)); [reflexivity|].
  destruct (filespec_cache s !! _) as [c|] eqn:E; [reflexivity|].
  destruct (uncached_keeps_cache fs s) as [Hc Hs].
  destruct (map_filespec_to_local_uncached fs s) as [lp s1]. cbn in Hc, Hs.
  assert (∀ v, cache_extends s
            (with_filespec_cache
               (<[(fs_directory fs, fs_filename fs) := v]> (filespec_cache s1)) s1))
    as Hins.
  { intros v key lp' Hk. cbn. rewrite Hc.
    rewrite lookup_insert_ne; [done|]. intros <-. by rewrite E in Hk. }
  cbn [emit with_trace suppress_missing_sources].
  destruct (suppress_missing_sources s1).
  - destruct (os_path_isfile lp) as [b|e]; cbn.
    + intros key lp' Hk. by apply (Hins _ key lp').
    + apply cache_same. cbn. exact Hc.
  - cbn. intros key lp' Hk. by apply (Hins _ key lp').
Qed.

Lemma cache_check_locations file_path bp_id locs resp :
  preserves cache_extends (check_locations file_path bp_id locs resp).
Proof.
  revert resp. induction locs as [|[i loc] locs IH]; intros resp; simpl.
  - apply preserves_ret.
  - apply preserves_bind; [|intros resp'; apply IH].
    unfold check_location.
    apply preserves_bind; [apply cache_map_filespec|].
    assert (preserves cache_extends
              (bind (act (loc_SetEnabled bp_id i false)) (fun _ => ret resp))) as Hoff.
    { apply preserves_bind; [|intros; apply preserves_ret]. by apply cache_act. }
    intros [lp|]; [|exact Hoff].
    destruct (same_path lp file_path); [apply preserves_ret|exact Hoff].
Qed.

Lemma cache_make_python cond :
  preserves cache_extends (make_python_expression_bpcond cond).
Proof.
  intros s. unfold make_python_expression_bpcond.
  destruct (preprocess_python_expr cond) as [pp|e]; [|reflexivity].
  destruct (match py_compile pp ModeEval with
            | Some e => if is_syntax_error e
                        then match py_compile pp ModeExec with
                             | Some e' => inl e'
                             | None => inr false
                             end
                        else inl e
            | None => inr true
            end) as [err|b]; cbn; [|reflexivity].
  apply cache_same, cache_console.
Qed.

Lemma cache_make_simple cond :
  preserves cache_extends (make_simple_expression_bpcond cond).
Proof.
  intros s. unfold make_simple_expression_bpcond.
  destruct (preprocess_simple_expr cond) as [pp|e]; [|reflexivity].
  destruct (py_compile pp ModeEval); cbn; [|reflexivity].
  apply cache_same, cache_console.
Qed.

Lemma cache_set_bp_condition bp_id req :
  preserves cache_extends (set_bp_condition bp_id req).
Proof.
  assert (∀ f, preserves cache_extends (act (update_info bp_id f))) as Hupd
    by (intros f; by apply cache_act).
  assert (∀ c, preserves cache_extends (act (bp_SetCondition bp_id c))) as Hc
    by (intros c; by apply cache_act).
  assert (∀ fn, preserves cache_extends
                  (act (bp_SetScriptCallbackFunction bp_id fn))) as Hcb
    by (intros fn; by apply cache_act).
  unfold set_bp_condition.
  apply preserves_bind; [apply preserves_gets|]. intros [bp_info|];
    [|apply preserves_raise].
  apply preserves_bind.
  { destruct (has_condition_or_count bp_info); [|apply preserves_ret].
    repeat (apply preserves_bind; [|intros _]); done. }
  intros _. apply preserves_bind.
  { destruct (opt_str_truthy (to_lldb_str <$> sb_condition req));
      [|apply preserves_ret].
    apply preserves_bind; [apply preserves_gets|]. intros [ty cond].
    destruct ty.
    - apply preserves_bind; [apply cache_make_simple|].
      intros [c|]; [done|apply preserves_ret].
    - apply preserves_bind; [apply cache_make_python|].
      intros [c|]; [done|apply preserves_ret].
    - done. }
  intros _. apply preserves_bind.
  { destruct (opt_str_truthy (sb_hitCondition req)); [|apply preserves_ret].
    destruct (parse_int _).
    - apply preserves_bind; [done|]. intros _. by apply cache_act.
    - apply cache_act. intros s. apply cache_console. }
  intros _. apply preserves_bind; [done|]. intros _.
  apply preserves_bind; [apply preserves_gets|]. intros [info|];
    [|apply preserves_ret].
  destruct (_ || _); [done|apply preserves_ret].
Qed.

Lemma cache_set_source_breakpoint file_id file_path req :
  preserves cache_extends (set_source_breakpoint file_id file_path req).
Proof.
  unfold set_source_breakpoint.
  apply preserves_bind; [apply preserves_gets|]. intros found.
  apply preserves_bind.
  { destruct (truthy_id found); [apply preserves_ret|].
    apply preserves_bind.
    { intros s. unfold target_BreakpointCreateByLocation. cache_step. }
    intros bp_id. apply preserves_bind; [by apply cache_act|].
    intros _. apply preserves_bind; [apply cache_check_locations|].
    intros resp. apply preserves_ret. }
  intros [bp_id resp].
  apply preserves_bind; [apply cache_set_bp_condition|]. intros _.
  apply preserves_bind; [|intros; apply preserves_ret].
  by apply cache_act.
Qed.

Lemma cache_set_source_breakpoints file_id req_bps file_path :
  preserves cache_extends (set_source_breakpoints file_id req_bps file_path).
Proof.
  induction req_bps as [|req rest IH]; simpl.
  - apply preserves_ret.
  - apply preserves_bind; [apply cache_set_source_breakpoint|]. intros r.
    apply preserves_bind; [exact IH|]. intros rs. apply preserves_ret.
Qed.

Lemma cache_clear_removed file_id lines item :
  preserves cache_extends (clear_removed file_id lines item).
Proof.
  destruct item as [line bp_id]. unfold clear_removed.
  destruct (bool_decide (line ∈ lines)); [apply preserves_ret|].
  apply preserves_bind; [by apply cache_act|]. intros _.
  apply preserves_bind; [by apply cache_act|]. intros _.
  apply preserves_bind; [apply preserves_gets|]. intros [known|].
  - by apply cache_act.
  - apply preserves_raise.
Qed.

Lemma cache_DEBUG_setBreakpoints args :
  preserves cache_extends (DEBUG_setBreakpoints args).
Proof.
  unfold DEBUG_setBreakpoints.
  apply preserves_bind; [apply preserves_gets|]. intros [|]; [apply preserves_ret|].
  intros s. unfold try_finally.
  match goal with
  | |- context [bind ?m ?k s] =>
      assert (preserves cache_extends (bind m k)) as Hbody
  end.
  { apply preserves_bind; [by apply cache_act|]. intros _.
    apply preserves_bind; [by apply cache_act|]. intros _.
    apply preserves_bind; [apply preserves_gets|]. intros file_bps.
    apply preserves_bind.
    { apply preserves_for_each. intros item. apply cache_clear_removed. }
    intros _. apply preserves_bind; [apply cache_set_source_breakpoints|].
    intros result. apply preserves_ret. }
  specialize (Hbody s).
  match goal with
  | |- context [bind ?m ?k s] => destruct (bind m k s) as [r s1]
  end.
  cbn in *. etransitivity; [exact Hbody|]. cache_step.
Qed.

Lemma cache_in_disassembly fs : preserves cache_extends (in_disassembly fs).
Proof.
  intros s. unfold in_disassembly.
  destruct (show_disassembly s); try reflexivity.
  pose proof (cache_map_filespec fs s) as Hm.
  by destruct (map_filespec_to_local fs s) as [[r|e] s1].
Qed.

Lemma cache_reverse_exec commands s :
  filespec_cache (reverse_exec commands s) = filespec_cache s.
Proof.
  revert s. induction commands as [|c rest IH]; intros s; simpl; [done|].
  destruct (negb (cr_succeeded (handle_command c))).
  - unfold console_err. by rewrite cache_console.
  - by rewrite IH.
Qed.

Lemma cache_resume_handler r : preserves cache_extends (resume_handler r).
Proof.
  assert (∀ (k : M unit), preserves cache_extends k →
            preserves cache_extends (bind (act before_resume) (fun _ => k))) as Hfw.
  { intros k Hk. apply preserves_bind; [by apply cache_act|]. by intros _. }
  assert (∀ (k : SBProcess → M unit), (∀ p, preserves cache_extends (k p)) →
            preserves cache_extends
              (bind (gets process)
                 (fun p => match p with Some p => k p | None => no_process end)))
    as Hproc.
  { intros k Hk. apply preserves_bind; [apply preserves_gets|].
    intros [p|]; [apply Hk|apply preserves_raise]. }
  destruct r as [|t|t|t|t|]; simpl.
  - apply Hfw. apply Hproc. intros p.
    apply preserves_bind; [by apply cache_act|]. intros _.
    destruct process_continue_error; [apply preserves_raise|apply preserves_ret].
  - apply Hfw. apply Hproc. intros p.
    apply preserves_bind; [apply cache_in_disassembly|]. intros dis.
    destruct (negb dis); by apply cache_act.
  - apply Hfw. apply Hproc. intros p.
    apply preserves_bind; [apply cache_in_disassembly|]. intros dis.
    destruct (negb dis); by apply cache_act.
  - apply Hfw. apply Hproc. intros p. by apply cache_act.
  - unfold DEBUG_stepBack. apply preserves_bind; [by apply cache_act|]. intros _.
    apply cache_act. intros s. apply cache_reverse_exec.
  - unfold DEBUG_reverseContinue. apply cache_act. intros s.
    apply cache_reverse_exec.
Qed.

Lemma cache_run_activities (between : list Activity) (s : Session) :
  cache_extends s (run_activities between s).
Proof.
  revert s. induction between as [|a rest IH]; intros s; [reflexivity|].
  cbn [run_activities fold_left]. etransitivity; [|apply IH].
  destruct a as [fs|args|r]; cbn.
  - apply cache_map_filespec.
  - apply cache_DEBUG_setBreakpoints.
  - apply cache_resume_handler.
Qed.

End CacheKept.

(** A result, once returned for a valid filespec, is what every later
    lookup of the same directory and file name returns, without a change of
    state: the entries of the cache stay as they are in whatever the
    adapter does in between (lookups of other files, setBreakpoints
    passes, resume requests), and the lookup does not depend on what the
    source map has become or on the full path of the later filespec. *)
Theorem cached_lookup_is_stable `{Runtime} `{Backend} (fs fs2 : SBFileSpec)
    (s s' : Session) (r : option string) (between : list Activity) :
  fs_valid fs = true →
  map_filespec_to_local fs s = (Ok r, s') →
  fs_valid fs2 = true →
  fs_directory fs2 = fs_directory fs →
  fs_filename fs2 = fs_filename fs →
  let s2 := run_activities between s' in
  cache_extends s' s2
  ∧ map_filespec_to_local fs2 s2 = (Ok r, s2)
  ∧ ∀ s3, cache_extends s' s3 → map_filespec_to_local fs2 s3 = (Ok r, s3).
Proof.
  intros Hv Hrun Hv2 Hd Hf s2.
  pose proof (lookup_caches_result _ _ _ _ Hv Hrun) as Hhit.
  assert (∀ s3, cache_extends s' s3 → map_filespec_to_local fs2 s3 = (Ok r, s3))
    as Hlater.
  { intros s3 Hext. unfold map_filespec_to_local.
    rewrite Hv2, Hd, Hf, (Hext _ _ Hhit). done. }
  pose proof (cache_run_activities between s') as Hext.
  split; [exact Hext|]. split; [by apply Hlater|exact Hlater].
Qed.

Section Responses.
Context `{Runtime} `{Backend}.

Lemma dict_get_set_ne (k k' : string) (v : Json) (d : Dict) :
  k ≠ k' → dict_get k (dict_set k' v d) = dict_get k d.
Proof.
  intros Hne. induction d as [|[k0 v0] d IH]; simpl.
  - destruct (String.eqb_spec k k'); done.
  - destruct (String.eqb_spec k' k0) as [->|Hk0]; simpl.
    + destruct (String.eqb_spec k k0); done.
    + destruct (String.eqb_spec k k0); done.
Qed.

Lemma check_locations_keeps_id file_path bp_id locs bp_resp s d s' :
  check_locations file_path bp_id locs bp_resp s = (Ok d, s') →
  dict_get "id" d = dict_get "id" bp_resp.
Proof.
  revert bp_resp s. induction locs as [|[index loc] locs IH]; intros bp_resp s Hrun.
  - injection Hrun as <- _. done.
  - simpl in Hrun. apply bind_ok in Hrun as (d1 & s1 & Hone & Hrun).
    rewrite (IH _ _ Hrun). clear IH Hrun.
    apply bind_ok in Hone as (local & s0 & _ & Hone).
    destruct local as [local_path|].
    + destruct (same_path local_path file_path).
      * injection Hone as <- _. by rewrite !dict_get_set_ne.
      * apply bind_ok in Hone as ([] & s2 & _ & Hone). by injection Hone as <- _.
    + apply bind_ok in Hone as ([] & s2 & _ & Hone). by injection Hone as <- _.
Qed.

Lemma set_source_breakpoint_reports file_id file_path req s r s' :
  set_source_breakpoint file_id file_path req s = (Ok r, s') →
  ∃ d id, r = JObj d
    ∧ dict_get "id" d = Some (JInt id)
    ∧ file_bps_of file_id s' !! sb_line req = Some id
    ∧ (∀ id0, truthy_id (file_bps_of file_id s !! sb_line req) = Some id0 →
         id0 = id ∧ d = [("id", JInt id); ("verified", JBool true)]).
Proof.
  intros Hrun. unfold set_source_breakpoint in Hrun.
  apply bind_ok in Hrun as (found & s0 & Hg & Hrun).
  unfold gets in Hg. injection Hg as <- <-.
  apply bind_ok in Hrun as ([bp_id resp] & s1 & Hcreate & Hrun).
  apply bind_ok in Hrun as ([] & s2 & Hcond & Hrun).
  apply bind_ok in Hrun as ([] & s3 & Hact & Hrun).
  unfold act in Hact. injection Hact as <-. unfold ret in Hrun.
  injection Hrun as <- <-.
  exists resp, bp_id. rewrite file_bps_of_set, lookup_insert_eq.
  destruct (truthy_id (file_bps_of file_id s !! sb_line req)) as [id|].
  - unfold ret in Hcreate. injection Hcreate as <- <- _.
    split_and!; try done. by intros id0 [= <-].
  - apply bind_ok in Hcreate as (id & sa & Hnew & Hcreate).
    apply bind_ok in Hcreate as ([] & sb & _ & Hcreate).
    apply bind_ok in Hcreate as (resp' & sc & Hlocs & Hcreate).
    unfold ret in Hcreate. injection Hcreate as <- <- _.
    split_and!; try done.
    by rewrite (check_locations_keeps_id _ _ _ _ _ _ _ Hlocs).
Qed.

Lemma reconcile_line_keeps r line l id :
  registry_inv r → rg_index r !! l = Some id →
  rg_index (reconcile_line r line) !! l = Some id.
Proof.
  intros Hinv Hl.
  destruct (reconcile_fold_spec [line] r Hinv) as (_ & Hkeep & _).
  by apply Hkeep.
Qed.

Lemma set_source_breakpoints_reports file_id req_bps file_path s result s' :
  registry_inv (registry_of file_id s) →
  set_source_breakpoints file_id req_bps file_path s = (Ok result, s') →
  Forall2 (reports file_id (file_bps_of file_id s) s') req_bps result.
Proof.
  revert s result. induction req_bps as [|req rest IH]; intros s result Hinv Hrun.
  - injection Hrun as <- _. constructor.
  - simpl in Hrun.
    apply bind_ok in Hrun as (r & s1 & Hone & Hrun).
    apply bind_ok in Hrun as (rs & s2 & Hrest & Hrun).
    injection Hrun as <- <-.
    pose proof (set_source_breakpoint_registry _ _ _ _ _ _ Hone) as Hreg1.
    pose proof (reconcile_line_inv _ (sb_line req) Hinv) as Hinv1.
    rewrite <- Hreg1 in Hinv1.
    pose proof (set_source_breakpoints_registry _ _ _ _ _ _ Hrest) as Hreg2.
    destruct (reconcile_fold_spec (map sb_line rest) _ Hinv1) as (_ & Hkeep & _).
    cbv zeta in Hkeep. rewrite <- Hreg2 in Hkeep. cbn [rg_index registry_of] in Hkeep.
    constructor.
    + destruct (set_source_breakpoint_reports _ _ _ _ _ _ Hone)
        as (d & id & -> & Hid & Hidx & Hold).
      exists d, id. split_and!; [done|done|by apply Hkeep|].
      intros id0 Hid0. apply Hold.
      by rewrite (truthy_id_inv (registry_of file_id s) _ Hinv).
    + eapply Forall2_impl; [by apply IH|].
      intros req' r' (d & id & -> & Hid & Hidx & Hold).
      exists d, id. split_and!; try done.
      intros id0 Hid0. apply Hold.
      change (rg_index (registry_of file_id s1) !! sb_line req' = Some id0).
      rewrite Hreg1. by apply reconcile_line_keeps.
Qed.

Lemma pass_ok_steps (args : SetBreakpointsArgs) (s s' : Session)
    (resp : option Dict) :
  let file_id := normcase (from_lldb_str (sbp_path args)) in
  let lines := map sb_line (sbp_breakpoints args) in
  noDebug (launch_args s) = false →
  DEBUG_setBreakpoints args s = (Ok resp, s') →
  ∃ s4 s5 result,
    registry_of file_id s4
      = fold_left (clear_line lines) (map_to_list (file_bps_of file_id s))
          (registry_of file_id s)
    ∧ set_source_breakpoints file_id (sbp_breakpoints args) file_id s4
      = (Ok result, s5)
    ∧ resp = Some [("breakpoints", JArr result)]
    ∧ s' = emit EnableBpEvents s5.
Proof.
  intros file_id lines Hnd Hrun. unfold DEBUG_setBreakpoints in Hrun.
  apply bind_ok in Hrun as (nd & s0 & Hg & Hrun). injection Hg as <- <-.
  rewrite Hnd in Hrun. unfold try_finally in Hrun.
  fold file_id in Hrun.
  destruct (bind (act (emit DisableBpEvents)) _ s) as [r sf] eqn:Hbody.
  injection Hrun as -> <-.
  apply bind_ok in Hbody as ([] & s1 & Hdis & Hbody). injection Hdis as <-.
  apply bind_ok in Hbody as ([] & s2 & Hdef & Hbody). injection Hdef as <-.
  apply bind_ok in Hbody as (fb & s3 & Hfb & Hbody). injection Hfb as <- <-.
  apply bind_ok in Hbody as ([] & s4 & Hclear & Hbody).
  apply bind_ok in Hbody as (result & s5 & Hset & Hbody). injection Hbody as <- <-.
  exists s4, s5, result. split_and!; try done.
  rewrite (for_each_clear_registry _ _ _ _ _ Hclear).
  rewrite !file_bps_of_set.
  assert (registry_of file_id
            (set_file_bps file_id (file_bps_of file_id (emit DisableBpEvents s))
               (emit DisableBpEvents s)) = registry_of file_id s) as ->.
  { unfold registry_of. by rewrite file_bps_of_set. }
  done.
Qed.

End Responses.

Lemma response_shape `{Runtime} `{Backend}
    (args : SetBreakpointsArgs) (s s' : Session) (resp : option Dict) :
  let file_id := normcase (from_lldb_str (sbp_path args)) in
  noDebug (launch_args s) = false →
  registry_inv (registry_of file_id s) →
  DEBUG_setBreakpoints args s = (Ok resp, s') →
  ∃ result, resp = Some [("breakpoints", JArr result)]
    ∧ Forall2 (reports file_id (file_bps_of file_id s) s')
        (sbp_breakpoints args) result.
Proof.
  intros file_id Hnd Hinv Hrun.
  destruct (pass_ok_steps args s s' resp Hnd Hrun)
    as (s4 & s5 & result & Hreg4 & Hset & -> & ->).
  fold file_id in Hreg4, Hset.
  exists result. split; [done|].
  set (lines := map sb_line (sbp_breakpoints args)) in *.
  pose proof (clear_inv lines _ Hinv) as Hinv4.
  destruct (clear_fold_spec lines (map_to_list (rg_index (registry_of file_id s)))
              (registry_of file_id s)) as (Cin & _).
  cbv zeta in Cin. cbn [rg_index registry_of] in Hinv4, Cin.
  rewrite <- Hreg4 in Hinv4, Cin. cbn [rg_index registry_of] in Cin.
  pose proof (set_source_breakpoints_reports _ _ _ _ _ _ Hinv4 Hset) as Hall.
  clear Hset.
  assert (Forall (λ req, sb_line req ∈ lines) (sbp_breakpoints args)) as Hin.
  { apply Forall_forall. intros req Hreq. by apply list_elem_of_fmap_2. }
  clear Hrun. clearbody lines. revert Hall Hin. generalize (sbp_breakpoints args) as reqs.
  intros reqs Hall. induction Hall as [|req r reqs rs Hr Hrs IH]; intros Hin;
    constructor.
  - destruct Hr as (d & id & -> & Hid & Hidx & Hold).
    exists d, id. split_and!; try done.
    intros id0 Hid0. apply Hold. rewrite Cin; [done|].
    exact (Forall_inv Hin).
  - apply IH. exact (Forall_inv_tail Hin).
Qed.

(** The response of a setBreakpoints pass over a source file lists the
    requested breakpoints one by one in the order of the request; each
    entry carries the id under which its line is indexed after the pass,
    and for a line that was indexed before the pass it is the old id,
    reported as verified, with no source or line of its own. *)
Theorem response_lists_requested_breakpoints `{Runtime} `{Backend}
    (args : SetBreakpointsArgs) (s s' : Session) (resp : option Dict) :
  let file_id := normcase (from_lldb_str (sbp_path args)) in
  noDebug (launch_args s) = false →
  registry_inv (registry_of file_id s) →
  DEBUG_setBreakpoints args s = (Ok resp, s') →
  ∃ result, resp = Some [("breakpoints", JArr result)]
    ∧ Forall2 (reports file_id (file_bps_of file_id s) s')
        (sbp_breakpoints args) result.
Proof. exact (response_shape args s s' resp). Qed.

Section Repetition.

Lemma clear_line_requested lines items r :
  Forall (λ item : Z * Z, item.1 ∈ lines) items →
  fold_left (clear_line lines) items r = r.
Proof.
  induction 1 as [|item items Hitem _ IH]; [done|]. simpl.
  unfold clear_line at 2. by rewrite (bool_decide_eq_true_2 _ Hitem).
Qed.

Lemma reconcile_line_indexed r line :
  registry_inv r → is_Some (rg_index r !! line) → reconcile_line r line = r.
Proof.
  intros Hinv [id Hid]. unfold reconcile_line.
  rewrite (truthy_id_inv r line Hinv), Hid.
  destruct r as [index infos backend next]. cbn in *. by rewrite insert_id.
Qed.

Lemma reconcile_same_lines lines r :
  registry_inv r →
  (∀ l, is_Some (rg_index r !! l) ↔ l ∈ lines) →
  reconcile lines r = r.
Proof.
  intros Hinv Hdom. unfold reconcile.
  rewrite clear_line_requested.
  2:{ apply Forall_forall. intros [l id] Hin. cbn. apply Hdom.
      apply elem_of_map_to_list in Hin. by exists id. }
  assert (Forall (λ l, is_Some (rg_index r !! l)) lines) as Hall.
  { apply Forall_forall. intros l Hl. by apply Hdom. }
  clear Hdom. induction Hall as [|l lines Hl _ IH]; [done|]. simpl.
  by rewrite reconcile_line_indexed.
Qed.

End Repetition.

(** A setBreakpoints pass over a source file keeps, deletes and creates
    breakpoints by line: a requested line that was indexed keeps its id
    with its BreakpointInfo and backend breakpoint; the id of a line that
    left the request is deleted from the backend and from the breakpoint
    table; a requested line that was not indexed gets a breakpoint created
    in this pass; afterwards the index holds exactly the requested lines
    and the registry of the file is well formed again. *)
Theorem pass_reconciles_by_line `{Runtime} `{Backend}
    (args : SetBreakpointsArgs) (s s' : Session) (resp : option Dict) :
  let file_id := normcase (from_lldb_str (sbp_path args)) in
  let lines := map sb_line (sbp_breakpoints args) in
  let old := file_bps_of file_id s in
  let new := file_bps_of file_id s' in
  noDebug (launch_args s) = false →
  registry_inv (registry_of file_id s) →
  DEBUG_setBreakpoints args s = (Ok resp, s') →
  (∀ l id, old !! l = Some id → l ∈ lines →
      new !! l = Some id
      ∧ is_Some (breakpoints s' !! id)
      ∧ is_Some (tg_breakpoints (target s') !! id))
  ∧ (∀ l id, old !! l = Some id → l ∉ lines →
      new !! l = None
      ∧ breakpoints s' !! id = None
      ∧ tg_breakpoints (target s') !! id = None)
  ∧ (∀ l, old !! l = None → l ∈ lines →
      ∃ id, new !! l = Some id
            ∧ tg_next_id (target s) ≤ id < tg_next_id (target s')
            ∧ is_Some (breakpoints s' !! id)
            ∧ is_Some (tg_breakpoints (target s') !! id))
  ∧ (∀ l, is_Some (new !! l) ↔ l ∈ lines)
  ∧ registry_inv (registry_of file_id s').
Proof.
  intros file_id lines old new Hnd Hinv Hrun.
  destruct (source_breakpoints_reconciled args s s' resp Hnd Hinv Hrun)
    as (Hkept & Hgone & Hnew & Hdom & Hinv').
  fold file_id lines old new in Hkept, Hgone, Hnew, Hdom, Hinv'.
  split_and!; try done.
  - intros l id Hl Hin. destruct (Hkept l id Hl Hin) as (?&?&?&_). done.
  - intros l Hl Hin. destruct (Hnew l Hl Hin) as (id & Hid & Hge & _ & Hi & Hb).
    exists id. split_and!; try done.
    destruct Hinv' as (Hidx & _). by destruct (Hidx l id Hid) as (_ & Hlt & _).
Qed.

(** Sending the lines of a file once more changes nothing in its registry:
    after a pass that returned, a second pass for the same file and the
    same lines keeps the index, creates no breakpoint and deletes none,
    and reports every breakpoint as verified under its id. *)
Theorem repeated_request_changes_nothing `{Runtime} `{Backend}
    (args args2 : SetBreakpointsArgs) (s s1 s2 : Session)
    (resp resp2 : option Dict) :
  let file_id := normcase (from_lldb_str (sbp_path args)) in
  noDebug (launch_args s) = false →
  registry_inv (registry_of file_id s) →
  sbp_path args2 = sbp_path args →
  map sb_line (sbp_breakpoints args2) = map sb_line (sbp_breakpoints args) →
  DEBUG_setBreakpoints args s = (Ok resp, s1) →
  DEBUG_setBreakpoints args2 s1 = (Ok resp2, s2) →
  registry_of file_id s2 = registry_of file_id s1
  ∧ ∃ result, resp2 = Some [("breakpoints", JArr result)]
      ∧ Forall2 (λ req r, ∃ id, file_bps_of file_id s1 !! sb_line req = Some id
                   ∧ r = JObj [("id", JInt id); ("verified", JBool true)])
          (sbp_breakpoints args2) result.
Proof.
  intros file_id Hnd Hinv Hpath Hlines Hrun1 Hrun2.
  destruct (source_breakpoints_reconciled args s s1 resp Hnd Hinv Hrun1)
    as (_ & _ & _ & Hdom & Hinv1).
  fold file_id in Hdom, Hinv1.
  assert (noDebug (launch_args s1) = false) as Hnd1.
  { destruct (pass_outcomes args s) as [[_ (s0 & Hs0 & Hframe)]|[Hnd' _]];
      [|congruence].
    rewrite Hrun1 in Hs0. cbn in Hs0. subst s1.
    destruct Hframe as ((_ & Hla & _) & _). cbn in *. by rewrite Hla. }
  pose proof (DEBUG_setBreakpoints_registry args2 s1 resp2 s2 Hnd1 Hrun2) as Hreg.
  cbv zeta in Hreg. rewrite Hpath, Hlines in Hreg. fold file_id in Hreg.
  rewrite reconcile_same_lines in Hreg; [|done|done].
  split; [done|].
  pose proof (response_shape args2 s1 s2 resp2 Hnd1) as Hshape.
  cbv zeta in Hshape. rewrite Hpath in Hshape. fold file_id in Hshape.
  destruct (Hshape Hinv1 Hrun2) as (result & -> & Hall).
  exists result. split; [done|].
  assert (Forall (λ req, is_Some (file_bps_of file_id s1 !! sb_line req))
            (sbp_breakpoints args2)) as Hin.
  { apply Forall_forall. intros req Hreq. apply Hdom. rewrite <- Hlines.
    by apply list_elem_of_fmap_2. }
  clear Hrun2 Hreg Hshape Hlines. revert Hall Hin.
  generalize (sbp_breakpoints args2) as reqs.
  intros reqs Hall. induction Hall as [|req r reqs rs Hr Hrs IH]; intros Hin;
    constructor.
  - destruct Hr as (d & id & -> & _ & _ & Hold).
    destruct (Forall_inv Hin) as [id0 Hid0].
    destruct (Hold id0 Hid0) as [-> ->]. by exists id.
  - apply IH. exact (Forall_inv_tail Hin).
Qed.

Section ConditionSetup.
Context `{Runtime} `{Backend}.

Lemma make_python_tables cond s r s' :
  make_python_expression_bpcond cond s = (r, s') →
  breakpoints s' = breakpoints s ∧ target s' = target s.
Proof.
  unfold make_python_expression_bpcond.
  destruct (preprocess_python_expr cond); [|by intros [= _ <-]].
  destruct (py_compile _ ModeEval) as [e|]; [|by intros [= _ <-]].
  destruct (is_syntax_error e); [|by intros [= _ <-]].
  destruct (py_compile _ ModeExec); by intros [= _ <-].
Qed.

Lemma make_simple_tables cond s r s' :
  make_simple_expression_bpcond cond s = (r, s') →
  breakpoints s' = breakpoints s ∧ target s' = target s.
Proof.
  unfold make_simple_expression_bpcond.
  destruct (preprocess_simple_expr cond); [|by intros [= _ <-]].
  destruct (py_compile _ ModeEval); by intros [= _ <-].
Qed.

End ConditionSetup.

(** After [set_bp_condition] the BreakpointInfo of the breakpoint follows
    the request alone: its log message is the request's, its ignore count
    is the one the request asks for (0 if it asks for none or for no
    integer), and it has no condition closure when the request has no
    condition; its other fields and the other breakpoints stay as they
    were; and whenever the info then has a condition, a count or a log
    message, the hit callback of the adapter is installed on the backend
    breakpoint. *)
Theorem condition_setup_follows_request `{Runtime}
    (bp_id : Z) (req : SourceBreakpoint) (info0 : BreakpointInfo)
    (s s' : Session) :
  breakpoints s !! bp_id = Some info0 →
  set_bp_condition bp_id req s = (Ok tt, s') →
  ∃ info, breakpoints s' !! bp_id = Some info
    ∧ log_message info = sb_logMessage req
    ∧ ignore_count info = requested_ignore_count req
    ∧ (opt_str_truthy (to_lldb_str <$> sb_condition req) = false →
       condition info = None)
    ∧ bi_id info = bi_id info0 ∧ exception_bp info = exception_bp info0
    ∧ address info = address info0 ∧ adapter_data info = adapter_data info0
    ∧ (∀ other, other ≠ bp_id → breakpoints s' !! other = breakpoints s !! other)
    ∧ (has_condition_or_count info || opt_str_truthy (log_message info) = true →
       hit_callback_installed bp_id s').
Proof.
  intros Hinfo Hrun. unfold set_bp_condition in Hrun.
  apply bind_ok in Hrun as (found & s0 & Hg & Hrun). injection Hg as <- <-.
  rewrite Hinfo in Hrun.
  apply bind_ok in Hrun as ([] & s1 & Hclear & Hrun).
  apply bind_ok in Hrun as ([] & s2 & Hcond & Hrun).
  apply bind_ok in Hrun as ([] & s3 & Hcount & Hrun).
  apply bind_ok in Hrun as ([] & s4 & Hlog & Hrun).
  apply bind_ok in Hrun as (now & s5 & Hnow & Hrun).
  injection Hlog as <-. injection Hnow as <- <-.
  (* the settings of an earlier request are dropped *)
  assert (∃ i1, breakpoints s1 !! bp_id = Some i1
            ∧ condition i1 = None ∧ ignore_count i1 = 0
            ∧ bi_id i1 = bi_id info0 ∧ exception_bp i1 = exception_bp info0
            ∧ address i1 = address info0 ∧ adapter_data i1 = adapter_data info0
            ∧ ∀ other, other ≠ bp_id →
                breakpoints s1 !! other = breakpoints s !! other)
    as (i1 & Hi1 & Hc1 & Hn1 & Hid1 & Hex1 & Had1 & Hdata1 & Hoth1).
  { destruct (has_condition_or_count info0) eqn:Hhas.
    - apply bind_ok in Hclear as ([] & sa & Ha & Hclear). injection Ha as <-.
      apply bind_ok in Hclear as ([] & sb & Hb & Hclear). injection Hb as <-.
      apply bind_ok in Hclear as ([] & sc & Hc & Hclear). injection Hc as <-.
      injection Hclear as <-. cbn.
      eexists. rewrite !lookup_alter_eq, Hinfo. cbn.
      split_and!; try done.
      intros other Hne. by rewrite !lookup_alter_ne.
    - injection Hclear as <-. exists info0.
      unfold has_condition_or_count in Hhas.
      apply orb_false_elim in Hhas as [Hc Hn].
      split_and!; try done.
      + by destruct (condition info0).
      + apply negb_false_iff in Hn. by apply Z.eqb_eq in Hn. }
  (* the condition of this request *)
  assert (∃ i2, breakpoints s2 !! bp_id = Some i2
            ∧ (opt_str_truthy (to_lldb_str <$> sb_condition req) = false →
               condition i2 = None)
            ∧ ignore_count i2 = 0
            ∧ bi_id i2 = bi_id info0 ∧ exception_bp i2 = exception_bp info0
            ∧ address i2 = address info0 ∧ adapter_data i2 = adapter_data info0
            ∧ ∀ other, other ≠ bp_id →
                breakpoints s2 !! other = breakpoints s !! other)
    as (i2 & Hi2 & Hc2 & Hn2 & Hid2 & Hex2 & Had2 & Hdata2 & Hoth2).
  { destruct (opt_str_truthy (to_lldb_str <$> sb_condition req)).
    2:{ injection Hcond as <-. exists i1. by split_and!. }
    apply bind_ok in Hcond as ([ty c] & sa & Hty & Hcond). injection Hty as _ <-.
    cbn iota beta in Hcond. destruct ty.
    - apply bind_ok in Hcond as (ev & sb & Hmk & Hcond).
      destruct (make_simple_tables _ _ _ _ Hmk) as [Hb _].
      destruct ev as [ev|]; injection Hcond as <-; cbn; rewrite ?Hb.
      + eexists. rewrite lookup_alter_eq, Hi1. cbn. split_and!; try done.
        intros other Hne. rewrite lookup_alter_ne; [|done]. by apply Hoth1.
      + exists i1. by split_and!.
    - apply bind_ok in Hcond as (ev & sb & Hmk & Hcond).
      destruct (make_python_tables _ _ _ _ Hmk) as [Hb _].
      destruct ev as [ev|]; injection Hcond as <-; cbn; rewrite ?Hb.
      + eexists. rewrite lookup_alter_eq, Hi1. cbn. split_and!; try done.
        intros other Hne. rewrite lookup_alter_ne; [|done]. by apply Hoth1.
      + exists i1. by split_and!.
    - injection Hcond as <-. exists i1. by split_and!. }
  (* the hit condition of this request *)
  assert (∃ i3, breakpoints s3 !! bp_id = Some i3
            ∧ condition i3 = condition i2
            ∧ ignore_count i3 = requested_ignore_count req
            ∧ bi_id i3 = bi_id info0 ∧ exception_bp i3 = exception_bp info0
            ∧ address i3 = address info0 ∧ adapter_data i3 = adapter_data info0
            ∧ ∀ other, other ≠ bp_id →
                breakpoints s3 !! other = breakpoints s !! other)
    as (i3 & Hi3 & Hc3 & Hn3 & Hid3 & Hex3 & Had3 & Hdata3 & Hoth3).
  { unfold requested_ignore_count.
    destruct (opt_str_truthy (sb_hitCondition req)).
    2:{ injection Hcount as <-. exists i2. by split_and!. }
    destruct (parse_int _) as [n|].
    - apply bind_ok in Hcount as ([] & sa & Ha & Hcount). injection Ha as <-.
      injection Hcount as <-. cbn.
      eexists. rewrite lookup_alter_eq, Hi2. cbn. split_and!; try done.
      intros other Hne. rewrite lookup_alter_ne; [|done]. by apply Hoth2.
    - injection Hcount as <-. exists i2. by split_and!. }
  (* the log message, and the callback *)
  assert (breakpoints (update_info bp_id (info_with_log_message (sb_logMessage req)) s3)
            !! bp_id = Some (info_with_log_message (sb_logMessage req) i3)) as Hi4.
  { cbn. by rewrite lookup_alter_eq, Hi3. }
  pose proof Hi4 as Hi4'. cbn in Hi4. rewrite Hi4 in Hrun.
  exists (info_with_log_message (sb_logMessage req) i3).
  assert (breakpoints s' = breakpoints
            (update_info bp_id (info_with_log_message (sb_logMessage req)) s3))
    as Hb'.
  { destruct (_ || _); by injection Hrun as <-. }
  rewrite Hb', Hi4'. cbn [info_with_log_message condition ignore_count log_message
                          bi_id exception_bp address adapter_data].
  split_and!; try done.
  - intros Hno. rewrite Hc3. by apply Hc2.
  - intros other Hne. cbn. rewrite lookup_alter_ne; [|done]. by apply Hoth3.
  - intros Harmed. unfold has_condition_or_count in Harmed, Hrun.
    cbn [info_with_log_message condition ignore_count log_message] in Harmed, Hrun.
    rewrite Harmed in Hrun. injection Hrun as <-.
    intros b. cbn. rewrite lookup_alter_eq.
    destruct (tg_breakpoints (target s3) !! bp_id); [|done]. by intros [= <-].
Qed.

Section ThreadsAndStops.
Context `{Runtime}.

Lemma thread_events_fold (reason : string) (ids : list Z) (s : Session) :
  let s' := fold_left (fun s thread_id =>
              send_event "thread" [("threadId", JInt thread_id);
                                   ("reason", JStr reason)] s) ids s in
  trace s' = trace s ++ map (thread_event reason) ids
  ∧ known_threads s' = known_threads s
  ∧ process s' = process s
  ∧ breakpoints s' = breakpoints s.
Proof.
  revert s. induction ids as [|i ids IH]; intros s; simpl.
  - by rewrite app_nil_r.
  - destruct (IH (send_event "thread"
                    [("threadId", JInt i); ("reason", JStr reason)] s))
      as (Ht & Hk & Hp & Hb).
    rewrite Ht, Hk, Hp, Hb. cbn. by rewrite <- app_assoc.
Qed.

Lemma update_threads_spec (p : SBProcess) (s : Session) :
  let s1 := update_threads p s in
  known_threads s1 = thread_ids p
  ∧ trace s1 = trace s
      ++ map (thread_event "exited") (elements (known_threads s ∖ thread_ids p))
      ++ map (thread_event "started") (elements (thread_ids p ∖ known_threads s))
  ∧ process s1 = process s
  ∧ breakpoints s1 = breakpoints s.
Proof.
  unfold update_threads. fold (thread_ids p).
  destruct (thread_events_fold "exited"
              (elements (known_threads s ∖ thread_ids p)) s) as (Ht1 & Hk1 & Hp1 & Hb1).
  cbv zeta in Ht1, Hk1, Hp1, Hb1.
  set (s1 := fold_left _ (elements (known_threads s ∖ thread_ids p)) s) in *.
  destruct (thread_events_fold "started"
              (elements (thread_ids p ∖ known_threads s)) s1) as (Ht2 & Hk2 & Hp2 & Hb2).
  cbv zeta in Ht2, Hk2, Hp2, Hb2.
  cbn. rewrite Ht2, Hp2, Hb2, Ht1, Hp1, Hb1. by rewrite <- app_assoc.
Qed.

End ThreadsAndStops.

(** [update_threads] tells the client about the threads that exited and
    then about those that started since the last stop, one event for each,
    and remembers the threads of the process; called again with the same
    threads it sends nothing. *)
Theorem threads_announced_once `{Runtime} (p : SBProcess) (s : Session) :
  let s1 := update_threads p s in
  known_threads s1 = thread_ids p
  ∧ (∃ exited started,
       trace s1 = trace s ++ map (thread_event "exited") exited
                          ++ map (thread_event "started") started
       ∧ NoDup exited ∧ NoDup started
       ∧ (∀ id, id ∈ exited ↔ id ∈ known_threads s ∧ id ∉ thread_ids p)
       ∧ (∀ id, id ∈ started ↔ id ∈ thread_ids p ∧ id ∉ known_threads s))
  ∧ trace (update_threads p s1) = trace s1.
Proof.
  intros s1. subst s1.
  destruct (update_threads_spec p s) as (Hk & Ht & _).
  cbv zeta in Hk, Ht. split_and!; [done| |].
  - eexists _, _. split; [exact Ht|].
    split_and!; try apply NoDup_elements; intros id; rewrite elem_of_elements;
      set_solver.
  - destruct (update_threads_spec p (update_threads p s)) as (_ & Ht2 & _).
    cbv zeta in Ht2. rewrite Ht2, Hk.
    rewrite difference_diag_L, elements_empty. cbn. by rewrite app_nil_r.
Qed.

Section StopEvents.
Context `{Runtime}.

Lemma thread_events_quiet (reason : string) (ids : list Z) :
  Forall is_quiet (map (thread_event reason) ids).
Proof.
  apply Forall_forall. intros e [id [-> _]]%list_elem_of_fmap.
  split; [reflexivity|]. cbn. tauto.
Qed.

(** The part of [notify_target_stopped] that comes before the stop reason
    is looked at. *)
Lemma stop_prelude (p : SBProcess) (s : Session) :
  let s1 := update_threads p s in
  let select t := with_process (Some (mkProcess (Some t) (pr_threads p)))
                    (emit (SetSelectedThread (th_id t)) s1) in
  let s2 :=
    match pr_selected p with
    | Some thread =>
        if has_stop_reason thread then s1
        else match find_stopped_thread p with Some t => select t | None => s1 end
    | None => match find_stopped_thread p with Some t => select t | None => s1 end
    end in
  process s = Some p →
  (∃ added, trace s2 = trace s ++ added ∧ Forall is_quiet added)
  ∧ known_threads s2 = thread_ids p
  ∧ breakpoints s2 = breakpoints s
  ∧ match find_stopped_thread p with
    | Some t => process s2 = Some (mkProcess (Some t) (pr_threads p))
    | None => process s2 = Some p
    end.
Proof.
  intros s1 select s2 Hp.
  destruct (update_threads_spec p s) as (Hk & Ht & Hp1 & Hb).
  fold s1 in Hk, Ht, Hp1, Hb. clearbody s1.
  assert (Forall is_quiet
            (map (thread_event "exited") (elements (known_threads s ∖ thread_ids p))
             ++ map (thread_event "started")
                  (elements (thread_ids p ∖ known_threads s)))) as Hq.
  { apply Forall_app. split; apply thread_events_quiet. }
  assert (∀ t, (∃ added, trace (select t) = trace s ++ added ∧ Forall is_quiet added)
               ∧ known_threads (select t) = thread_ids p
               ∧ breakpoints (select t) = breakpoints s
               ∧ process (select t) = Some (mkProcess (Some t) (pr_threads p)))
    as Hsel.
  { intros t. subst select. cbn. rewrite Ht. split_and!; try done.
    eexists. rewrite <- app_assoc. split; [done|].
    apply Forall_app. split; [done|]. apply Forall_singleton.
    split; [reflexivity|]. cbn. tauto. }
  assert ((∃ added, trace s1 = trace s ++ added ∧ Forall is_quiet added)
          ∧ known_threads s1 = thread_ids p ∧ breakpoints s1 = breakpoints s)
    as (Hq1 & Hk1' & Hb1').
  { split_and!; try done. by eexists. }
  subst s2. unfold find_stopped_thread.
  destruct (pr_selected p) as [sel|] eqn:Esel.
  - destruct (has_stop_reason sel) eqn:Ehas.
    + split_and!; try done. rewrite Hp1, Hp. destruct p; cbn in *. by rewrite Esel.
    + destruct (find has_stop_reason (pr_threads p)) as [t|].
      * apply Hsel.
      * split_and!; try done. by rewrite Hp1.
  - destruct (find has_stop_reason (pr_threads p)) as [t|].
    + apply Hsel.
    + split_and!; try done. by rewrite Hp1.
Qed.

End StopEvents.

(** A stop that is neither a breakpoint hit nor the end of a step
    (a signal, a watchpoint, an exception, or anything else) writes
    [Stop reason: <description>] to the console and then sends one
    ['stopped'] event that names the reason and the thread and carries the
    description as its text. *)
Theorem described_stop_reported `{Runtime} (s : Session) (p : SBProcess)
    (thread : SBThread) :
  process s = Some p →
  find_stopped_thread p = Some thread →
  is_described_reason (th_stop_reason thread) = true →
  ∃ s' added,
    notify_target_stopped s = (Ok tt, s')
    ∧ trace s' = trace s ++ added
        ++ [console_event None ("Stop reason: " +:+ th_stop_description thread);
            Send (MEvent "stopped"
                    [("allThreadsStopped", JBool true);
                     ("text", JStr (th_stop_description thread));
                     ("reason", JStr (described_reason (th_stop_reason thread)));
                     ("threadId", JInt (th_id thread))])]
    ∧ Forall is_quiet added.
Proof.
  intros Hp Hfind Hreason.
  destruct (stop_prelude p s Hp) as ((added & Ht & Hq) & _).
  cbv zeta in Ht. unfold notify_target_stopped. rewrite Hp.
  cbv zeta. rewrite Hfind in *.
  set (s2 := match pr_selected p with Some _ => _ | None => _ end) in *.
  clearbody s2.
  destruct (th_stop_reason thread) eqn:Er; try discriminate Hreason.
  all: eexists _, added; split; [reflexivity|]; split; [|done].
  all: cbn; rewrite console_msg_cases;
    change (str_truthy ("Stop reason: " +:+ th_stop_description thread)) with true;
    cbn; rewrite Ht; by rewrite <- !app_assoc.
Qed.

(** The end of a step is reported by one ['stopped'] event with the reason
    ["step"] and the thread, with no text and nothing on the console; and
    when no thread of the process has a stop reason the event says no more
    than that all threads stopped. *)
Theorem step_stop_reported `{Runtime} (s : Session) (p : SBProcess) :
  process s = Some p →
  (∀ thread, find_stopped_thread p = Some thread →
             is_step_reason (th_stop_reason thread) = true) →
  ∃ s' added,
    notify_target_stopped s = (Ok tt, s')
    ∧ trace s' = trace s ++ added
        ++ [Send (MEvent "stopped"
                    match find_stopped_thread p with
                    | Some thread =>
                        [("allThreadsStopped", JBool true); ("reason", JStr "step");
                         ("threadId", JInt (th_id thread))]
                    | None => [("allThreadsStopped", JBool true)]
                    end)]
    ∧ Forall is_quiet added.
Proof.
  intros Hp Hstep.
  destruct (stop_prelude p s Hp) as ((added & Ht & Hq) & _).
  cbv zeta in Ht. unfold notify_target_stopped. rewrite Hp. cbv zeta.
  set (s2 := match pr_selected p with Some _ => _ | None => _ end) in *.
  clearbody s2.
  destruct (find_stopped_thread p) as [thread|].
  - specialize (Hstep thread eq_refl).
    destruct (th_stop_reason thread) eqn:Er; try discriminate Hstep.
    all: eexists _, added; split; [reflexivity|]; cbn; rewrite Ht;
      split; [by rewrite <- !app_assoc|done].
  - eexists _, added. split; [reflexivity|]. cbn. rewrite Ht.
    split; [by rewrite <- !app_assoc|done].
Qed.

(** After a stop notification the thread that caused the stop is the
    selected thread of the process, whether it was selected before or was
    found by scanning the threads, and the threads of the process are the
    known threads. *)
Theorem stopped_thread_is_selected `{Runtime} (s : Session) (p : SBProcess)
    (thread : SBThread) :
  process s = Some p →
  find_stopped_thread p = Some thread →
  ∃ s', notify_target_stopped s = (Ok tt, s')
    ∧ process s' = Some (mkProcess (Some thread) (pr_threads p))
    ∧ known_threads s' = thread_ids p
    ∧ breakpoints s' = breakpoints s.
Proof.
  intros Hp Hfind.
  destruct (stop_prelude p s Hp) as (_ & Hk & Hb & Hsel).
  cbv zeta in Hk, Hb, Hsel. unfold notify_target_stopped. rewrite Hp. cbv zeta.
  set (s2 := match pr_selected p with Some _ => _ | None => _ end) in *.
  clearbody s2. rewrite Hfind in *.
  destruct (th_stop_reason thread); eexists; (split; [reflexivity|]);
    cbn; rewrite ?console_msg_cases;
    change (str_truthy ("Stop reason: " +:+ th_stop_description thread)) with true;
    by cbn.
Qed.

Section ReverseExecution.
Context `{Runtime} `{Backend}.

Lemma reverse_exec_all_succeed (commands : list string) (s : Session) :
  Forall command_succeeds commands →
  reverse_exec commands s
  = with_trace (trace s ++ map InterpHandleCommand commands) s
  ∨ commands = [] ∧ reverse_exec commands s = s.
Proof.
  intros Hall. revert s. induction Hall as [|c rest Hc _ IH]; intros s.
  - by right.
  - left. simpl. unfold command_succeeds in Hc. rewrite Hc. simpl.
    destruct (IH (emit (InterpHandleCommand c) s)) as [->| [-> ->]].
    + unfold emit. cbn. by rewrite <- app_assoc.
    + done.
Qed.

Lemma reverse_exec_trace_succeed (commands : list string) (s : Session) :
  Forall command_succeeds commands →
  trace (reverse_exec commands s) = trace s ++ map InterpHandleCommand commands.
Proof.
  intros Hall. destruct (reverse_exec_all_succeed commands s Hall) as [->|[-> ->]].
  - done.
  - by rewrite app_nil_r.
Qed.

End ReverseExecution.

(** [reverse_exec] hands the commands to the interpreter in order and
    stops at the first one that fails: the commands after it are not
    issued, and its error is written to the console as stderr; when every
    command succeeds all are issued and nothing is written. *)
Theorem reverse_exec_stops_at_first_failure `{Runtime} `{Backend}
    (done_ : list string) (failing : string) (skipped : list string)
    (s : Session) :
  Forall command_succeeds done_ →
  ¬ command_succeeds failing →
  let error := cr_error (handle_command failing) in
  trace (reverse_exec (done_ ++ failing :: skipped) s)
  = trace s ++ map InterpHandleCommand (done_ ++ [failing])
      ++ (if str_truthy error then [console_event (Some "stderr") error] else [])
  ∧ trace (reverse_exec done_ s) = trace s ++ map InterpHandleCommand done_.
Proof.
  intros Hall Hfail error. split; [|by apply reverse_exec_trace_succeed].
  apply not_true_is_false in Hfail. subst error.
  revert s. induction Hall as [|c rest Hc _ IH]; intros s.
  - simpl. unfold command_succeeds in Hfail. rewrite Hfail. simpl.
    unfold console_err. rewrite console_msg_cases.
    destruct (str_truthy _); cbn; by rewrite <- ?app_assoc.
  - simpl. unfold command_succeeds in Hc. rewrite Hc. simpl. rewrite IH.
    cbn. by rewrite <- !app_assoc.
Qed.

Section ForwardResume.
Context `{Runtime} `{Backend}.

Lemma in_disassembly_always fs s :
  show_disassembly s = ShowAlways → in_disassembly fs s = (Ok true, s).
Proof. intros Hs. unfold in_disassembly. by rewrite Hs. Qed.

Lemma reverse_exec_fields commands s :
  process (reverse_exec commands s) = process s
  ∧ show_disassembly (reverse_exec commands s) = show_disassembly s.
Proof.
  revert s. induction commands as [|c rest IH]; intros s; simpl; [done|].
  destruct (negb (cr_succeeded (handle_command c))).
  - unfold console_err. rewrite console_msg_cases. by destruct (str_truthy _).
  - by destruct (IH (emit (InterpHandleCommand c) s)) as [-> ->].
Qed.

End ForwardResume.

(** The requests that run the inferior forwards (continue, next, stepIn,
    stepOut) reset the handle tree before they do anything else: the reset
    is the first call they make, ahead of the call that resumes, and no
    handle resolves in the session they leave, also when they raise. *)
Theorem forward_resume_invalidates_handles `{Runtime} `{Backend}
    (r : ResumeRequest) (s : Session) :
  is_forward r = true →
  (∃ rest, trace (resume_handler r s).2 = trace s ++ VarRefsReset :: rest)
  ∧ ∀ handle, HandleTree.get handle (var_refs (resume_handler r s).2) = None.
Proof.
  intros Hfw. apply forward_resume_resets_first. by destruct r.
Qed.

(** A reverse step leaves the session in disassembly mode: whatever the
    mode was and whether or not its commands succeeded, the next [next]
    request steps over one instruction and the next [stepIn] request steps
    into one instruction, not a source line. *)
Theorem reverse_step_switches_to_instructions `{Runtime} `{Backend}
    (back_thread thread : Z) (s : Session) :
  is_Some (process s) →
  let s1 := (DEBUG_stepBack back_thread s).2 in
  show_disassembly s1 = ShowAlways
  ∧ (∃ s2, DEBUG_next thread s1 = (Ok tt, s2)
       ∧ trace s2 = trace s1 ++ [VarRefsReset; ThreadStepInstruction thread true])
  ∧ (∃ s2, DEBUG_stepIn thread s1 = (Ok tt, s2)
       ∧ trace s2 = trace s1 ++ [VarRefsReset; ThreadStepInstruction thread false]).
Proof.
  intros [p Hp] s1.
  assert (process s1 = Some p ∧ show_disassembly s1 = ShowAlways) as [Hp1 Hd1].
  { subst s1. unfold DEBUG_stepBack, bind, act. cbn -[reverse_exec].
    destruct (reverse_exec_fields
                ["process plugin packet send Hc" +:+ format_hex back_thread;
                 "process plugin packet send bs"; "process plugin packet send bs";
                 "stepi"] (with_show_disassembly ShowAlways s)) as [-> ->].
    done. }
  clearbody s1. split; [done|].
  split.
  - unfold DEBUG_next, bind, act, gets. cbn. rewrite Hp1.
    rewrite in_disassembly_always by done. cbn.
    eexists. split; [reflexivity|]. cbn. by rewrite <- app_assoc.
  - unfold DEBUG_stepIn, bind, act, gets. cbn. rewrite Hp1.
    rewrite in_disassembly_always by done. cbn.
    eexists. split; [reflexivity|]. cbn. by rewrite <- app_assoc.
Qed.

(** An expression that fails to evaluate is reported by the context of the
    request, whatever object its frame id resolves to: in ['repl'] context
    the error goes to the console as stderr and the request returns no
    body; in every other context the request raises a [UserError] whose
    message is the error with its line breaks replaced by ["; "], and
    nothing is written. *)
Theorem evaluation_error_by_context `{Runtime} `{Backend} `{Contexts}
    (args : EvaluateArgs) (s s1 : Session) (x : string)
    (error_message : string) :
  is_Some (process s) →
  expression_to_evaluate args = Some x →
  evaluate_expr_in_object
    (parse_format_suffix format_codes (global_format s) x).2
    (HandleTree.get (ev_frameId args) (var_refs s)) s
  = (Ok (ObjSBError error_message), s1) →
  DEBUG_evaluate args s
  = match ev_context args with
    | CtxRepl => (Ok None, console_err error_message s1)
    | _ => (Raise (mkExn UserError (replace_char newline "; " error_message)), s1)
    end.
Proof.
  intros Hp Hx Heval.
  rewrite (evaluate_routes_expression _ _ _ Hp Hx).
  unfold evaluate_expr, bind, gets.
  destruct (parse_format_suffix format_codes (global_format s) x) as [fmt e].
  cbn [snd] in Heval. rewrite Heval.
  by destruct (ev_context args).
Qed.

Section VariableNames.
Context `{Runtime} `{Backend}.

















End VariableNames.


(** ** The properties at work *)

Lemma returned_runs {A} (m : M A) (s : Session) :
  match (m s).1 with Ok _ => true | Raise _ => false end = true →
  ∃ a, m s = (Ok a, (m s).2).
Proof. destruct (m s) as [[a|e] s']; [by exists a|done]. Qed.

Lemma cached_lookup_is_stable_witness :
  let first := @map_filespec_to_local Examples.runtime Examples.fs_main
                 Examples.session_mapped in
  let later := @run_activities Examples.runtime Examples.backend
                 [Lookup Examples.fs_other;
                  BreakpointPass Examples.request_10_15;
                  Resume (ReqNext 1);
                  Lookup Examples.fs_vendor] first.2 in
  first.1 = Ok (Some "/home/dev/proj/main.c")
  ∧ filespec_cache first.2 !! (Some "/usr/include", Some "stdio.h") = None
  ∧ is_Some (filespec_cache later !! (Some "/usr/include", Some "stdio.h"))
  ∧ @map_filespec_to_local Examples.runtime Examples.fs_main later
    = (Ok (Some "/home/dev/proj/main.c"), later).
Proof.
  intros first later. split; [vm_compute; reflexivity|].
  split; [vm_compute; reflexivity|].
  split; [eexists; vm_compute; reflexivity|].
  assert (@map_filespec_to_local Examples.runtime Examples.fs_main
            Examples.session_mapped
          = (Ok (Some "/home/dev/proj/main.c"), first.2)) as Hrun
    by (vm_compute; reflexivity).
  destruct (@cached_lookup_is_stable Examples.runtime Examples.backend
              Examples.fs_main Examples.fs_main Examples.session_mapped first.2
              (Some "/home/dev/proj/main.c")
              [Lookup Examples.fs_other;
               BreakpointPass Examples.request_10_15;
               Resume (ReqNext 1);
               Lookup Examples.fs_vendor]
              eq_refl Hrun eq_refl eq_refl eq_refl) as (_ & Hlater & _).
  exact Hlater.
Defined.

Lemma suppressed_lookup_returns_existing_file_witness :
  suppress_missing_sources Examples.session_mapped = true
  ∧ @isfile Examples.runtime "/home/dev/proj/main.c" = true.
Proof.
  split; [reflexivity|].
  assert (@cache_sound Examples.runtime Examples.session_mapped) as Hsound.
  { intros key p Hkey. vm_compute in Hkey. discriminate Hkey. }
  destruct (@suppressed_lookup_returns_existing_file Examples.runtime Examples.fs_main
              Examples.session_mapped _ _ eq_refl Hsound eq_refl) as [Hfile _].
  exact (Hfile "/home/dev/proj/main.c" eq_refl).
Defined.

Lemma response_lists_requested_breakpoints_witness :
  let pass := @DEBUG_setBreakpoints Examples.runtime Examples.backend
                Examples.request_10_15 Examples.session_mapped in
  noDebug (launch_args Examples.session_mapped) = false
  ∧ ∃ result,
      pass.1 = Ok (Some [("breakpoints", JArr result)])
      ∧ Forall2 (reports Examples.main_c ∅ pass.2)
          [Examples.plain 10; Examples.plain 15] result.
Proof.
  intros pass. split; [reflexivity|].
  assert (∃ resp, @DEBUG_setBreakpoints Examples.runtime Examples.backend
                    Examples.request_10_15 Examples.session_mapped
                  = (Ok resp, pass.2)) as [resp Hrun]
    by (eexists; vm_compute; reflexivity).
  destruct (@response_lists_requested_breakpoints Examples.runtime Examples.backend
              Examples.request_10_15 Examples.session_mapped pass.2 resp
              eq_refl (registry_inv_init _ _ _) Hrun) as (result & -> & Hall).
  exists result. split; [|exact Hall].
  unfold pass. by rewrite Hrun.
Defined.

Lemma pass_reconciles_by_line_witness :
  let pass := @DEBUG_setBreakpoints Examples.runtime Examples.backend
                Examples.request_10_15 Examples.session_mapped in
  noDebug (launch_args Examples.session_mapped) = false
  ∧ ∀ l, is_Some (file_bps_of Examples.main_c pass.2 !! l) ↔ l ∈ [10; 15].
Proof.
  intros pass. split; [reflexivity|].
  assert (∃ resp, @DEBUG_setBreakpoints Examples.runtime Examples.backend
                    Examples.request_10_15 Examples.session_mapped
                  = (Ok resp, pass.2)) as [resp Hrun]
    by (eexists; vm_compute; reflexivity).
  destruct (@pass_reconciles_by_line Examples.runtime Examples.backend
              Examples.request_10_15 Examples.session_mapped pass.2 resp
              eq_refl (registry_inv_init _ _ _) Hrun) as (_ & _ & _ & Hdom & _).
  exact Hdom.
Defined.

Lemma repeated_request_changes_nothing_witness :
  let setbp := @DEBUG_setBreakpoints Examples.runtime Examples.backend in
  let pass1 := setbp Examples.request_10_15 Examples.session_mapped in
  let pass2 := setbp Examples.request_10_15 pass1.2 in
  noDebug (launch_args Examples.session_mapped) = false
  ∧ registry_of Examples.main_c pass2.2 = registry_of Examples.main_c pass1.2.
Proof.
  intros setbp pass1 pass2. split; [reflexivity|].
  destruct (returned_runs (setbp Examples.request_10_15) Examples.session_mapped)
    as [resp1 Hrun1]; [vm_compute; reflexivity|].
  destruct (returned_runs (setbp Examples.request_10_15) pass1.2)
    as [resp2 Hrun2]; [vm_compute; reflexivity|].
  destruct (@repeated_request_changes_nothing Examples.runtime Examples.backend
              Examples.request_10_15 Examples.request_10_15
              Examples.session_mapped pass1.2 pass2.2 resp1 resp2
              eq_refl (registry_inv_init _ _ _) eq_refl eq_refl Hrun1 Hrun2)
    as [Hsame _].
  exact Hsame.
Defined.

Lemma condition_setup_follows_request_witness :
  let s := MoreExamples.session_counted in
  let run := @set_bp_condition Examples.runtime 12
               MoreExamples.counted_logpoint s in
  breakpoints s !! 12 = Some (mkInfo 12 false None 3 None None None)
  ∧ run.1 = Ok tt
  ∧ ∃ info, breakpoints run.2 !! 12 = Some info
      ∧ log_message info = Some "passed"
      ∧ ignore_count info = 3.
Proof.
  intros s run.
  assert (breakpoints s !! 12 = Some (mkInfo 12 false None 3 None None None))
    as Hinfo0 by (vm_compute; reflexivity).
  assert (@set_bp_condition Examples.runtime 12 MoreExamples.counted_logpoint s
          = (Ok tt, run.2)) as Hrun by (vm_compute; reflexivity).
  split; [exact Hinfo0|]. split; [unfold run; by rewrite Hrun|].
  destruct (@condition_setup_follows_request Examples.runtime 12
              MoreExamples.counted_logpoint _ s run.2 Hinfo0 Hrun)
    as (info & Hinfo & Hlog & Hcount & _).
  exists info. split; [exact Hinfo|]. split; [exact Hlog|]. exact Hcount.
Defined.

Lemma hit_rearms_ignore_count_first_witness :
  let s := MoreExamples.session_counted in
  breakpoints s !! 12 = Some (mkInfo 12 false None 3 None None None)
  ∧ ∃ rest, trace (@should_stop_on_bp Examples.runtime Examples.backend 12
                     Examples.frame0 s).2
            = trace s ++ BpSetIgnoreCount 12 3 :: rest.
Proof.
  intros s. split; [reflexivity|].
  apply (@hit_rearms_ignore_count_first Examples.runtime Examples.backend 12
           Examples.frame0 s (mkInfo 12 false None 3 None None None) eq_refl).
  vm_compute. discriminate.
Defined.

Lemma described_stop_reported_witness :
  let s := MoreExamples.session_at_signal in
  process s = Some (mkProcess (Some Examples.thread4)
                      [Examples.thread4; MoreExamples.thread5])
  ∧ ∃ s' added,
      @notify_target_stopped Examples.runtime s = (Ok tt, s')
      ∧ trace s' = trace s ++ added
          ++ [@console_event Examples.runtime None "Stop reason: signal SIGSEGV";
              Send (MEvent "stopped"
                      [("allThreadsStopped", JBool true);
                       ("text", JStr "signal SIGSEGV");
                       ("reason", JStr "signal");
                       ("threadId", JInt 5)])].
Proof.
  intros s. split; [reflexivity|].
  destruct (@described_stop_reported Examples.runtime s _ MoreExamples.thread5
              eq_refl eq_refl eq_refl) as (s' & added & Hrun & Ht & _).
  exists s', added. split; [exact Hrun|exact Ht].
Defined.

Lemma step_stop_reported_witness :
  let s := Examples.session_stopped in
  process s = Some Examples.process1
  ∧ ∃ s' added,
      @notify_target_stopped Examples.runtime s = (Ok tt, s')
      ∧ trace s' = trace s ++ added
          ++ [Send (MEvent "stopped"
                      [("allThreadsStopped", JBool true); ("reason", JStr "step");
                       ("threadId", JInt 1)])].
Proof.
  intros s. split; [reflexivity|].
  destruct (@step_stop_reported Examples.runtime s Examples.process1 eq_refl)
    as (s' & added & Hrun & Ht & _).
  { intros thread [= <-]. reflexivity. }
  exists s', added. split; [exact Hrun|exact Ht].
Defined.

Lemma stopped_thread_is_selected_witness :
  let s := MoreExamples.session_at_signal in
  process s = Some (mkProcess (Some Examples.thread4)
                      [Examples.thread4; MoreExamples.thread5])
  ∧ ∃ s', @notify_target_stopped Examples.runtime s = (Ok tt, s')
      ∧ process s' = Some (mkProcess (Some MoreExamples.thread5)
                             [Examples.thread4; MoreExamples.thread5]).
Proof.
  intros s. split; [reflexivity|].
  destruct (@stopped_thread_is_selected Examples.runtime s _ MoreExamples.thread5
              eq_refl eq_refl) as (s' & Hrun & Hp & _).
  exists s'. split; [exact Hrun|exact Hp].
Defined.

Lemma reverse_exec_stops_at_first_failure_witness :
  let s := Examples.session_stopped in
  @command_succeeds MoreExamples.forward_only "process plugin packet send Hc1"
  ∧ ¬ @command_succeeds MoreExamples.forward_only "process plugin packet send bs"
  ∧ trace (@DEBUG_stepBack Examples.runtime MoreExamples.forward_only 1 s).2
    = [InterpHandleCommand "process plugin packet send Hc1";
       InterpHandleCommand "process plugin packet send bs";
       @console_event Examples.runtime (Some "stderr") "error: packet not supported"].
Proof.
  intros s.
  assert (@command_succeeds MoreExamples.forward_only
            "process plugin packet send Hc1") as Hfirst by reflexivity.
  assert (¬ @command_succeeds MoreExamples.forward_only
              "process plugin packet send bs") as Hsecond
    by (vm_compute; discriminate).
  split; [exact Hfirst|]. split; [exact Hsecond|].
  destruct (@reverse_exec_stops_at_first_failure Examples.runtime
              MoreExamples.forward_only
              ["process plugin packet send Hc1"] "process plugin packet send bs"
              ["process plugin packet send bs"; "stepi"]
              (with_show_disassembly ShowAlways s)
              (Forall_cons_2 _ _ _ Hfirst (Forall_nil_2 _)) Hsecond) as [Ht _].
  exact Ht.
Defined.

Lemma forward_resume_invalidates_handles_witness :
  let s := Examples.session_stopped in
  is_forward (ReqStepOut 1) = true
  ∧ HandleTree.get (Some 1) (var_refs s) = Some (HFrame Examples.frame0)
  ∧ HandleTree.get (Some 1)
      (var_refs (@resume_handler Examples.runtime Examples.backend (ReqStepOut 1) s).2)
    = None.
Proof.
  intros s. split; [reflexivity|]. split; [reflexivity|].
  destruct (@forward_resume_invalidates_handles Examples.runtime Examples.backend
              (ReqStepOut 1) s eq_refl) as [_ Hnone].
  exact (Hnone (Some 1)).
Defined.

Lemma reverse_step_switches_to_instructions_witness :
  let s := Examples.session_stopped in
  let s1 := (@DEBUG_stepBack Examples.runtime Examples.backend 1 s).2 in
  is_Some (process s)
  ∧ show_disassembly s = ShowAuto
  ∧ ∃ s2, @DEBUG_next Examples.runtime 1 s1 = (Ok tt, s2)
      ∧ trace s2 = trace s1 ++ [VarRefsReset; ThreadStepInstruction 1 true].
Proof.
  intros s s1.
  assert (is_Some (process s)) as Hp by (eexists; reflexivity).
  split; [exact Hp|]. split; [reflexivity|].
  destruct (@reverse_step_switches_to_instructions Examples.runtime Examples.backend
              1 1 s Hp) as (_ & Hnext & _).
  exact Hnext.
Defined.

Lemma evaluation_error_by_context_witness :
  let s := Examples.session_stopped in
  let evaluate := @DEBUG_evaluate Examples.runtime Examples.backend
                    Examples.contexts in
  is_Some (process s)
  ∧ expression_to_evaluate (mkEvaluateArgs "/nat y" CtxWatch (Some 1))
    = Some "/nat y"
  ∧ evaluate (mkEvaluateArgs "/nat y" CtxWatch (Some 1)) s
    = (Raise (mkExn UserError "error: use of undeclared identifier"), s)
  ∧ HandleTree.get (Some 2) (var_refs s) = Some (HLocalsScope Examples.frame0)
  ∧ (evaluate (mkEvaluateArgs "y" CtxWatch (Some 2)) s).1
    = Raise (mkExn UserError "'LocalsScope' object has no attribute 'FindVariable'").
Proof.
  intros s evaluate.
  assert (is_Some (process s)) as Hp by (eexists; reflexivity).
  split; [exact Hp|]. split; [reflexivity|].
  split.
  { exact (@evaluation_error_by_context Examples.runtime Examples.backend
             Examples.contexts (mkEvaluateArgs "/nat y" CtxWatch (Some 1)) s s
             "/nat y" "error: use of undeclared identifier" Hp eq_refl eq_refl). }
  split; [reflexivity|].
  unfold evaluate.
  rewrite (@evaluation_error_by_context Examples.runtime Examples.backend
             Examples.contexts (mkEvaluateArgs "y" CtxWatch (Some 2)) s
             (@evaluate_expr_in_object Examples.runtime Examples.backend
                Examples.contexts "y" (Some (HLocalsScope Examples.frame0)) s).2
             "y" "'LocalsScope' object has no attribute 'FindVariable'"
             Hp eq_refl eq_refl).
  reflexivity.
Defined.

